(** * Inventory search: query engine, request cache and search orchestrator

    A shallow embedding of
    - [InventoryService] (C#): [SearchInventoryAsync], [GetPeakAvailabilityAsync],
      with [MockInventoryRepository.FindByPartNumberAsync] and the request the
      [InventoryController] builds;
    - [InventorySearchApiService] (TypeScript): [cacheKey], [remember],
      [search], [getPeakAvailability];
    - [IndexPageComponent.ngOnInit] (TypeScript): the merge / debounce /
      switchMap pipeline and the state it publishes.

    C# [int] is a 32-bit integer carried in [Z] with its wrap-around written
    out; strings are [string]; nullable references are [option]. *)

From Stdlib Require Import ZArith Lia Bool Ascii String List.
From Stdlib Require Import Permutation Sorted DecimalString DecimalZ.
From stdpp Require Import base list strings sorting gmap.

Local Open Scope Z_scope.

(** ** Strings as the two runtimes treat them *)

Module Str.

(** [char.IsWhiteSpace] on the code units a [string] holds (U+0000..U+00FF):
    U+0009..U+000D, U+0020, U+0085 and U+00A0. *)
Definition IsWhiteSpace (c : ascii) : bool :=
  let n := N_of_ascii c in
  ((9 <=? n) && (n <=? 13) || (n =? 32) || (n =? 133) || (n =? 160))%N.

(** ECMAScript WhiteSpace and LineTerminator on the same code units:
    U+0009..U+000D, U+0020 and U+00A0 (U+0085 is not trimmed by
    [String.prototype.trim]). *)
Definition isJsWhiteSpace (c : ascii) : bool :=
  let n := N_of_ascii c in
  ((9 <=? n) && (n <=? 13) || (n =? 32) || (n =? 160))%N.

Section Trim.
Variable ws : ascii -> bool.

Fixpoint all_ws (s : string) : bool :=
  match s with
  | EmptyString => true
  | String c s' => ws c && all_ws s'
  end.

Fixpoint trim_start (s : string) : string :=
  match s with
  | EmptyString => EmptyString
  | String c s' => if ws c then trim_start s' else s
  end.

Fixpoint trim_end (s : string) : string :=
  match s with
  | EmptyString => EmptyString
  | String c s' =>
      match trim_end s' with
      | EmptyString => if ws c then EmptyString else String c EmptyString
      | t => String c t
      end
  end.

Definition trim (s : string) : string := trim_end (trim_start s).
End Trim.

(** Ordinal substring test, [s.Contains(sub)]. *)
Fixpoint Contains (s sub : string) : bool :=
  String.prefix sub s ||
  match s with
  | EmptyString => false
  | String _ s' => Contains s' sub
  end.

Fixpoint has_char (c : ascii) (s : string) : bool :=
  match s with
  | EmptyString => false
  | String d s' => Ascii.eqb c d || has_char c s'
  end.

(** [s.Split(c)]: the pieces between the occurrences of [c], empty ones
    included; never the empty list. *)
Fixpoint split (c : ascii) (s : string) : list string :=
  match s with
  | EmptyString => [EmptyString]
  | String d s' =>
      if Ascii.eqb c d then EmptyString :: split c s'
      else match split c s' with
           | [] => [String d EmptyString]
           | p :: ps => String d p :: ps
           end
  end.

(** The case mappings on ASCII letters, on which every runtime agrees; they
    instantiate the runtime's mappings in the examples. *)
Definition upper_char (c : ascii) : ascii :=
  let n := N_of_ascii c in
  if ((97 <=? n) && (n <=? 122))%N then ascii_of_N (n - 32) else c.

Definition lower_char (c : ascii) : ascii :=
  let n := N_of_ascii c in
  if ((65 <=? n) && (n <=? 90))%N then ascii_of_N (n + 32) else c.

Fixpoint map_chars (f : ascii -> ascii) (s : string) : string :=
  match s with
  | EmptyString => EmptyString
  | String c s' => String (f c) (map_chars f s')
  end.

Definition ascii_upper : string -> string := map_chars upper_char.
Definition ascii_lower : string -> string := map_chars lower_char.

(** [Array.prototype.join] / [string.Join]. *)
Fixpoint join (sep : string) (l : list string) : string :=
  match l with
  | [] => EmptyString
  | [x] => x
  | x :: l' => x +:+ sep +:+ join sep l'
  end.

End Str.

(** ** Stable sorting

    [Enumerable.OrderBy] and [Array.prototype.sort] are both stable; [le a b]
    says that [a] may stay in front of [b]. *)

Module Seq.

Section StableSort.
Context {A : Type} (le : A -> A -> bool).

Fixpoint insert_sorted (x : A) (l : list A) : list A :=
  match l with
  | [] => [x]
  | y :: l' => if le x y then x :: l else y :: insert_sorted x l'
  end.

Definition stable_sort (l : list A) : list A :=
  foldr insert_sorted [] l.
End StableSort.

End Seq.

(** ** C# runtime pieces used by the service *)

Module CSharp.

Definition Int32_MaxValue : Z := 2147483647.
Definition Int32_MinValue : Z := -2147483648.

Definition in_int32 (z : Z) : bool :=
  (Int32_MinValue <=? z) && (z <=? Int32_MaxValue).

(** Result of an [int] operation in the default unchecked context. *)
Definition wrap32 (z : Z) : Z := (z + 2 ^ 31) mod 2 ^ 32 - 2 ^ 31.

Definition mul32 (a b : Z) : Z := wrap32 (a * b).

Inductive exn : Type :=
| ArgumentNullException
| ArgumentException
| OverflowException.

Inductive outcome (A : Type) : Type :=
| Ok (a : A)
| Throw (e : exn).
Arguments Ok {A} a.
Arguments Throw {A} e.

(** Exceptions propagate: the error monad, with stdpp's [x ← m; k]. *)
#[global] Instance outcome_bind : MBind outcome := fun A B k m =>
  match m with
  | Ok a => k a
  | Throw e => Throw e
  end.

Definition Trim : string -> string := Str.trim Str.IsWhiteSpace.

Definition IsNullOrWhiteSpace (s : option string) : bool :=
  match s with
  | None => true
  | Some s => Str.all_ws Str.IsWhiteSpace s
  end.

(** [a ?? b] on a nullable string. *)
Definition coalesce (a : option string) (b : string) : string :=
  match a with Some s => s | None => b end.

(** [Enumerable.Skip] and [Enumerable.Take]: a count that is not positive
    skips nothing, respectively takes nothing. *)
Definition Skip {A} (n : Z) (l : list A) : list A :=
  if n <=? 0 then l else drop (Z.to_nat n) l.

Definition Take {A} (n : Z) (l : list A) : list A :=
  if n <=? 0 then [] else take (Z.to_nat n) l.

(** [OrderBy] / [OrderByDescending] are stable sorts. *)
Definition OrderBy {A K} (cmp : K -> K -> comparison) (key : A -> K)
    (l : list A) : list A :=
  Seq.stable_sort
    (fun a b => match cmp (key a) (key b) with Gt => false | _ => true end) l.

Definition OrderByDescending {A K} (cmp : K -> K -> comparison)
    (key : A -> K) (l : list A) : list A :=
  Seq.stable_sort
    (fun a b => match cmp (key a) (key b) with Lt => false | _ => true end) l.

(** [Enumerable.Sum] over [int] adds in a checked context. *)
Definition add_checked (acc : outcome Z) (v : Z) : outcome Z :=
  a ← acc;
  if in_int32 (a + v) then Ok (a + v) else Throw OverflowException.

Definition Sum {A} (f : A -> Z) (l : list A) : outcome Z :=
  fold_left (fun acc x => add_checked acc (f x)) l (Ok 0).

(** [GroupBy]: groups in the order in which their keys first occur, the
    members of a group in source order. *)
Fixpoint group_add {A} (k : string) (x : A) (gs : list (string * list A))
    : list (string * list A) :=
  match gs with
  | [] => [(k, [x])]
  | (k', xs) :: gs' =>
      if String.eqb k k' then (k', xs ++ [x]) :: gs'
      else (k', xs) :: group_add k x gs'
  end.

Definition GroupBy {A} (key : A -> string) (l : list A)
    : list (string * list A) :=
  fold_left (fun gs x => group_add (key x) x gs) l [].

(** [Select] with a selector that may throw, enumerated front to back. *)
Fixpoint SelectM {A B} (f : A -> outcome B) (l : list A) : outcome (list B) :=
  match l with
  | [] => Ok []
  | x :: l' => y ← f x; ys ← SelectM f l'; Ok (y :: ys)
  end.

End CSharp.

(** ** The inventory service (C#) *)

Module Inventory.
Import CSharp.

(** Modelled from the spec: the classes of [InventoryServer.Models]
    ([LotInfo], [InventoryItem], [InventorySearchRequest], [SearchResult],
    [BranchAvailability], [AvailabilityResult]) are not among the sources.
    The fields are the ones the service, the repository and the controller
    read and write; reference-typed fields are nullable, quantities, page
    and size are [int], dates are tick counts. *)
Record LotInfo : Type := {
  LotNumber : option string;
  LotQty : Z;
  ExpirationDate : option Z
}.

Record InventoryItem : Type := {
  PartNumber : option string;
  SupplierSku : option string;
  Description : option string;
  Branch : option string;
  AvailableQty : Z;
  Uom : option string;
  LeadTimeDays : option Z;
  LastPurchaseDate : option Z;
  Lots : list LotInfo
}.

Record InventorySearchRequest : Type := {
  Criteria : option string;
  By : option string;
  Branches : option string;
  OnlyAvailable : bool;
  Page : Z;
  Size : Z;
  Sort : option string
}.

Record SearchResult : Type := {
  Total : Z;
  Items : list InventoryItem
}.

Record BranchAvailability : Type := {
  BranchCode : string;
  Qty : Z
}.

Record AvailabilityResult : Type := {
  ResultPartNumber : option string;
  TotalAvailable : Z;
  BranchList : list BranchAvailability
}.

(** [DateTime.MinValue], in ticks. *)
Definition DateTime_MinValue : Z := 0.

(** The boxed keys [keySelector] returns. *)
Inductive sort_key : Type :=
| KString (s : string)
| KInt (n : Z)
| KDate (ticks : Z).

Section Service.
(** The culture-dependent parts of the runtime are parameters: invariant
    case mappings and the string comparison of [Comparer<object>.Default]. *)
Variable ToUpperInvariant : string -> string.
Variable ToLowerInvariant : string -> string.
Variable CompareString : string -> string -> comparison.

Definition compare_key (a b : sort_key) : comparison :=
  match a, b with
  | KString x, KString y => CompareString x y
  | KInt x, KInt y => x ?= y
  | KDate x, KDate y => x ?= y
  | _, _ => Eq
  end.

(** Lines 27-38: the criteria filter. *)
Definition where_criteria (request : InventorySearchRequest)
    (query : list InventoryItem) : list InventoryItem :=
  let criteria := Trim (coalesce (Criteria request) "") in
  let by_ := Trim (coalesce (By request) "PartNumber") in
  if negb (IsNullOrWhiteSpace (Some criteria)) then
    let critUpper := ToUpperInvariant criteria in
    if String.eqb by_ "Description" then
      List.filter (fun i =>
        Str.Contains (ToUpperInvariant (coalesce (Description i) "")) critUpper)
        query
    else if String.eqb by_ "SupplierSKU" then
      List.filter (fun i =>
        Str.Contains (ToUpperInvariant (coalesce (SupplierSku i) "")) critUpper)
        query
    else
      List.filter (fun i =>
        Str.Contains (ToUpperInvariant (coalesce (PartNumber i) "")) critUpper)
        query
  else query.

(** [Split(',', RemoveEmptyEntries | TrimEntries)]. *)
Definition split_entries (s : string) : list string :=
  List.filter (fun e => negb (String.eqb e ""))
    (map Trim (Str.split "," s)).

(** Lines 40-47: the branch filter. *)
Definition where_branches (request : InventorySearchRequest)
    (query : list InventoryItem) : list InventoryItem :=
  if negb (IsNullOrWhiteSpace (Branches request)) then
    let branchSet : gset string :=
      list_to_set
        (map ToUpperInvariant (split_entries (coalesce (Branches request) ""))) in
    List.filter (fun i =>
      bool_decide (ToUpperInvariant (coalesce (Branch i) "") ∈ branchSet))
      query
  else query.

(** Lines 49-52: the availability filter. *)
Definition where_available (request : InventorySearchRequest)
    (query : list InventoryItem) : list InventoryItem :=
  if OnlyAvailable request then
    List.filter (fun i => 0 <? AvailableQty i) query
  else query.

(** Lines 55-62: sort field and direction. *)
Definition sort_spec (request : InventorySearchRequest) : string * string :=
  if negb (IsNullOrWhiteSpace (Sort request))
     && Str.has_char ":" (coalesce (Sort request) "") then
    let parts := map Trim (Str.split ":" (coalesce (Sort request) "")) in
    (ToLowerInvariant (nth 0 parts ""),
     if (1 <? length parts)%nat then ToLowerInvariant (nth 1 parts "")
     else "asc")
  else ("partNumber", "asc").

(** Lines 64-73. *)
Definition keySelector (sortField : string) (i : InventoryItem) : sort_key :=
  if String.eqb sortField "description" then KString (coalesce (Description i) "")
  else if String.eqb sortField "branch" then KString (coalesce (Branch i) "")
  else if String.eqb sortField "availableqty" then KInt (AvailableQty i)
  else if String.eqb sortField "uom" then KString (coalesce (Uom i) "")
  else if String.eqb sortField "leadtimedays" then
    KInt (match LeadTimeDays i with Some d => d | None => Int32_MaxValue end)
  else if String.eqb sortField "lastpurchasedate" then
    KDate (match LastPurchaseDate i with Some d => d | None => DateTime_MinValue end)
  else KString (coalesce (PartNumber i) "").

(** Line 75. *)
Definition order (request : InventorySearchRequest)
    (query : list InventoryItem) : list InventoryItem :=
  let '(sortField, sortDir) := sort_spec request in
  if String.eqb sortDir "desc"
  then OrderByDescending compare_key (keySelector sortField) query
  else OrderBy compare_key (keySelector sortField) query.

(** The query as it stands at line 76: filtered, then sorted. *)
Definition filtered_sorted (request : InventorySearchRequest)
    (all : list InventoryItem) : list InventoryItem :=
  order request
    (where_available request
       (where_branches request (where_criteria request all))).

(** Lines 78 and 79. *)
Definition effective_size (request : InventorySearchRequest) : Z :=
  if Size request <=? 0 then 20 else Size request.

Definition effective_page (request : InventorySearchRequest) : Z :=
  if Page request <? 0 then 0 else Page request.

Definition SearchInventoryAsync (request : option InventorySearchRequest)
    (all : list InventoryItem) : outcome SearchResult :=
  match request with
  | None => Throw ArgumentNullException
  | Some request =>
      let query := filtered_sorted request all in
      let total := Z.of_nat (length query) in
      let size := effective_size request in
      let page := effective_page request in
      let items := Take size (Skip (mul32 page size) query) in
      Ok {| Total := total; Items := items |}
  end.

(** [string.Equals(a, b, StringComparison.OrdinalIgnoreCase)]. *)
Definition EqualsOrdinalIgnoreCase (a b : option string) : bool :=
  match a, b with
  | None, None => true
  | Some x, Some y => String.eqb (ToUpperInvariant x) (ToUpperInvariant y)
  | _, _ => false
  end.

(** [MockInventoryRepository.FindByPartNumberAsync] over its [_items]. *)
Definition FindByPartNumberAsync (_items : list InventoryItem)
    (partNumber : option string) : list InventoryItem :=
  let normalized := ToUpperInvariant (Trim (coalesce partNumber "")) in
  List.filter (fun i =>
    EqualsOrdinalIgnoreCase
      (option_map (fun p => ToUpperInvariant (Trim p)) (PartNumber i))
      (Some normalized))
    _items.

Definition branch_key (i : InventoryItem) : string :=
  ToUpperInvariant (coalesce (Branch i) "").

(** Lines 105-113: one aggregate per group, largest quantity first. *)
Definition grouped (matches : list InventoryItem)
    : outcome (list BranchAvailability) :=
  sums ← SelectM (fun g : string * list InventoryItem =>
                    q ← Sum AvailableQty (snd g);
                    Ok {| BranchCode := fst g; Qty := q |})
                 (GroupBy branch_key matches);
  Ok (OrderByDescending Z.compare Qty sums).

Definition GetPeakAvailabilityAsync (_items : list InventoryItem)
    (partNumber : option string) : outcome AvailabilityResult :=
  if IsNullOrWhiteSpace partNumber then Throw ArgumentException
  else
    let matches := FindByPartNumberAsync _items partNumber in
    match matches with
    | [] =>
        Ok {| ResultPartNumber := Some (Trim (coalesce partNumber ""));
              TotalAvailable := 0;
              BranchList := [] |}
    | first :: _ =>
        g ← grouped matches;
        total ← Sum Qty g;
        Ok {| ResultPartNumber := PartNumber first;
              TotalAvailable := total;
              BranchList := g |}
    end.

(** The request [InventoryController.Search] builds from its query
    parameters (lines 39-48). *)
Definition controller_request (criteria by_ branches : option string)
    (onlyAvailable : bool) (page size : Z) (sort : option string)
    : InventorySearchRequest :=
  {| Criteria := Some (coalesce criteria "");
     By := Some (if IsNullOrWhiteSpace by_ then "PartNumber"
                 else coalesce by_ "");
     Branches := Some (coalesce branches "");
     OnlyAvailable := onlyAvailable;
     Page := page;
     Size := size;
     Sort := Some (coalesce sort "") |}.

(** [InventoryController.Search]: status code and payload. *)
Definition controller_Search (all : list InventoryItem)
    (criteria by_ branches : option string) (onlyAvailable : bool)
    (page size : Z) (sort : option string) (fail : bool)
    : Z * option SearchResult :=
  if fail then (400, None)
  else
    match SearchInventoryAsync
            (Some (controller_request criteria by_ branches onlyAvailable
                     page size sort)) all with
    | Ok result => (200, Some result)
    | Throw _ => (500, None)
    end.

(** *** The spec's words, to compare the service with *)

(** The same request with another field selector. *)
Definition set_by (request : InventorySearchRequest) (by_ : string)
    : InventorySearchRequest :=
  {| Criteria := Criteria request;
     By := Some by_;
     Branches := Branches request;
     OnlyAvailable := OnlyAvailable request;
     Page := Page request;
     Size := Size request;
     Sort := Sort request |}.

(** The same request for another page. *)
Definition set_page (request : InventorySearchRequest) (page size : Z)
    : InventorySearchRequest :=
  {| Criteria := Criteria request;
     By := By request;
     Branches := Branches request;
     OnlyAvailable := OnlyAvailable request;
     Page := page;
     Size := size;
     Sort := Sort request |}.

(** The field [by] selects: any selector other than the two named ones reads
    the part number. *)
Definition searched_field (by_ : string) (i : InventoryItem) : option string :=
  if String.eqb by_ "Description" then Description i
  else if String.eqb by_ "SupplierSKU" then SupplierSku i
  else PartNumber i.

(** Case-insensitive substring match on the selected field; blank criteria
    match everything. *)
Definition criteria_ok (request : InventorySearchRequest) (i : InventoryItem)
    : bool :=
  let criteria := Trim (coalesce (Criteria request) "") in
  IsNullOrWhiteSpace (Some criteria)
  || Str.Contains
       (ToUpperInvariant
          (coalesce
             (searched_field (Trim (coalesce (By request) "PartNumber")) i) ""))
       (ToUpperInvariant criteria).

(** What the branch filter of lines 40-47 keeps: every record when the
    branch list is null or blank, otherwise the records whose branch is one
    of its codes. *)
Definition branch_ok (request : InventorySearchRequest) (i : InventoryItem)
    : bool :=
  IsNullOrWhiteSpace (Branches request)
  || existsb (String.eqb (ToUpperInvariant (coalesce (Branch i) "")))
       (map ToUpperInvariant (split_entries (coalesce (Branches request) ""))).

(** The set of branch codes of a request: the entries of its branch list that
    are not empty, trimmed and upper-cased. *)
Definition branch_codes (request : InventorySearchRequest) : list string :=
  map ToUpperInvariant (split_entries (coalesce (Branches request) "")).

(** The spec's branch filter: case-insensitive membership in the set of
    branch codes, an empty set meaning all branches. *)
Definition in_branches (request : InventorySearchRequest) (i : InventoryItem)
    : bool :=
  match branch_codes request with
  | [] => true
  | codes =>
      existsb (String.eqb (ToUpperInvariant (coalesce (Branch i) ""))) codes
  end.

Definition available_ok (request : InventorySearchRequest) (i : InventoryItem)
    : bool :=
  negb (OnlyAvailable request) || (0 <? AvailableQty i).

(** The conjunction of the three filters as the service applies them. *)
Definition matches_filters (request : InventorySearchRequest)
    (i : InventoryItem) : bool :=
  criteria_ok request i && branch_ok request i && available_ok request i.

(** The spec's filter: criteria, branch set and availability, conjoined. *)
Definition satisfies (request : InventorySearchRequest) (i : InventoryItem)
    : bool :=
  criteria_ok request i && in_branches request i && available_ok request i.

(** Plain (unbounded) sums. *)
Definition total_qty (l : list InventoryItem) : Z :=
  foldr (fun i acc => AvailableQty i + acc) 0 l.

Definition total_branch_qty (l : list BranchAvailability) : Z :=
  foldr (fun b acc => Qty b + acc) 0 l.

(** The distinct keys of a sequence, in the order of their first occurrence. *)
Fixpoint first_occurrences (l : list string) : list string :=
  match l with
  | [] => []
  | k :: l' =>
      k :: List.filter (fun k' => negb (String.eqb k' k)) (first_occurrences l')
  end.

(** One aggregate per normalized branch code, in the order in which the
    branches first occur among the records. *)
Definition branch_totals (matches : list InventoryItem)
    : list BranchAvailability :=
  map (fun k =>
         {| BranchCode := k;
            Qty := total_qty
                     (List.filter (fun i => String.eqb (branch_key i) k) matches) |})
      (first_occurrences (map branch_key matches)).

End Service.

End Inventory.

(** ** The client-side request cache (TypeScript) *)

Module Api.

Definition CACHE_TTL_MS : Z := 60000.
Definition CACHE_MAX_ENTRIES : nat := 5.

Definition trim : string -> string := Str.trim Str.isJsWhiteSpace.

(** [`${n}`] for a number holding an integer (plain decimal digits, a leading
    minus sign when negative). *)
Definition number_to_string (n : Z) : string :=
  NilEmpty.string_of_int (Z.to_int n).

(** [Array.prototype.sort()] without a comparator orders strings by code
    units. *)
Definition sort_strings (l : list string) : list string :=
  Seq.stable_sort String.leb l.

Inductive SortDir : Type := asc | desc.

Definition SortDir_to_string (d : SortDir) : string :=
  match d with asc => "asc" | desc => "desc" end.

(** Modelled from the spec: [models/inventory-search.models.ts] is not among
    the sources. [InventorySearchQuery] has the fields [cacheKey], [search]
    and [buildQuery] read and write; [branches] and [sort] may be absent;
    [ApiEnvelope] is the envelope { data, isFailed, message }. *)
Record SortSpec : Type := {
  field : string;
  direction : SortDir
}.

Record InventorySearchQuery : Type := {
  criteria : string;
  by_ : string;
  branches : option (list string);
  onlyAvailable : bool;
  page : Z;
  size : Z;
  sort : option SortSpec
}.

Record ApiEnvelope (T : Type) : Type := {
  data : option T;
  isFailed : bool;
  message : option string
}.
Arguments data {T} _.
Arguments isFailed {T} _.
Arguments message {T} _.

(** A cache entry; [obs] names the shared observable it holds. *)
Record CacheEntry : Type := {
  key : string;
  expiry : Z;
  obs : nat
}.

(** An array is an object: [ident] is its identity, which [===] compares. *)
Record array : Type := {
  ident : nat;
  elems : list CacheEntry
}.

(** The service's fields, with the supply of fresh array identities and of
    fresh observables. *)
Record Service : Type := {
  cache : array;
  peakCache : array;
  next_ident : nat;
  next_obs : nat
}.

Definition init : Service :=
  {| cache := {| ident := 0; elems := [] |};
     peakCache := {| ident := 1; elems := [] |};
     next_ident := 2;
     next_obs := 0 |}.

(** What a call hands back: the shared observable, and the upstream request
    it built when the key was not cached. *)
Record Call (R : Type) : Type := {
  returned : nat;
  upstream : option R
}.
Arguments returned {R} _.
Arguments upstream {R} _.

Section Service.
(** Case mappings of the JavaScript runtime. *)
Variable toLowerCase : string -> string.
Variable toUpperCase : string -> string.

(** The parts [cacheKey] joins, in order (lines 179-190). *)
Definition key_parts (q : InventorySearchQuery) : list string :=
  let criteria := toLowerCase (trim (criteria q)) in
  let by_ := by_ q in
  let branches :=
    Str.join "|"
      (sort_strings
         (map (fun b => toUpperCase (trim b))
              (match branches q with Some l => l | None => [] end))) in
  let available := if onlyAvailable q then "1" else "0" in
  let page := "p" +:+ number_to_string (page q) in
  let size := "s" +:+ number_to_string (size q) in
  let sort :=
    match sort q with
    | Some sp =>
        if String.eqb (field sp) "" then "nosort"
        else field sp +:+ ":" +:+ SortDir_to_string (direction sp)
    | None => "nosort"
    end in
  [criteria; by_; branches; available; page; size; sort].

Definition cacheKey (q : InventorySearchQuery) : string :=
  Str.join "::" (key_parts q).

(** The [HttpParams] of a search (lines 59-71). *)
Definition search_params (q : InventorySearchQuery) : list (string * string) :=
  let params :=
    [("criteria", trim (criteria q));
     ("by", by_ q);
     ("onlyAvailable", if onlyAvailable q then "true" else "false");
     ("page", number_to_string (page q));
     ("size", number_to_string (size q))] in
  let params :=
    match branches q with
    | Some (b :: bs) => params ++ [("branches", Str.join "," (b :: bs))]
    | _ => params
    end in
  match sort q with
  | Some sp =>
      if String.eqb (field sp) "" then params
      else params ++
           [("sort", field sp +:+ ":" +:+ SortDir_to_string (direction sp))]
  | None => params
  end.

(** *** The spec's words, to compare the key with *)

(** The branch codes as the key sees them: normalized and sorted. *)
Definition normalized_branches (q : InventorySearchQuery) : list string :=
  sort_strings
    (map (fun b => toUpperCase (trim b))
         (match branches q with Some l => l | None => [] end)).

(** The sort a query asks for: none when [sort] or its field is missing. *)
Definition effective_sort (q : InventorySearchQuery) : option SortSpec :=
  match sort q with
  | Some sp => if String.eqb (field sp) "" then None else Some sp
  | None => None
  end.

(** What two semantically identical queries have in common. *)
Definition normalized (q : InventorySearchQuery)
    : string * string * list string * bool * Z * Z * option SortSpec :=
  (toLowerCase (trim (criteria q)), by_ q, normalized_branches q,
   onlyAvailable q, page q, size q, effective_sort q).

(** No component holds a delimiter of the key: no colon in the normalized
    criteria, in [by], in a branch code or in the sort field; no bar in a
    branch code, and no empty branch code. *)
Definition delimiter_free (q : InventorySearchQuery) : Prop :=
  Str.has_char ":" (toLowerCase (trim (criteria q))) = false /\
  Str.has_char ":" (by_ q) = false /\
  Forall (fun b => b <> "" /\ Str.has_char ":" b = false
                   /\ Str.has_char "|" b = false)
         (normalized_branches q) /\
  match effective_sort q with
  | Some sp => Str.has_char ":" (field sp) = false
  | None => True
  end.

(** The query [q] spelled differently: white space [w1] and [w2] around its
    criteria, its branches given as [bs]. *)
Definition respelled (q : InventorySearchQuery) (w1 w2 : string)
    (bs : list string) : InventorySearchQuery :=
  {| criteria := w1 +:+ criteria q +:+ w2;
     by_ := by_ q;
     branches := Some bs;
     onlyAvailable := onlyAvailable q;
     page := page q;
     size := size q;
     sort := sort q |}.

(** [while (next.length > CACHE_MAX_ENTRIES) next.shift()]. *)
Fixpoint shift_excess (next : list CacheEntry) : list CacheEntry :=
  match next with
  | [] => []
  | _ :: next' =>
      if (CACHE_MAX_ENTRIES <? length next)%nat then shift_excess next'
      else next
  end.

(** [cache.filter(c => c.expiry > Date.now())] (line 148): the callback reads
    the clock once for every entry; [clock i] is its reading at the entry of
    index [i]. *)
Fixpoint sweep (clock : nat -> Z) (i : nat) (entries : list CacheEntry)
    : list CacheEntry :=
  match entries with
  | [] => []
  | c :: entries' =>
      if clock i <? expiry c then c :: sweep clock (S i) entries'
      else sweep clock (S i) entries'
  end.

(** The entries [remember] ends with (lines 146-159); [now1] is its reading
    of [Date.now()] at line 146 and [now2] the readings of line 148, one for
    each entry. *)
Definition remembered (entries : list CacheEntry) (k : string) (o : nat)
    (now1 : Z) (now2 : nat -> Z) : list CacheEntry :=
  let expiry_ := now1 + CACHE_TTL_MS in
  let next := sweep now2 0 entries in
  let next :=
    if (CACHE_MAX_ENTRIES <=? length next)%nat then
      drop (length next - CACHE_MAX_ENTRIES + 1)
           (Seq.stable_sort (fun a b => expiry a - expiry b <=? 0) next)
    else next in
  let next := next ++ [{| key := k; expiry := expiry_; obs := o |}] in
  shift_excess next.

(** [remember]: the result is a new array, assigned to the field whose array
    the argument is (lines 161-165). *)
Definition remember (s : Service) (arg : array) (k : string) (o : nat)
    (now1 : Z) (now2 : nat -> Z) : Service :=
  let next := {| ident := next_ident s;
                 elems := remembered (elems arg) k o now1 now2 |} in
  if Nat.eqb (ident arg) (ident (cache s)) then
    {| cache := next; peakCache := peakCache s;
       next_ident := S (next_ident s); next_obs := next_obs s |}
  else
    {| cache := cache s; peakCache := next;
       next_ident := S (next_ident s); next_obs := next_obs s |}.

(** [search] (lines 51-89); [now] is the reading at line 52. *)
Definition search (q : InventorySearchQuery) (now now1 : Z)
    (now2 : nat -> Z) (s : Service)
    : Call (list (string * string)) * Service :=
  let k := cacheKey q in
  let s :=
    {| cache := {| ident := next_ident s;
                   elems := List.filter (fun e => now <? expiry e)
                                        (elems (cache s)) |};
       peakCache := peakCache s;
       next_ident := S (next_ident s);
       next_obs := next_obs s |} in
  match List.find (fun e => String.eqb (key e) k) (elems (cache s)) with
  | Some hit => ({| returned := obs hit; upstream := None |}, s)
  | None =>
      let o := next_obs s in
      let s := {| cache := cache s; peakCache := peakCache s;
                  next_ident := next_ident s; next_obs := S o |} in
      ({| returned := o; upstream := Some (search_params q) |},
       remember s (cache s) k o now1 now2)
  end.

(** The [tap] of [search] (lines 77-82), run when the response arrives as a
    value. It has no handler for an error: a request that ends in one (any
    status but 2xx) leaves the service as it is. *)
Definition search_tap {T} (k : string) (res : ApiEnvelope T) (s : Service)
    : Service :=
  if isFailed res then
    {| cache := {| ident := next_ident s;
                   elems := List.filter (fun e => negb (String.eqb (key e) k))
                                        (elems (cache s)) |};
       peakCache := peakCache s;
       next_ident := S (next_ident s);
       next_obs := next_obs s |}
  else s.

Definition peak_key (partNumber : string) : string :=
  "peak:" +:+ toUpperCase (trim partNumber).

(** [getPeakAvailability] (lines 104-129). *)
Definition getPeakAvailability (partNumber : string) (now now1 : Z)
    (now2 : nat -> Z) (s : Service)
    : Call (list (string * string)) * Service :=
  let k := peak_key partNumber in
  let s :=
    {| cache := cache s;
       peakCache := {| ident := next_ident s;
                       elems := List.filter (fun e => now <? expiry e)
                                            (elems (peakCache s)) |};
       next_ident := S (next_ident s);
       next_obs := next_obs s |} in
  match List.find (fun e => String.eqb (key e) k) (elems (peakCache s)) with
  | Some hit => ({| returned := obs hit; upstream := None |}, s)
  | None =>
      let o := next_obs s in
      let s := {| cache := cache s; peakCache := peakCache s;
                  next_ident := next_ident s; next_obs := S o |} in
      ({| returned := o; upstream := Some [("partNumber", trim partNumber)] |},
       remember s (peakCache s) k o now1 now2)
  end.

(** The [tap] of [getPeakAvailability] (lines 118-122). *)
Definition peak_tap {T} (k : string) (res : ApiEnvelope T) (s : Service)
    : Service :=
  if isFailed res then
    {| cache := cache s;
       peakCache := {| ident := next_ident s;
                       elems := List.filter (fun e => negb (String.eqb (key e) k))
                                            (elems (peakCache s)) |};
       next_ident := S (next_ident s);
       next_obs := next_obs s |}
  else s.

(** Everything that can happen to the service. *)
Inductive op : Type :=
| OpSearch (q : InventorySearchQuery) (now now1 : Z) (now2 : nat -> Z)
| OpPeak (partNumber : string) (now now1 : Z) (now2 : nat -> Z)
| OpSearchResponse (k : string) (failed : bool)
| OpPeakResponse (k : string) (failed : bool)
| OpSearchError (k : string)
| OpPeakError (k : string).

Definition response (failed : bool) : ApiEnvelope unit :=
  {| data := if failed then None else Some tt;
     isFailed := failed;
     message := if failed then Some "failed" else None |}.

Definition step (s : Service) (o : op) : Service :=
  match o with
  | OpSearch q now now1 now2 => snd (search q now now1 now2 s)
  | OpPeak pn now now1 now2 => snd (getPeakAvailability pn now now1 now2 s)
  | OpSearchResponse k failed => search_tap k (response failed) s
  | OpPeakResponse k failed => peak_tap k (response failed) s
  | OpSearchError _ => s
  | OpPeakError _ => s
  end.

Definition run (ops : list op) : Service := fold_left step ops init.

End Service.

(** What every reachable state satisfies: both caches within capacity, and
    the search cache an array older than any array still to be built. *)
Definition invariant (s : Service) : Prop :=
  (length (elems (cache s)) <= CACHE_MAX_ENTRIES)%nat /\
  (length (elems (peakCache s)) <= CACHE_MAX_ENTRIES)%nat /\
  (ident (cache s) < next_ident s)%nat.

End Api.

(** ** The search orchestrator ([IndexPageComponent], TypeScript) *)

Module Page.
Import Api.

(** Modelled from the spec: [PagedInventoryResponse] of
    [models/inventory-search.models.ts] (not among the sources), the payload
    { total, items } of a search. *)
Record PagedInventoryResponse (Item : Type) : Type := {
  total : Z;
  items : list Item
}.
Arguments total {Item} _.
Arguments items {Item} _.

(** The value of the reactive form. *)
Record FormValue : Type := {
  form_criteria : string;
  form_by : string;
  form_branches : list string;
  form_onlyAvailable : bool
}.

Section Component.
Variable Item : Type.
Variable toUpperCase : string -> string.
(** [_debounce], in milliseconds. *)
Variable debounce : Z.

(** The component's fields and the state of its pipeline: whether the debounce
    timer is armed, the inner subscription [switchMap] holds, and the queries
    handed to [api.search] so far (a subscription is named by the position of
    its query). *)
Record Component : Type := {
  form : FormValue;
  loading : bool;
  items_ : list Item;
  total_ : Z;
  errorMessage : option string;
  currentPage : Z;
  sortState : SortSpec;
  page_ : Z;
  timer : bool;
  inner : option nat;
  issued : list InventorySearchQuery
}.

Definition pageSize : Z := 20.

(** [Validators.required] on [criteria] and [by]. *)
Definition form_invalid (v : FormValue) : bool :=
  String.eqb (form_criteria v) "" || String.eqb (form_by v) "".

(** [buildQuery] (lines 214-234); [None] is its [null]. *)
Definition buildQuery (c : Component) : option InventorySearchQuery :=
  let value := form c in
  if String.eqb (form_criteria value) "" || form_invalid value then None
  else
    Some {| criteria := Api.trim (form_criteria value);
            by_ := if String.eqb (form_by value) "" then "PartNumber"
                   else form_by value;
            branches := Some (map toUpperCase (form_branches value));
            onlyAvailable := form_onlyAvailable value;
            page := page_ c;
            size := pageSize;
            sort := if String.eqb (field (sortState c)) "" then None
                    else Some (sortState c) |}.

(** What runs once a value is past the debounce (lines 102-121): the query is
    built and filtered, [tap] asserts loading, and [switchMap] unsubscribes
    from the previous inner observable (whose [finalize] then clears loading)
    before it subscribes to the new one. *)
Definition process (c : Component) : Component :=
  match buildQuery c with
  | None => c
  | Some q =>
      {| form := form c;
         loading := match inner c with Some _ => false | None => true end;
         items_ := items_ c;
         total_ := total_ c;
         errorMessage := None;
         currentPage := currentPage c;
         sortState := sortState c;
         page_ := page_ c;
         timer := timer c;
         inner := Some (length (issued c));
         issued := issued c ++ [q] |}
  end.

(** One value entering [merge]: debounced when [_debounce > 0] (line 100). *)
Definition emit (c : Component) : Component :=
  if 0 <? debounce then
    {| form := form c; loading := loading c; items_ := items_ c;
       total_ := total_ c; errorMessage := errorMessage c;
       currentPage := currentPage c; sortState := sortState c;
       page_ := page_ c; timer := true; inner := inner c;
       issued := issued c |}
  else process c.

(** The debounce window elapses. *)
Definition debounce_elapsed (c : Component) : Component :=
  if timer c then
    process
      {| form := form c; loading := loading c; items_ := items_ c;
         total_ := total_ c; errorMessage := errorMessage c;
         currentPage := currentPage c; sortState := sortState c;
         page_ := page_ c; timer := false; inner := inner c;
         issued := issued c |}
  else c.

(** The inner observable of subscription [sub] emits [res] and completes
    (lines 112-119 and 127-136). A subscription [switchMap] has dropped
    receives nothing. *)
Definition respond (sub : nat)
    (res : ApiEnvelope (PagedInventoryResponse Item)) (c : Component)
    : Component :=
  match inner c with
  | Some cur =>
      if Nat.eqb cur sub then
        {| form := form c;
           loading := false;
           items_ := if isFailed res then []
                     else match data res with
                          | Some d => items d
                          | None => []
                          end;
           total_ := if isFailed res then 0
                     else match data res with
                          | Some d => total d
                          | None => 0
                          end;
           errorMessage :=
             if isFailed res then
               Some (match message res with
                     | Some m => if String.eqb m "" then "Search failed" else m
                     | None => "Search failed"
                     end)
             else None;
           currentPage := currentPage c;
           sortState := sortState c;
           page_ := page_ c;
           timer := timer c;
           inner := None;
           issued := issued c |}
      else c
  | None => c
  end.

Definition with_page (c : Component) (cur p : Z) : Component :=
  {| form := form c; loading := loading c; items_ := items_ c;
     total_ := total_ c; errorMessage := errorMessage c;
     currentPage := cur; sortState := sortState c;
     page_ := p; timer := timer c; inner := inner c; issued := issued c |}.

(** [onSearch] (lines 147-160). *)
Definition onSearch (c : Component) : Component :=
  if form_invalid (form c) then
    {| form := form c; loading := loading c; items_ := items_ c;
       total_ := total_ c;
       errorMessage := Some "Enter search criteria to begin.";
       currentPage := currentPage c; sortState := sortState c;
       page_ := page_ c; timer := timer c; inner := inner c;
       issued := issued c |}
  else
    let c :=
      {| form := form c; loading := true; items_ := items_ c;
         total_ := total_ c; errorMessage := None;
         currentPage := 0; sortState := sortState c;
         page_ := page_ c; timer := timer c; inner := inner c;
         issued := issued c |} in
    let c := if page_ c =? 0 then c else emit (with_page c 0 0) in
    emit c.

(** [onSort] (lines 167-174). *)
Definition onSort (fld : string) (c : Component) : Component :=
  let current := sortState c in
  let dir :=
    if String.eqb (field current) fld then
      match direction current with asc => desc | desc => asc end
    else asc in
  let c :=
    emit
      {| form := form c; loading := loading c; items_ := items_ c;
         total_ := total_ c; errorMessage := errorMessage c;
         currentPage := currentPage c;
         sortState := {| field := fld; direction := dir |};
         page_ := page_ c; timer := timer c; inner := inner c;
         issued := issued c |} in
  emit (with_page c 0 0).

(** [onPageChange] (lines 176-179). *)
Definition onPageChange (pageIndex : Z) (c : Component) : Component :=
  let cur := Z.max 0 pageIndex in
  emit (with_page c cur cur).

Definition edit_form (v : FormValue) (c : Component) : Component :=
  {| form := v; loading := loading c; items_ := items_ c;
     total_ := total_ c; errorMessage := errorMessage c;
     currentPage := currentPage c; sortState := sortState c;
     page_ := page_ c; timer := timer c; inner := inner c;
     issued := issued c |}.

(** The component once [ngOnInit] has subscribed: the two [BehaviorSubject]s
    have each emitted their initial value into an empty form. *)
Definition initial : Component :=
  emit (emit
    {| form := {| form_criteria := ""; form_by := "PartNumber";
                  form_branches := []; form_onlyAvailable := false |};
       loading := false; items_ := []; total_ := 0; errorMessage := None;
       currentPage := 0;
       sortState := {| field := ""; direction := asc |};
       page_ := 0; timer := false; inner := None; issued := [] |}).

(** What reaches the component while its pipeline lives; the failure of a
    request, which ends the pipeline, is a [notice] further down. *)
Inductive event : Type :=
| EditForm (v : FormValue)
| OnSearch
| OnSort (fld : string)
| OnPageChange (pageIndex : Z)
| DebounceElapsed
| Response (sub : nat) (res : ApiEnvelope (PagedInventoryResponse Item)).

Definition step (c : Component) (e : event) : Component :=
  match e with
  | EditForm v => edit_form v c
  | OnSearch => onSearch c
  | OnSort fld => onSort fld c
  | OnPageChange p => onPageChange p c
  | DebounceElapsed => debounce_elapsed c
  | Response sub res => respond sub res c
  end.

Definition run (c : Component) (es : list event) : Component :=
  fold_left step es c.

(** What the page shows of a search. *)
Definition published (c : Component) : list Item * Z * option string :=
  (items_ c, total_ c, errorMessage c).

(** *** A request that ends in an error *)

(** The component with the fate of its pipeline. The inner observable of
    [switchMap] has no [catchError]: when it fails, the error passes through
    [switchMap] and [shareReplay] to the two subscribers of lines 127-136,
    which have no error handler, and the subscriptions [ngOnInit] made end
    with it. *)
Record Subscribed : Type := {
  component : Component;
  ended : bool
}.

Definition subscribed : Subscribed :=
  {| component := initial; ended := false |}.

(** The inner observable of subscription [sub] fails: its [tap] (lines
    113-119) and the two maps see no value, [finalize] (line 120) clears
    loading, and the pipeline, a pending debounce included, is torn down. An
    observable [switchMap] has dropped is not listened to. *)
Definition fail (sub : nat) (s : Subscribed) : Subscribed :=
  let c := component s in
  if ended s then s
  else
    match inner c with
    | Some cur =>
        if Nat.eqb cur sub then
          {| component :=
               {| form := form c; loading := false; items_ := items_ c;
                  total_ := total_ c; errorMessage := errorMessage c;
                  currentPage := currentPage c; sortState := sortState c;
                  page_ := page_ c; timer := false; inner := None;
                  issued := issued c |};
             ended := true |}
        else s
    | None => s
    end.

(** The handlers once the pipeline has ended: [next] on a subject nobody
    observes only stores the value. [onSearch] (lines 147-160): *)
Definition onSearch_unheard (c : Component) : Component :=
  if form_invalid (form c) then
    {| form := form c; loading := loading c; items_ := items_ c;
       total_ := total_ c;
       errorMessage := Some "Enter search criteria to begin.";
       currentPage := currentPage c; sortState := sortState c;
       page_ := page_ c; timer := timer c; inner := inner c;
       issued := issued c |}
  else
    {| form := form c; loading := true; items_ := items_ c;
       total_ := total_ c; errorMessage := None;
       currentPage := 0; sortState := sortState c;
       page_ := 0; timer := timer c; inner := inner c;
       issued := issued c |}.

(** [onSort] (lines 167-174). *)
Definition onSort_unheard (fld : string) (c : Component) : Component :=
  let current := sortState c in
  let dir :=
    if String.eqb (field current) fld then
      match direction current with asc => desc | desc => asc end
    else asc in
  {| form := form c; loading := loading c; items_ := items_ c;
     total_ := total_ c; errorMessage := errorMessage c;
     currentPage := 0;
     sortState := {| field := fld; direction := dir |};
     page_ := 0; timer := timer c; inner := inner c;
     issued := issued c |}.

(** [onPageChange] (lines 176-179). *)
Definition onPageChange_unheard (pageIndex : Z) (c : Component) : Component :=
  let cur := Z.max 0 pageIndex in
  with_page c cur cur.

Definition step_unheard (c : Component) (e : event) : Component :=
  match e with
  | EditForm v => edit_form v c
  | OnSearch => onSearch_unheard c
  | OnSort fld => onSort_unheard fld c
  | OnPageChange p => onPageChange_unheard p c
  | DebounceElapsed => c
  | Response _ _ => c
  end.

(** Everything that can reach the component: the events of a live pipeline,
    and the failure of a request. *)
Inductive notice : Type :=
| Event (e : event)
| ResponseError (sub : nat).

Definition deliver (s : Subscribed) (n : notice) : Subscribed :=
  match n with
  | Event e =>
      if ended s then
        {| component := step_unheard (component s) e; ended := true |}
      else {| component := step (component s) e; ended := false |}
  | ResponseError sub => fail sub s
  end.

Definition deliver_all (s : Subscribed) (ns : list notice) : Subscribed :=
  fold_left deliver ns s.

End Component.

End Page.

(** ** Concrete data for the examples *)

Module Examples.
Import CSharp Inventory.

Definition item (partNumber description branch : string) (qty : Z)
    : InventoryItem :=
  {| PartNumber := Some partNumber;
     SupplierSku := Some "SUP-5000";
     Description := Some description;
     Branch := Some branch;
     AvailableQty := qty;
     Uom := Some "EA";
     LeadTimeDays := None;
     LastPurchaseDate := None;
     Lots := [] |}.

Definition request (criteria by_ : string) (page size : Z)
    : InventorySearchRequest :=
  {| Criteria := Some criteria;
     By := Some by_;
     Branches := Some "";
     OnlyAvailable := false;
     Page := page;
     Size := size;
     Sort := Some "" |}.

(** The service on ASCII data. *)
Definition search : option InventorySearchRequest -> list InventoryItem ->
    outcome SearchResult :=
  SearchInventoryAsync Str.ascii_upper Str.ascii_lower String.compare.

Definition peak : list InventoryItem -> option string ->
    outcome AvailabilityResult :=
  GetPeakAvailabilityAsync Str.ascii_upper.

Definition stock : list InventoryItem :=
  [item "PN-1000" "Mock part 0 - standard" "SEA" 5;
   item "PN-1001" "Mock part 1 - premium" "PDX" 7;
   item "PN-1001" "Mock part 1 - standard" "SFO" 0].

End Examples.

Module CacheExamples.
Import Api.

Definition query (criteria_ : string) : InventorySearchQuery :=
  {| criteria := criteria_;
     by_ := "PartNumber";
     branches := Some [];
     onlyAvailable := false;
     page := 0;
     size := 20;
     sort := None |}.

(** The service on ASCII data. *)
Definition key_of : InventorySearchQuery -> string :=
  cacheKey Str.ascii_lower Str.ascii_upper.

Definition search_at (q : InventorySearchQuery) (now : Z) (s : Service)
    : Call (list (string * string)) * Service :=
  search Str.ascii_lower Str.ascii_upper q now now (fun _ => now) s.

Definition peak_at (partNumber : string) (now : Z) (s : Service)
    : Call (list (string * string)) * Service :=
  getPeakAvailability Str.ascii_upper partNumber now now (fun _ => now) s.

(** Five searches with distinct criteria, one millisecond apart. *)
Definition at_ (now : Z) : nat -> Z := fun _ => now.

Definition five_searches : list op :=
  [OpSearch (query "a") 0 0 (at_ 0); OpSearch (query "b") 1 1 (at_ 1);
   OpSearch (query "c") 2 2 (at_ 2); OpSearch (query "d") 3 3 (at_ 3);
   OpSearch (query "e") 4 4 (at_ 4)].

(** Five peak lookups of distinct parts, one millisecond apart. *)
Definition five_lookups : list op :=
  [OpPeak "PN-1000" 0 0 (at_ 0); OpPeak "PN-1001" 1 1 (at_ 1);
   OpPeak "PN-1002" 2 2 (at_ 2); OpPeak "PN-1003" 3 3 (at_ 3);
   OpPeak "PN-1004" 4 4 (at_ 4)].

Definition five_looked_up : Service :=
  run Str.ascii_lower Str.ascii_upper five_lookups.

(** Three entries, of which a clock that moves on during the sweep of
    [remember] drops the second only. *)
Definition three_entries : list CacheEntry :=
  [{| key := "a"; expiry := 10; obs := 0 |};
   {| key := "b"; expiry := 20; obs := 1 |};
   {| key := "c"; expiry := 30; obs := 2 |}].

Definition moving_clock (i : nat) : Z :=
  match i with O => 5 | _ => 25 end.

Definition three_cached : Service :=
  {| cache := {| ident := 0; elems := three_entries |};
     peakCache := {| ident := 1; elems := [] |};
     next_ident := 2;
     next_obs := 3 |}.

(** What happens between two searches for the same thing: a peak lookup,
    another search, and a request that ends in an error. *)
Definition meanwhile : list op :=
  [OpPeak "PN-1000" 1 1 (at_ 1); OpSearch (query "b") 2 2 (at_ 2);
   OpSearchError (key_of (query "b"))].

Definition five_cached : Service :=
  run Str.ascii_lower Str.ascii_upper five_searches.

Definition failure : ApiEnvelope unit :=
  {| data := None; isFailed := true; message := Some "boom" |}.

(** Two queries that differ in their branch sets only. *)
Definition one_odd_branch : InventorySearchQuery :=
  {| criteria := "pn"; by_ := "PartNumber"; branches := Some ["A|B"];
     onlyAvailable := false; page := 0; size := 20; sort := None |}.

Definition two_branches : InventorySearchQuery :=
  {| criteria := "pn"; by_ := "PartNumber"; branches := Some ["A"; "B"];
     onlyAvailable := false; page := 0; size := 20; sort := None |}.

Definition second_page (q : InventorySearchQuery) : InventorySearchQuery :=
  {| criteria := criteria q; by_ := by_ q; branches := branches q;
     onlyAvailable := onlyAvailable q; page := 1; size := size q;
     sort := sort q |}.

End CacheExamples.

Module PageExamples.
Import Api Page.

Definition valid_form : FormValue :=
  {| form_criteria := "PN-1000"; form_by := "PartNumber";
     form_branches := []; form_onlyAvailable := false |}.

(** The component with the default debounce of 50 ms, showing part numbers. *)
Definition run50 : list (event string) -> Component string :=
  run string Str.ascii_upper 50 (initial string Str.ascii_upper 50).

Definition found : ApiEnvelope (PagedInventoryResponse string) :=
  {| data := Some {| total := 1; items := ["PN-1000"] |};
     isFailed := false;
     message := None |}.

Definition failed : ApiEnvelope (PagedInventoryResponse string) :=
  {| data := None; isFailed := true; message := Some "Forced failure" |}.

(** A search is issued (request 0). *)
Definition searching : list (event string) :=
  [EditForm string valid_form; OnSearch string; DebounceElapsed string].

(** A page change arrives while request 0 is outstanding, and the response to
    request 0 arrives within the debounce window. *)
Definition overtaken : list (event string) :=
  searching ++ [OnPageChange string 1; Response string 0 found].

(** Request 0 succeeds; a second search (request 1) is issued. *)
Definition searching_again : list (event string) :=
  searching ++ [Response string 0 found; OnSearch string;
                DebounceElapsed string].

(** The same, delivered to the subscribed component; then request 1 ends in
    an error, and the user searches once more. *)
Definition deliver50 : list (notice string) -> Subscribed string :=
  deliver_all string Str.ascii_upper 50 (subscribed string Str.ascii_upper 50).

Definition second_request_errors : list (notice string) :=
  map (Event string) searching_again ++ [ResponseError string 1].

Definition search_after_error : list (notice string) :=
  second_request_errors ++ [Event string (OnSearch string);
                            Event string (DebounceElapsed string)].

End PageExamples.

(** ** More of the inventory service and its controller *)

Module InventoryMore.
Import CSharp Inventory.

(** The same request with another sort string, another branch list. *)
Definition set_sort (request : InventorySearchRequest) (sort : option string)
    : InventorySearchRequest :=
  {| Criteria := Criteria request;
     By := By request;
     Branches := Branches request;
     OnlyAvailable := OnlyAvailable request;
     Page := Page request;
     Size := Size request;
     Sort := sort |}.

Definition set_branches (request : InventorySearchRequest)
    (branches : option string) : InventorySearchRequest :=
  {| Criteria := Criteria request;
     By := By request;
     Branches := branches;
     OnlyAvailable := OnlyAvailable request;
     Page := Page request;
     Size := Size request;
     Sort := Sort request |}.

Section Service.
Variable ToUpperInvariant : string -> string.

(** The branch codes a request asks for, as the service compares them
    (lines 42-45). *)
Definition requested_codes (request : InventorySearchRequest) : list string :=
  map ToUpperInvariant (split_entries (coalesce (Branches request) "")).

(** [InventoryController.GetPeakAvailability] (lines 61-79): status code and
    payload. *)
Definition controller_GetPeakAvailability (_items : list InventoryItem)
    (partNumber : option string) : Z * option AvailabilityResult :=
  if IsNullOrWhiteSpace partNumber then (400, None)
  else
    match GetPeakAvailabilityAsync ToUpperInvariant _items partNumber with
    | Ok result => (200, Some result)
    | Throw _ => (500, None)
    end.

End Service.

(** Records with lead times, for the examples. *)
Definition with_lead (i : InventoryItem) (lead : option Z) : InventoryItem :=
  {| PartNumber := PartNumber i;
     SupplierSku := SupplierSku i;
     Description := Description i;
     Branch := Branch i;
     AvailableQty := AvailableQty i;
     Uom := Uom i;
     LeadTimeDays := lead;
     LastPurchaseDate := LastPurchaseDate i;
     Lots := Lots i |}.

Definition shelf : list InventoryItem :=
  [with_lead (Examples.item "PN-1000" "Mock part 0 - standard" "SEA" 5) None;
   with_lead (Examples.item "PN-1001" "Mock part 1 - premium" "PDX" 7) (Some 12);
   with_lead (Examples.item "PN-1001" "Mock part 1 - standard" "sfo" 0) (Some 3);
   with_lead (Examples.item "PN-1002" "Mock part 2 - premium" "SEA" 7) None].

Definition sorted_request (sort : string) (page size : Z)
    : InventorySearchRequest :=
  set_sort (Examples.request "pn-" "PartNumber" page size) (Some sort).

End InventoryMore.

(** ** More of the search page: the branch selector *)

Module PageMore.
Import Api Page.

(** A JavaScript [Set] of strings, as the list of its members in insertion
    order. *)
Definition Set_has (b : string) (s : list string) : bool :=
  existsb (String.eqb b) s.

Definition Set_add (b : string) (s : list string) : list string :=
  if Set_has b s then s else s ++ [b].

Definition Set_delete (b : string) (s : list string) : list string :=
  List.filter (fun x => negb (String.eqb x b)) s.

(** [new Set(array)]. *)
Definition Set_from (l : list string) : list string :=
  fold_left (fun s b => Set_add b s) l [].

Section Component.
Variable Item : Type.
Variable toUpperCase : string -> string.
Variable debounce : Z.

(** [this.form.patchValue({ branches })]. *)
Definition patch_branches (bs : list string) (c : Component Item)
    : Component Item :=
  edit_form Item
    {| form_criteria := form_criteria (form Item c);
       form_by := form_by (form Item c);
       form_branches := bs;
       form_onlyAvailable := form_onlyAvailable (form Item c) |}
    c.

(** [onBranchesChange] (lines 182-187). *)
Definition onBranchesChange (branch : string) (checked : bool)
    (c : Component Item) : Component Item :=
  let current := Set_from (form_branches (form Item c)) in
  let current :=
    if checked then Set_add branch current else Set_delete branch current in
  patch_branches current c.

(** [onBranchSelect] (lines 193-198). *)
Definition onBranchSelect (branch : string) (c : Component Item)
    : Component Item :=
  let current := Set_from (form_branches (form Item c)) in
  let current :=
    if Set_has branch current then Set_delete branch current
    else Set_add branch current in
  patch_branches current c.

(** Everything the user and the pipeline can do to the page. *)
Inductive input : Type :=
| Pipeline (e : event Item)
| BranchesChange (branch : string) (checked : bool)
| BranchSelect (branch : string).

Definition act (c : Component Item) (i : input) : Component Item :=
  match i with
  | Pipeline e => step Item toUpperCase debounce c e
  | BranchesChange branch checked => onBranchesChange branch checked c
  | BranchSelect branch => onBranchSelect branch c
  end.

Definition play (inputs : list input) : Component Item :=
  fold_left act inputs (initial Item toUpperCase debounce).

(** How many times the debounce window has elapsed. *)
Definition elapsed (inputs : list input) : nat :=
  length (List.filter (fun i => match i with
                                | Pipeline (DebounceElapsed _) => true
                                | _ => false
                                end) inputs).

End Component.

End PageMore.

Module PageMoreExamples.
Import Api Page PageMore.

(** The page with the default debounce of 50 ms. *)
Definition play50 : list (input string) -> Component string :=
  play string Str.ascii_upper 50.

(** A search, a sort and a page change within one debounce window. *)
Definition burst : list (input string) :=
  [Pipeline string (EditForm string PageExamples.valid_form);
   BranchSelect string "SEA";
   Pipeline string (OnSearch string);
   Pipeline string (OnSort string "description");
   Pipeline string (OnPageChange string 2);
   Pipeline string (DebounceElapsed string)].

End PageMoreExamples.

(** ** The results table ([ResultsTableComponent], TypeScript) *)

Module Table.
Import Api.

(** Modelled from the spec: the [InventoryItem] and [PeakAvailability]
    interfaces of [models/inventory-search.models.ts] are not among the
    sources. Of an item the table reads the part number and the branch; the
    payload of a peak lookup is opaque to it. Numbers are integers in the
    range where [Math.ceil(a / b)] is the exact ceiling of the quotient. *)
Record Row : Type := {
  partNumber : string;
  branch : string
}.

Inductive Tab : Type := lots | peak.

(** [Math.ceil(a / b)] on integers, [b] not 0. *)
Definition ceil_div (a b : Z) : Z := - ((- a) / b).

(** [totalPages] (lines 115-117): [total ?? 0] and [size || 1]. *)
Definition totalPages (total : option Z) (size : Z) : Z :=
  Z.max 1 (ceil_div (match total with Some t => t | None => 0 end)
                    (if size =? 0 then 1 else size)).

(** [rowKey] (lines 126-128). *)
Definition rowKey (item : Row) : string :=
  partNumber item +:+ "_" +:+ branch item.

Section Component.
Variable Peak : Type.

(** The component's fields; [requests] lists the peak lookups handed to the
    service, each with its part number and whether its subscription has
    ended. The objects used as maps are finite maps: keys that name a
    property of [Object.prototype] are left out. *)
Record Table : Type := {
  total : option Z;
  pageSize : Z;
  pageIndex : Z;
  expanded : gmap string bool;
  selectedTab : gmap string Tab;
  peakLoading : gmap string bool;
  peakByPart : gmap string (option Peak);
  errorMessage : option string;
  currentSort : option SortSpec;
  requests : list (string * bool)
}.

Definition initial : Table :=
  {| total := Some 0; pageSize := 20; pageIndex := 0;
     expanded := ∅; selectedTab := ∅; peakLoading := ∅; peakByPart := ∅;
     errorMessage := None; currentSort := None; requests := [] |}.

(** An object property read as a condition: missing counts as false. *)
Definition truthy (m : gmap string bool) (k : string) : bool :=
  match m !! k with Some b => b | None => false end.

(** [onHeaderClick] (lines 52-64): the new state and the field it emits. *)
Definition onHeaderClick (fld : string) (t : Table) : Table * string :=
  let sort' :=
    match currentSort t with
    | Some cur =>
        if String.eqb (field cur) fld then
          {| field := fld;
             direction := match direction cur with asc => desc | desc => asc end |}
        else {| field := fld; direction := asc |}
    | None => {| field := fld; direction := asc |}
    end in
  ({| total := total t; pageSize := pageSize t; pageIndex := 0;
      expanded := expanded t; selectedTab := selectedTab t;
      peakLoading := peakLoading t; peakByPart := peakByPart t;
      errorMessage := errorMessage t; currentSort := Some sort';
      requests := requests t |},
   fld).

(** [toggleExpand] (lines 66-73). *)
Definition toggleExpand (item : Row) (t : Table) : Table :=
  let k := rowKey item in
  let expanded' := <[k := negb (truthy (expanded t) k)]> (expanded t) in
  let selected' :=
    if truthy expanded' k then
      match selectedTab t !! k with
      | Some _ => selectedTab t
      | None => <[k := lots]> (selectedTab t)
      end
    else selectedTab t in
  {| total := total t; pageSize := pageSize t; pageIndex := pageIndex t;
     expanded := expanded'; selectedTab := selected';
     peakLoading := peakLoading t; peakByPart := peakByPart t;
     errorMessage := errorMessage t; currentSort := currentSort t;
     requests := requests t |}.

(** [fetchPeakAvailability] (lines 77-105) up to the subscription. *)
Definition fetchPeakAvailability (item : Row) (t : Table) : Table :=
  let k := partNumber item in
  if truthy (peakLoading t) k then t
  else
    {| total := total t; pageSize := pageSize t; pageIndex := pageIndex t;
       expanded := expanded t; selectedTab := selectedTab t;
       peakLoading := <[k := true]> (peakLoading t);
       peakByPart := peakByPart t;
       errorMessage := None; currentSort := currentSort t;
       requests := requests t ++ [(k, false)] |}.

(** What ends subscription [n]: [finalize] clears the loading flag of its
    part. *)
Definition finish (n : nat) (k : string) (stored : option Peak)
    (message : option string) (t : Table) : Table :=
  {| total := total t; pageSize := pageSize t; pageIndex := pageIndex t;
     expanded := expanded t; selectedTab := selectedTab t;
     peakLoading := <[k := false]> (peakLoading t);
     peakByPart := <[k := stored]> (peakByPart t);
     errorMessage := message; currentSort := currentSort t;
     requests := <[n := (k, true)]> (requests t) |}.

(** The observable of lookup [n] emits [res] and completes (the [next]
    handler, lines 89-98, then [finalize], lines 84-87). *)
Definition peak_next (n : nat) (res : ApiEnvelope Peak) (t : Table) : Table :=
  match requests t !! n with
  | Some (k, false) =>
      match isFailed res, data res with
      | false, Some d => finish n k (Some d) (errorMessage t) t
      | _, _ =>
          finish n k None
            (Some ("Failed to load peak availability" +:+
                   match message res with
                   | Some m => if String.eqb m "" then "" else ": " +:+ m
                   | None => ""
                   end))
            t
      end
  | _ => t
  end.

(** The observable of lookup [n] fails (the [error] handler, lines 99-103,
    then [finalize]). *)
Definition peak_error (n : nat) (t : Table) : Table :=
  match requests t !! n with
  | Some (k, false) =>
      finish n k None (Some "Failed to load peak availability") t
  | _ => t
  end.

(** [selectTab] (lines 107-113). *)
Definition selectTab (item : Row) (tab : Tab) (t : Table) : Table :=
  let k := rowKey item in
  let t' :=
    {| total := total t; pageSize := pageSize t; pageIndex := pageIndex t;
       expanded := expanded t; selectedTab := <[k := tab]> (selectedTab t);
       peakLoading := peakLoading t; peakByPart := peakByPart t;
       errorMessage := errorMessage t; currentSort := currentSort t;
       requests := requests t |} in
  match tab with
  | peak =>
      match peakByPart t !! partNumber item with
      | Some (Some _) => t'
      | _ =>
          if truthy (peakLoading t) (partNumber item) then t'
          else fetchPeakAvailability item t'
      end
  | lots => t'
  end.

(** [goTo] (lines 119-123): the new state and the page it emits. *)
Definition goTo (page : Z) (t : Table) : Table * Z :=
  let maxPage := totalPages (total t) (pageSize t) - 1 in
  let index := Z.min (Z.max 0 page) maxPage in
  ({| total := total t; pageSize := pageSize t; pageIndex := index;
      expanded := expanded t; selectedTab := selectedTab t;
      peakLoading := peakLoading t; peakByPart := peakByPart t;
      errorMessage := errorMessage t; currentSort := currentSort t;
      requests := requests t |},
   index).

(** The parent binds new inputs. *)
Definition set_inputs (total' : option Z) (pageSize' : Z) (t : Table) : Table :=
  {| total := total'; pageSize := pageSize'; pageIndex := pageIndex t;
     expanded := expanded t; selectedTab := selectedTab t;
     peakLoading := peakLoading t; peakByPart := peakByPart t;
     errorMessage := errorMessage t; currentSort := currentSort t;
     requests := requests t |}.

Inductive event : Type :=
| SetInputs (total' : option Z) (pageSize' : Z)
| HeaderClick (fld : string)
| ToggleExpand (item : Row)
| FetchPeak (item : Row)
| SelectTab (item : Row) (tab : Tab)
| GoTo (page : Z)
| PeakNext (n : nat) (res : ApiEnvelope Peak)
| PeakError (n : nat).

Definition step (t : Table) (e : event) : Table :=
  match e with
  | SetInputs total' pageSize' => set_inputs total' pageSize' t
  | HeaderClick fld => fst (onHeaderClick fld t)
  | ToggleExpand item => toggleExpand item t
  | FetchPeak item => fetchPeakAvailability item t
  | SelectTab item tab => selectTab item tab t
  | GoTo page => fst (goTo page t)
  | PeakNext n res => peak_next n res t
  | PeakError n => peak_error n t
  end.

Definition run (es : list event) : Table := fold_left step es initial.

(** The part numbers with a lookup in flight. *)
Definition in_flight (t : Table) : list string :=
  map fst (List.filter (fun r => negb (snd r)) (requests t)).

End Component.

(** The table's sort state and the page's sort state say the same. *)
Definition same_sort (shown : option SortSpec) (requested : SortSpec) : Prop :=
  match shown with
  | Some sp => sp = requested
  | None => field requested = ""
  end.

End Table.

(** ** The seeded repository ([MockInventoryRepository], C#) *)

Module Repository.
Import CSharp Inventory.

(** The digits string interpolation prints for an [int]. *)
Definition Int32_ToString (n : Z) : string :=
  NilEmpty.string_of_int (Z.to_int n).

(** [DateTime.AddDays] on tick counts. *)
Definition TicksPerDay : Z := 864000000000.
Definition AddDays (ticks days : Z) : Z := ticks + days * TicksPerDay.

Definition branches : list string :=
  ["SEA"; "PDX"; "SFO"; "LAX"; "DEN"; "DAL"; "ORD"; "ATL"; "JFK"].
Definition uoms : list string := ["EA"; "BX"; "CS"].

Section Seeded.
(** What the constructor reads from outside: the generator [rng] and the
    clock. [Next min max w] is [rng.Next(min, max)] and [UtcNow w] is
    [DateTime.UtcNow], each with the world that follows. *)
Variable World : Type.
Variable Next : Z -> Z -> World -> Z * World.
Variable UtcNow : World -> Z * World.

(** Lines 41-46: one lot. *)
Definition new_lot (partIndex l : Z) (w : World) : LotInfo * World :=
  let lotNumber :=
    "LOT-" +:+ Int32_ToString partIndex +:+ "-" +:+ Int32_ToString l in
  let '(qty, w) := Next 1 150 w in
  let '(coin, w) := Next 0 2 w in
  let '(expiration, w) :=
    if coin =? 0 then
      let '(now, w) := UtcNow w in
      let '(days, w) := Next 30 365 w in
      (Some (AddDays now days), w)
    else (None, w) in
  ({| LotNumber := Some lotNumber; LotQty := qty;
      ExpirationDate := expiration |}, w).

(** Lines 39-47: the loop over [l], with [n] rounds left. *)
Fixpoint lots_loop (partIndex l : Z) (n : nat) (lots : list LotInfo)
    (w : World) : list LotInfo * World :=
  match n with
  | O => (lots, w)
  | S n' =>
      let '(lot, w) := new_lot partIndex l w in
      lots_loop partIndex (l + 1) n' (lots ++ [lot]) w
  end.

(** Lines 29-60: the record of round [i]. *)
Definition new_item (i partIndex : Z) (w : World) : InventoryItem * World :=
  let partNumber := "PN-" +:+ Int32_ToString (1000 + partIndex) in
  let supplierSku := "SUP-" +:+ Int32_ToString (5000 + partIndex) in
  let description :=
    "Mock part " +:+ Int32_ToString partIndex +:+ " - " +:+
    (if Z.rem i 2 =? 0 then "standard" else "premium") in
  let branch :=
    nth (Z.to_nat (Z.rem i (Z.of_nat (length branches)))) branches "" in
  let '(available, w) := Next 0 600 w in
  let '(coin, w) := Next 0 2 w in
  let '(lead, w) :=
    if coin =? 0 then let '(d, w) := Next 1 30 w in (Some d, w)
    else (None, w) in
  let '(coin, w) := Next 0 2 w in
  let '(lastPurchase, w) :=
    if coin =? 0 then
      let '(now, w) := UtcNow w in
      let '(d, w) := Next 5 200 w in
      (Some (AddDays now (- d)), w)
    else (None, w) in
  let '(lotCount, w) := Next 0 3 w in
  let '(lots, w) := lots_loop partIndex 0 (Z.to_nat lotCount) [] w in
  ({| PartNumber := Some partNumber;
      SupplierSku := Some supplierSku;
      Description := Some description;
      Branch := Some branch;
      AvailableQty := available;
      Uom := Some (nth (Z.to_nat (Z.rem i (Z.of_nat (length uoms)))) uoms "");
      LeadTimeDays := lead;
      LastPurchaseDate := lastPurchase;
      Lots := lots |}, w).

(** One round of the loop of lines 27-63 on [_items], [partIndex] and the
    world. *)
Definition round (st : list InventoryItem * Z * World) (i : Z)
    : list InventoryItem * Z * World :=
  let '(_items, partIndex, w) := st in
  let '(item, w) := new_item i partIndex w in
  (_items ++ [item], if Z.rem i 3 =? 0 then partIndex + 1 else partIndex, w).

Definition rounds (n : nat) (w : World) : list InventoryItem * Z * World :=
  fold_left round (map Z.of_nat (seq 0 n)) ([], 0, w).

(** The constructor (lines 20-64): [_items] after the 60 rounds. *)
Definition MockInventoryRepository (w : World) : list InventoryItem :=
  fst (fst (rounds 60 w)).

(** [GetAllItemsAsync] (lines 66-69): a copy of [_items]. *)
Definition GetAllItemsAsync (_items : list InventoryItem)
    : list InventoryItem := _items.

End Seeded.

(** The fields of a record that no random number enters. *)
Definition fixed_fields (i : InventoryItem)
    : option string * option string * option string * option string
      * option string :=
  (PartNumber i, SupplierSku i, Description i, Branch i, Uom i).

(** What [System.Random] promises of [Next(min, max)]. *)
Definition in_range (World : Type) (Next : Z -> Z -> World -> Z * World)
    : Prop :=
  forall lo hi w, lo < hi -> lo <= fst (Next lo hi w) < hi.

(** The invariant case mapping on strings of ASCII characters. *)
Definition is_ascii (s : string) : bool :=
  forallb (fun c => (N_of_ascii c <? 128)%N) (list_ascii_of_string s).

Definition upper_on_ascii (ToUpperInvariant : string -> string) : Prop :=
  forall s, is_ascii s = true -> ToUpperInvariant s = Str.ascii_upper s.

End Repository.

Module RepositoryExamples.
Import CSharp Inventory Repository.

(** A linear congruential generator kept within the range it is asked for. *)
Definition lcg (lo hi : Z) (w : Z) : Z * Z :=
  let w' := (w * 1103515245 + 12345) mod 2147483648 in
  (lo + (w' / 65536) mod (hi - lo), w').

Definition clock (w : Z) : Z * Z := (638000000000000000 + w, w + 1).

Definition seeded : list InventoryItem :=
  MockInventoryRepository Z lcg clock 0.

End RepositoryExamples.

(** * Properties *)

(** ** Stable sorting *)

Module SeqFacts.
Import Seq.

Lemma Sorted_impl {A} (R R' : A -> A -> Prop) l :
  (forall a b, R a b -> R' a b) -> Sorted R l -> Sorted R' l.
Proof.
  intros HR. induction 1 as [|x l Hs IH Hhd]; constructor; [assumption|].
  destruct Hhd; constructor; auto.
Qed.

Section StableSort.
Context {A : Type} (le : A -> A -> bool).

Lemma insert_sorted_Permutation x l :
  Permutation (insert_sorted le x l) (x :: l).
Proof.
  induction l as [|y l IH]; simpl; [reflexivity|].
  destruct (le x y); [reflexivity|].
  rewrite IH. apply perm_swap.
Qed.

Lemma stable_sort_Permutation l : Permutation (stable_sort le l) l.
Proof.
  induction l as [|x l IH]; simpl; [reflexivity|].
  rewrite insert_sorted_Permutation. now constructor.
Qed.

Lemma stable_sort_length l : length (stable_sort le l) = length l.
Proof. apply Permutation_length, stable_sort_Permutation. Qed.

(** With a total [le], the result is sorted. *)
Hypothesis le_total : forall a b, le a b = true \/ le b a = true.

Lemma insert_sorted_Sorted x l :
  Sorted (fun a b => le a b = true) l ->
  Sorted (fun a b => le a b = true) (insert_sorted le x l).
Proof.
  induction 1 as [|y l Hs IH Hhd]; simpl; [repeat constructor|].
  destruct (le x y) eqn:Hxy.
  - constructor; [constructor; assumption|constructor; assumption].
  - constructor; [assumption|].
    destruct l as [|z l]; simpl.
    + constructor. destruct (le_total x y); congruence.
    + destruct (le x z).
      * constructor. destruct (le_total x y); congruence.
      * constructor. now inversion Hhd.
Qed.

Lemma stable_sort_Sorted l : Sorted (fun a b => le a b = true) (stable_sort le l).
Proof.
  induction l as [|x l IH]; simpl; [constructor|].
  now apply insert_sorted_Sorted.
Qed.

End StableSort.

(** Stability: elements that the order does not separate keep their source
    order. [same] selects a class of elements; an element of the class is only
    ever moved past elements outside it. *)
Section Stability.
Context {A : Type} (le : A -> A -> bool) (same : A -> bool).
Hypothesis same_le : forall a b, same a = true -> same b = true -> le a b = true.

Lemma insert_sorted_filter x l :
  List.filter same (insert_sorted le x l) = List.filter same (x :: l).
Proof.
  induction l as [|y l IH]; [reflexivity|].
  simpl insert_sorted. destruct (le x y) eqn:Hxy; [reflexivity|].
  simpl in *. rewrite IH.
  destruct (same x) eqn:Hx, (same y) eqn:Hy; try reflexivity.
  rewrite same_le in Hxy by assumption. discriminate.
Qed.

Lemma stable_sort_filter l :
  List.filter same (stable_sort le l) = List.filter same l.
Proof.
  induction l as [|x l IH]; [reflexivity|].
  simpl stable_sort. rewrite insert_sorted_filter. simpl. now rewrite IH.
Qed.

End Stability.

End SeqFacts.

(** ** Strings: trimming, delimiters, numerals *)

Module StrFacts.
Import Str.

Lemma append_cons c x y : String c x +:+ y = String c (x +:+ y).
Proof. reflexivity. Qed.

Lemma append_nil y : "" +:+ y = y.
Proof. reflexivity. Qed.

Section Trim.
Variable ws : ascii -> bool.

Lemma trim_start_all_ws w : all_ws ws w = true -> trim_start ws w = "".
Proof.
  induction w as [|c w IH]; simpl; [reflexivity|].
  intros H. apply andb_true_iff in H as [Hc Hw]. now rewrite Hc, IH.
Qed.

Lemma trim_end_all_ws w : all_ws ws w = true -> trim_end ws w = "".
Proof.
  induction w as [|c w IH]; simpl; [reflexivity|].
  intros H. apply andb_true_iff in H as [Hc Hw]. now rewrite IH, Hc.
Qed.

Lemma trim_start_pad w t :
  all_ws ws w = true -> trim_start ws (w +:+ t) = trim_start ws t.
Proof.
  induction w as [|c w IH]; [reflexivity|].
  rewrite append_cons. simpl.
  intros H. apply andb_true_iff in H as [Hc Hw]. now rewrite Hc, IH.
Qed.

Lemma trim_start_app s w :
  trim_start ws (s +:+ w) =
  if all_ws ws s then trim_start ws w else trim_start ws s +:+ w.
Proof.
  induction s as [|c s IH]; [reflexivity|].
  rewrite append_cons. simpl. destruct (ws c); simpl; [exact IH|reflexivity].
Qed.

Lemma trim_end_pad t w :
  all_ws ws w = true -> trim_end ws (t +:+ w) = trim_end ws t.
Proof.
  intros Hw. induction t as [|c t IH].
  - rewrite append_nil. now apply trim_end_all_ws.
  - rewrite append_cons. simpl. now rewrite IH.
Qed.

(** White space around a string does not survive trimming. *)
Lemma trim_pad w1 s w2 :
  all_ws ws w1 = true -> all_ws ws w2 = true ->
  trim ws (w1 +:+ s +:+ w2) = trim ws s.
Proof.
  intros H1 H2. unfold trim.
  rewrite trim_start_pad by assumption. rewrite trim_start_app.
  destruct (all_ws ws s) eqn:Hs.
  - now rewrite !trim_start_all_ws.
  - now apply trim_end_pad.
Qed.

End Trim.

Lemma has_char_app c x y :
  has_char c (x +:+ y) = has_char c x || has_char c y.
Proof.
  induction x as [|d x IH]; [reflexivity|].
  rewrite append_cons. simpl. now rewrite IH, orb_assoc.
Qed.

(** A string is cut in one way only at the first occurrence of a character. *)
Lemma cut_unique c x x' y y' :
  has_char c x = false -> has_char c x' = false ->
  x +:+ String c y = x' +:+ String c y' -> x = x' /\ y = y'.
Proof.
  revert x'. induction x as [|d x IH]; intros [|d' x'] Hx Hx' H;
    rewrite ?append_cons, ?append_nil in H.
  - now injection H.
  - injection H as <- _. simpl in Hx'. now rewrite Ascii.eqb_refl in Hx'.
  - injection H as -> _. simpl in Hx. now rewrite Ascii.eqb_refl in Hx.
  - injection H as <- H. simpl in Hx, Hx'.
    apply orb_false_iff in Hx as [_ Hx], Hx' as [_ Hx'].
    destruct (IH x' Hx Hx' H) as [-> ->]. auto.
Qed.

(** Joining with a one-character separator loses nothing when no piece is
    empty or holds the separator. *)
Lemma join_unique c l1 l2 :
  Forall (fun x => x <> "" /\ has_char c x = false) l1 ->
  Forall (fun x => x <> "" /\ has_char c x = false) l2 ->
  join (String c "") l1 = join (String c "") l2 -> l1 = l2.
Proof.
  intros H1. revert l2.
  induction H1 as [|x l1 [Hx0 Hx] H1 IH]; intros l2 H2 H.
  - destruct H2 as [|y l2 [Hy0 _] _]; [reflexivity|].
    simpl in H. destruct l2; [congruence|].
    destruct y; [congruence|discriminate].
  - destruct H2 as [|y l2 [Hy0 Hy] H2].
    { simpl in H. destruct l1; [congruence|].
      destruct x; [congruence|discriminate]. }
    destruct l1 as [|x1 l1], l2 as [|y1 l2]; simpl in H.
    + now subst.
    + subst x. rewrite has_char_app in Hx. simpl in Hx.
      rewrite Ascii.eqb_refl in Hx. simpl in Hx.
      now rewrite orb_true_r in Hx.
    + subst y. rewrite has_char_app in Hy. simpl in Hy.
      rewrite Ascii.eqb_refl in Hy. simpl in Hy.
      now rewrite orb_true_r in Hy.
    + rewrite !append_cons, !append_nil in H.
      apply cut_unique in H as [-> H]; [|assumption..].
      f_equal. apply IH; assumption.
Qed.

(** Numerals hold digits and a sign only, and name one number each. *)
Lemma digits_no_colon d :
  has_char ":" (NilEmpty.string_of_uint d) = false.
Proof. induction d; simpl; auto. Qed.

Lemma number_no_colon n : has_char ":" (Api.number_to_string n) = false.
Proof.
  unfold Api.number_to_string. destruct (Z.to_int n); simpl;
    apply digits_no_colon.
Qed.

Lemma number_to_string_inj n n' :
  Api.number_to_string n = Api.number_to_string n' -> n = n'.
Proof.
  unfold Api.number_to_string. intros H.
  apply DecimalZ.to_int_inj.
  apply (f_equal NilEmpty.int_of_string) in H.
  rewrite !NilEmpty.isi in H. congruence.
Qed.

End StrFacts.

(** ** The inventory service *)

Module InventoryFacts.
Import CSharp Inventory.

Lemma wrap32_small z :
  Int32_MinValue <= z <= Int32_MaxValue -> wrap32 z = z.
Proof.
  unfold Int32_MinValue, Int32_MaxValue, wrap32. intros H.
  rewrite Z.mod_small; lia.
Qed.

Lemma filter_filter {A} (f g : A -> bool) l :
  List.filter f (List.filter g l) = List.filter (fun x => g x && f x) l.
Proof.
  induction l as [|x l IH]; simpl; [reflexivity|].
  destruct (g x); simpl; [destruct (f x)|]; now rewrite IH.
Qed.

Lemma filter_true {A} (l : list A) : List.filter (fun _ => true) l = l.
Proof. induction l; simpl; congruence. Qed.

Lemma existsb_eqb_elem_of (x : string) (l : list string) :
  existsb (String.eqb x) l = bool_decide (x ∈ (list_to_set l : gset string)).
Proof.
  induction l as [|y l IH]; simpl.
  - symmetry. apply bool_decide_eq_false. set_solver.
  - rewrite IH. destruct (String.eqb_spec x y) as [->|Hne]; simpl.
    + symmetry. apply bool_decide_eq_true. set_solver.
    + apply bool_decide_ext. set_solver.
Qed.

Lemma Skip_Take_length {A} (n m : Z) (l : list A) :
  0 <= n -> 0 < m ->
  Z.of_nat (length (Take m (Skip n l))) =
  Z.min m (Z.max 0 (Z.of_nat (length l) - n)).
Proof.
  intros Hn Hm. unfold Take, Skip.
  destruct (Z.leb_spec m 0) as [?|_]; [lia|].
  destruct (Z.leb_spec n 0) as [?|?].
  - rewrite length_take. lia.
  - rewrite length_take, length_drop. lia.
Qed.

Lemma Skip_drop {A} (n : Z) (l : list A) :
  0 <= n -> Skip n l = drop (Z.to_nat n) l.
Proof.
  intros Hn. unfold Skip. destruct (Z.leb_spec n 0); [|reflexivity].
  now replace n with 0 by lia.
Qed.

Lemma Take_take {A} (n : Z) (l : list A) :
  0 < n -> Take n l = take (Z.to_nat n) l.
Proof. intros Hn. unfold Take. destruct (Z.leb_spec n 0); [lia|reflexivity]. Qed.

Section Service.
Variable ToUpperInvariant : string -> string.
Variable ToLowerInvariant : string -> string.
Variable CompareString : string -> string -> comparison.

Local Abbreviation where_criteria := (where_criteria ToUpperInvariant).
Local Abbreviation where_branches := (where_branches ToUpperInvariant).
Local Abbreviation matches_filters := (matches_filters ToUpperInvariant).
Local Abbreviation filtered_sorted :=
  (filtered_sorted ToUpperInvariant ToLowerInvariant CompareString).
Local Abbreviation SearchInventoryAsync :=
  (SearchInventoryAsync ToUpperInvariant ToLowerInvariant CompareString).

Lemma where_criteria_filter request query :
  where_criteria request query =
  List.filter (criteria_ok ToUpperInvariant request) query.
Proof.
  unfold Inventory.where_criteria, criteria_ok, searched_field.
  destruct (IsNullOrWhiteSpace (Some (Trim (coalesce (Criteria request) ""))));
    simpl; [now rewrite filter_true|].
  destruct (String.eqb _ "Description"); [reflexivity|].
  destruct (String.eqb _ "SupplierSKU"); reflexivity.
Qed.

Lemma where_branches_filter request query :
  where_branches request query =
  List.filter (branch_ok ToUpperInvariant request) query.
Proof.
  unfold Inventory.where_branches, branch_ok.
  destruct (IsNullOrWhiteSpace (Branches request));
    simpl; [now rewrite filter_true|].
  apply List.filter_ext. intros i. now rewrite existsb_eqb_elem_of.
Qed.

Lemma where_available_filter request query :
  where_available request query = List.filter (available_ok request) query.
Proof.
  unfold where_available, available_ok.
  destruct (OnlyAvailable request); simpl; [reflexivity|now rewrite filter_true].
Qed.

Lemma order_Permutation request query :
  Permutation (order ToLowerInvariant CompareString request query) query.
Proof.
  unfold order. destruct (sort_spec _ _) as [sortField sortDir].
  destruct (String.eqb sortDir "desc");
    apply SeqFacts.stable_sort_Permutation.
Qed.

(** The service's three [Where] stages keep exactly the records that satisfy
    the conjunction of the filters, and sorting permutes them. *)
Lemma filtered_sorted_Permutation request all :
  Permutation (filtered_sorted request all)
              (List.filter (matches_filters request) all).
Proof.
  unfold Inventory.filtered_sorted. rewrite order_Permutation.
  rewrite where_criteria_filter, where_branches_filter, where_available_filter.
  rewrite !filter_filter. erewrite List.filter_ext; [reflexivity|].
  intros i. unfold Inventory.matches_filters. now rewrite andb_assoc.
Qed.

(** The total counts the records that pass the filters, whatever the page. *)
Lemma search_total request all result :
  SearchInventoryAsync (Some request) all = Ok result ->
  Total result = Z.of_nat (length (List.filter (matches_filters request) all)).
Proof.
  intros [= <-]. simpl. f_equal.
  apply Permutation_length, filtered_sorted_Permutation.
Qed.

(** A null or blank branch list names no branch code. *)
Lemma blank_has_no_comma s :
  Str.all_ws Str.IsWhiteSpace s = true -> Str.split "," s = [s].
Proof.
  induction s as [|d s IH]; intros H; [reflexivity|].
  cbn [Str.all_ws] in H. apply andb_prop in H as [Hd Hs].
  cbn [Str.split].
  destruct (Ascii.eqb_spec "," d) as [<-|_]; [vm_compute in Hd; discriminate|].
  now rewrite (IH Hs).
Qed.

Local Abbreviation branch_codes := (branch_codes ToUpperInvariant).

Lemma blank_branch_codes request :
  IsNullOrWhiteSpace (Branches request) = true -> branch_codes request = [].
Proof.
  unfold Inventory.branch_codes, split_entries.
  destruct (Branches request) as [s|]; simpl; intros H; [|reflexivity].
  rewrite (blank_has_no_comma s H). simpl. unfold Trim, Str.trim.
  rewrite (StrFacts.trim_start_all_ws _ s H). reflexivity.
Qed.

(** Where the branch list is blank or names a code, the service's filter is
    the spec's. *)
Lemma matches_filters_satisfies request i :
  IsNullOrWhiteSpace (Branches request) = true \/ branch_codes request <> [] ->
  matches_filters request i = satisfies ToUpperInvariant request i.
Proof.
  intros H. unfold Inventory.matches_filters, Inventory.satisfies.
  f_equal. f_equal. unfold Inventory.branch_ok, Inventory.in_branches.
  destruct (IsNullOrWhiteSpace (Branches request)) eqn:Hblank; simpl.
  - now rewrite blank_branch_codes.
  - destruct H as [H|H]; [discriminate|].
    fold (Inventory.branch_codes ToUpperInvariant request).
    destruct (Inventory.branch_codes ToUpperInvariant request);
      [contradiction|reflexivity].
Qed.

(** C1 (amended). For every record set and every request whose branch list is
    blank or names at least one branch code, and whose effective page index
    times effective page size fits in a 32-bit [int], the search succeeds;
    its total is the number of records that satisfy the conjunction of the
    criteria, branch and availability filters of the spec (an empty set of
    branch codes meaning all branches), and any other page and size give the
    same total; its page is the slice from [page * size] of length [size] of
    the filtered and sorted sequence, so that it holds
    [min size (max 0 (total - page * size))] items, and none when the page is
    out of range. *)
Theorem search_total_and_page request all :
  effective_page request * effective_size request <= Int32_MaxValue ->
  IsNullOrWhiteSpace (Branches request) = true \/ branch_codes request <> [] ->
  exists result,
    SearchInventoryAsync (Some request) all = Ok result /\
    Total result =
      Z.of_nat (length (List.filter (satisfies ToUpperInvariant request) all)) /\
    (forall page size result',
       SearchInventoryAsync (Some (set_page request page size)) all
         = Ok result' ->
       Total result' = Total result) /\
    Items result =
      take (Z.to_nat (effective_size request))
           (drop (Z.to_nat (effective_page request * effective_size request))
                 (filtered_sorted request all)) /\
    Z.of_nat (length (Items result)) =
      Z.min (effective_size request)
            (Z.max 0 (Total result
                      - effective_page request * effective_size request)) /\
    (Total result <= effective_page request * effective_size request ->
     Items result = []).
Proof.
  intros Hfit Hcodes.
  assert (Hsize : 0 < effective_size request).
  { unfold effective_size. destruct (Z.leb_spec (Size request) 0); lia. }
  assert (Hpage : 0 <= effective_page request).
  { unfold effective_page. destruct (Z.ltb_spec (Page request) 0); lia. }
  assert (Hmul : mul32 (effective_page request) (effective_size request)
                 = effective_page request * effective_size request).
  { apply wrap32_small. unfold Int32_MinValue. nia. }
  eexists. split; [reflexivity|]. simpl. rewrite Hmul.
  assert (Hlen : length (filtered_sorted request all)
                 = length (List.filter (satisfies ToUpperInvariant request)
                             all)).
  { rewrite (Permutation_length (filtered_sorted_Permutation request all)).
    f_equal. apply List.filter_ext. intros i.
    now apply matches_filters_satisfies. }
  split; [now rewrite Hlen|].
  split.
  { intros page size result' Hrun. apply search_total in Hrun.
    rewrite Hrun. f_equal.
    exact (eq_sym (Permutation_length
                     (filtered_sorted_Permutation request all))). }
  split; [rewrite Skip_drop, Take_take by nia; reflexivity|].
  split; [rewrite Skip_Take_length by nia; reflexivity|].
  intros Hout. apply length_zero_iff_nil.
  apply Nat2Z.inj. rewrite Skip_Take_length by nia. lia.
Qed.

End Service.

Lemma search_total_and_page_witness :
  exists result,
    Examples.search (Some (Examples.request "pn-1001" "PartNumber" 0 1))
                    Examples.stock = Ok result /\
    Total result = 2 /\
    Z.of_nat (length (Items result)) = 1.
Proof.
  destruct (search_total_and_page Str.ascii_upper Str.ascii_lower String.compare
              (Examples.request "pn-1001" "PartNumber" 0 1) Examples.stock)
    as (result & Hrun & Htotal & _ & _ & Hlen & _).
  - vm_compute. discriminate.
  - left. reflexivity.
  - exists result. split; [exact Hrun|].
    rewrite Hlen, Htotal. split; reflexivity.
Defined.

(** C1 as stated fails, in two ways. Page 65536 with size 65536 is out of
    range for a one-record set, yet [page * size] wraps to 0 and the record is
    returned. And the branch list "," names no branch code, which the spec
    reads as all branches, yet the search keeps no record. *)
Lemma search_page_overflow :
  (let request := Examples.request "" "PartNumber" 65536 65536 in
   let all := [Examples.item "PN-1000" "Mock part 0 - standard" "SEA" 5] in
   exists result,
     Examples.search (Some request) all = Ok result /\
     Total result = 1 /\
     Total result <= effective_page request * effective_size request /\
     Items result = all /\
     Z.of_nat (length (Items result)) <>
       Z.min (effective_size request)
             (Z.max 0 (Total result
                       - effective_page request * effective_size request))) /\
  (let request := {| Criteria := Some ""; By := Some "PartNumber";
                     Branches := Some ","; OnlyAvailable := false;
                     Page := 0; Size := 20; Sort := Some "" |} in
   branch_codes Str.ascii_upper request = [] /\
   List.filter (satisfies Str.ascii_upper request) Examples.stock
     = Examples.stock /\
   Examples.search (Some request) Examples.stock
     = Ok {| Total := 0; Items := [] |}).
Proof.
  split.
  - eexists. split; [vm_compute; reflexivity|].
    vm_compute. repeat split; discriminate.
  - repeat split; vm_compute; reflexivity.
Qed.

End InventoryFacts.

(** ** The field selector of a search *)

Module SearchByFacts.
Import CSharp Inventory.

Section Service.
Variable ToUpperInvariant : string -> string.
Variable ToLowerInvariant : string -> string.
Variable CompareString : string -> string -> comparison.

Local Abbreviation where_criteria := (where_criteria ToUpperInvariant).
Local Abbreviation SearchInventoryAsync :=
  (SearchInventoryAsync ToUpperInvariant ToLowerInvariant CompareString).
Local Abbreviation controller_Search :=
  (controller_Search ToUpperInvariant ToLowerInvariant CompareString).

Lemma where_criteria_part_number request query :
  Trim (coalesce (By request) "PartNumber") <> "Description" ->
  Trim (coalesce (By request) "PartNumber") <> "SupplierSKU" ->
  where_criteria request query =
  if IsNullOrWhiteSpace (Some (Trim (coalesce (Criteria request) "")))
  then query
  else List.filter
         (fun i =>
            Str.Contains (ToUpperInvariant (coalesce (PartNumber i) ""))
              (ToUpperInvariant (Trim (coalesce (Criteria request) ""))))
         query.
Proof.
  intros Hd Hs. unfold Inventory.where_criteria.
  destruct (IsNullOrWhiteSpace _); simpl; [reflexivity|].
  destruct (String.eqb_spec (Trim (coalesce (By request) "PartNumber"))
              "Description"); [contradiction|].
  destruct (String.eqb_spec (Trim (coalesce (By request) "PartNumber"))
              "SupplierSKU"); [contradiction|reflexivity].
Qed.

Lemma search_by_set_by request all :
  Trim (coalesce (By request) "PartNumber") <> "Description" ->
  Trim (coalesce (By request) "PartNumber") <> "SupplierSKU" ->
  SearchInventoryAsync (Some request) all =
    SearchInventoryAsync (Some (set_by request "PartNumber")) all.
Proof.
  intros Hd Hs. unfold Inventory.SearchInventoryAsync, filtered_sorted.
  rewrite (where_criteria_part_number request) by assumption.
  rewrite (where_criteria_part_number (set_by request "PartNumber"))
    by (vm_compute; discriminate).
  reflexivity.
Qed.

(** C10 (amended). When the field selector, once trimmed, is neither
    "Description" nor "SupplierSKU", the search is the search by part number:
    it returns what the same request with by=PartNumber returns, and with
    non-blank criteria it keeps the records whose part number contains the
    criteria, case-insensitively. *)
Theorem search_by_other_is_part_number request all :
  Trim (coalesce (By request) "PartNumber") <> "Description" ->
  Trim (coalesce (By request) "PartNumber") <> "SupplierSKU" ->
  SearchInventoryAsync (Some request) all =
    SearchInventoryAsync (Some (set_by request "PartNumber")) all /\
  (IsNullOrWhiteSpace (Some (Trim (coalesce (Criteria request) ""))) = false ->
   where_criteria request all =
     List.filter
       (fun i =>
          Str.Contains (ToUpperInvariant (coalesce (PartNumber i) ""))
            (ToUpperInvariant (Trim (coalesce (Criteria request) ""))))
       all).
Proof.
  intros Hd Hs. split.
  - now apply search_by_set_by.
  - intros Hc. rewrite where_criteria_part_number by assumption.
    now rewrite Hc.
Qed.

(** The same through the controller, which replaces a blank selector by
    "PartNumber" and passes any other on unchanged. *)
Lemma controller_by_other_is_part_number all criteria by_ branches
    onlyAvailable page size sort fail :
  Trim (coalesce by_ "PartNumber") <> "Description" ->
  Trim (coalesce by_ "PartNumber") <> "SupplierSKU" ->
  controller_Search all criteria by_ branches onlyAvailable page size sort fail =
  controller_Search all criteria (Some "PartNumber") branches onlyAvailable
    page size sort fail.
Proof.
  intros Hd Hs. unfold Inventory.controller_Search.
  destruct fail; [reflexivity|].
  rewrite (search_by_set_by
             (controller_request criteria by_ branches onlyAvailable
                page size sort) all); [reflexivity| |].
  - simpl. destruct (IsNullOrWhiteSpace by_) eqn:Hb.
    + vm_compute. discriminate.
    + destruct by_; [exact Hd|discriminate].
  - simpl. destruct (IsNullOrWhiteSpace by_) eqn:Hb.
    + vm_compute. discriminate.
    + destruct by_; [exact Hs|discriminate].
Qed.

End Service.

Lemma search_by_other_is_part_number_witness :
  Examples.search (Some (Examples.request "pn-1001" "Branch" 0 20))
                  Examples.stock =
  Examples.search (Some (Examples.request "pn-1001" "PartNumber" 0 20))
                  Examples.stock.
Proof.
  apply (search_by_other_is_part_number Str.ascii_upper Str.ascii_lower
           String.compare (Examples.request "pn-1001" "Branch" 0 20)
           Examples.stock); vm_compute; discriminate.
Defined.

(** C10 as stated fails: " Description" is a string other than "Description"
    and "SupplierSKU", yet the service trims it and searches descriptions. *)
Lemma by_with_space_searches_description :
  let request := Examples.request "premium" " Description" 0 20 in
  By request <> Some "Description" /\
  By request <> Some "SupplierSKU" /\
  IsNullOrWhiteSpace (Criteria request) = false /\
  Examples.search (Some request) Examples.stock =
    Ok {| Total := 1;
          Items := [Examples.item "PN-1001" "Mock part 1 - premium" "PDX" 7] |} /\
  Examples.search (Some (set_by request "PartNumber")) Examples.stock =
    Ok {| Total := 0; Items := [] |}.
Proof.
  repeat split; try discriminate; vm_compute; reflexivity.
Qed.

End SearchByFacts.

(** ** Checked sums, selection and grouping *)

Module LinqFacts.
Import CSharp.

Section Sum.
Context {A : Type} (f : A -> Z).

Local Abbreviation plain_sum l := (foldr (fun x acc => f x + acc) 0 l).

Lemma fold_add_checked_Throw l e :
  fold_left (fun acc x => add_checked acc (f x)) l (Throw e) = Throw e.
Proof. induction l as [|x l IH]; simpl; [reflexivity|exact IH]. Qed.

(** A sum that is returned is the exact sum. *)
Lemma fold_add_checked_exact l a v :
  fold_left (fun acc x => add_checked acc (f x)) l (Ok a) = Ok v ->
  v = a + plain_sum l.
Proof.
  revert a. induction l as [|x l IH]; simpl; intros a H.
  - injection H as <-. lia.
  - destruct (in_int32 (a + f x)).
    + apply IH in H. lia.
    + rewrite fold_add_checked_Throw in H. discriminate.
Qed.

Lemma Sum_exact l v : Sum f l = Ok v -> v = plain_sum l.
Proof. intros H. apply fold_add_checked_exact in H. lia. Qed.

(** The only exception of a sum is the overflow. *)
Lemma fold_add_checked_overflow l a e :
  fold_left (fun acc x => add_checked acc (f x)) l (Ok a) = Throw e ->
  e = OverflowException.
Proof.
  revert a. induction l as [|x l IH]; simpl; intros a H; [discriminate|].
  destruct (in_int32 (a + f x)); [eauto|].
  rewrite fold_add_checked_Throw in H. congruence.
Qed.

Lemma Sum_overflow l e : Sum f l = Throw e -> e = OverflowException.
Proof. apply fold_add_checked_overflow. Qed.

(** Non-negative terms whose sum fits are summed without an exception. *)
Lemma fold_add_checked_ok l a :
  Forall (fun x => 0 <= f x) l ->
  0 <= a -> a + plain_sum l <= Int32_MaxValue ->
  fold_left (fun acc x => add_checked acc (f x)) l (Ok a)
  = Ok (a + plain_sum l).
Proof.
  intros Hl. revert a. induction Hl as [|x l Hx Hl IH]; simpl; intros a Ha Hfit.
  - f_equal. lia.
  - assert (0 <= plain_sum l).
    { clear -Hl. induction Hl; simpl; lia. }
    replace (in_int32 (a + f x)) with true.
    + rewrite IH by lia. f_equal. lia.
    + symmetry. unfold in_int32, Int32_MinValue, Int32_MaxValue in *.
      apply andb_true_intro. split; apply Z.leb_le; lia.
Qed.

Lemma Sum_ok l :
  Forall (fun x => 0 <= f x) l -> plain_sum l <= Int32_MaxValue ->
  Sum f l = Ok (plain_sum l).
Proof.
  intros Hl Hfit. unfold Sum. rewrite fold_add_checked_ok by (try lia; assumption).
  reflexivity.
Qed.

Lemma plain_sum_app l1 l2 :
  plain_sum (l1 ++ l2) = plain_sum l1 + plain_sum l2.
Proof. induction l1 as [|x l1 IH]; simpl; lia. Qed.

Lemma plain_sum_Permutation l1 l2 :
  Permutation l1 l2 -> plain_sum l1 = plain_sum l2.
Proof. induction 1; simpl; lia. Qed.

Lemma plain_sum_nonneg l : Forall (fun x => 0 <= f x) l -> 0 <= plain_sum l.
Proof. induction 1; simpl; lia. Qed.

Lemma plain_sum_filter_le (p : A -> bool) l :
  Forall (fun x => 0 <= f x) l ->
  0 <= plain_sum (List.filter p l) <= plain_sum l.
Proof.
  induction 1 as [|x l Hx Hl IH]; simpl; [lia|].
  destruct (p x); simpl; lia.
Qed.

End Sum.

Section SelectM.
Context {A B : Type} (f : A -> outcome B).

Lemma SelectM_ok (h : A -> B) l :
  (forall x, In x l -> f x = Ok (h x)) -> SelectM f l = Ok (map h l).
Proof.
  induction l as [|x l IH]; simpl; intros H; [reflexivity|].
  rewrite (H x) by now left. simpl.
  rewrite IH by (intros; apply H; now right). reflexivity.
Qed.

Lemma SelectM_exact (h : A -> B) l ys :
  (forall x y, In x l -> f x = Ok y -> y = h x) ->
  SelectM f l = Ok ys -> ys = map h l.
Proof.
  revert ys. induction l as [|x l IH]; simpl; intros ys H Hrun.
  - now injection Hrun as <-.
  - destruct (f x) as [y|e] eqn:Hx; simpl in Hrun; [|discriminate].
    destruct (SelectM f l) as [ys'|e] eqn:Hl; simpl in Hrun; [|discriminate].
    injection Hrun as <-.
    rewrite (H x y), (IH ys'); auto.
Qed.

Lemma SelectM_overflow l e :
  (forall x e, f x = Throw e -> e = OverflowException) ->
  SelectM f l = Throw e -> e = OverflowException.
Proof.
  intros H. induction l as [|x l IH]; simpl; intros Hrun; [discriminate|].
  destruct (f x) as [y|e'] eqn:Hx; simpl in Hrun.
  - destruct (SelectM f l) as [ys'|e'']; simpl in Hrun; [discriminate|].
    apply IH. congruence.
  - apply (H x). congruence.
Qed.

End SelectM.

End LinqFacts.

(** ** [GroupBy] yields one group per key, in first-occurrence order *)

Module GroupFacts.
Import CSharp Inventory.

Lemma existsb_eqb_In (k : string) ks :
  existsb (String.eqb k) ks = true <-> In k ks.
Proof.
  rewrite existsb_exists. split.
  - intros (k' & Hin & Heq). apply String.eqb_eq in Heq. now subst.
  - intros Hin. exists k. split; [assumption|apply String.eqb_refl].
Qed.

Lemma filter_none {A} (p : A -> bool) l :
  (forall x, In x l -> p x = false) -> List.filter p l = [].
Proof.
  induction l as [|x l IH]; simpl; intros H; [reflexivity|].
  rewrite (H x) by now left. apply IH. intros; apply H; now right.
Qed.

Lemma first_occurrences_In k ks : In k (first_occurrences ks) <-> In k ks.
Proof.
  induction ks as [|a ks IH]; simpl; [tauto|].
  rewrite filter_In, IH, negb_true_iff.
  destruct (String.eqb_spec k a) as [->|Hne]; split; intros H; auto.
  - destruct H as [H|[H _]]; auto.
  - destruct H as [H|H]; [now left|right; now split].
Qed.

Lemma first_occurrences_NoDup ks : List.NoDup (first_occurrences ks).
Proof.
  induction ks as [|a ks IH]; simpl; constructor.
  - rewrite filter_In, String.eqb_refl. intros [_ H]. discriminate.
  - now apply List.NoDup_filter.
Qed.

Lemma first_occurrences_snoc ks k :
  first_occurrences (ks ++ [k]) =
  first_occurrences ks ++ (if existsb (String.eqb k) ks then [] else [k]).
Proof.
  induction ks as [|a ks IH]; simpl; [reflexivity|].
  rewrite IH, List.filter_app. f_equal. f_equal.
  destruct (String.eqb_spec k a) as [->|Hne]; simpl.
  - destruct (existsb _ ks); simpl; [reflexivity|].
    now rewrite String.eqb_refl.
  - destruct (existsb _ ks); simpl; [reflexivity|].
    destruct (String.eqb_spec k a); [contradiction|reflexivity].
Qed.

Section GroupBy.
Context {A : Type} (key : A -> string).

(** The group of key [k] among [l]. *)
Local Abbreviation group_of l :=
  (fun k => (k, List.filter (fun i => String.eqb (key i) k) l)).

Lemma group_add_groups x l ks :
  List.NoDup ks ->
  group_add (key x) x (map (group_of l) ks) =
  map (group_of (l ++ [x])) ks ++
  (if existsb (String.eqb (key x)) ks then [] else [(key x, [x])]).
Proof.
  induction 1 as [|k ks Hk Hnd IH]; simpl; [reflexivity|].
  rewrite List.filter_app. simpl.
  destruct (String.eqb_spec (key x) k) as [<-|Hne]; simpl.
  - rewrite app_nil_r. f_equal.
    apply map_ext_in. intros k' Hk'. rewrite List.filter_app. simpl.
    destruct (String.eqb_spec (key x) k') as [Heq|_];
      [rewrite Heq in Hk; contradiction|].
    now rewrite app_nil_r.
  - rewrite app_nil_r, IH. reflexivity.
Qed.

Theorem GroupBy_first_occurrences l :
  GroupBy key l = map (group_of l) (first_occurrences (map key l)).
Proof.
  induction l as [|x l IH] using rev_ind; [reflexivity|].
  unfold GroupBy in *. rewrite fold_left_app. simpl. rewrite IH.
  rewrite group_add_groups by apply first_occurrences_NoDup.
  rewrite map_app. simpl. rewrite first_occurrences_snoc, map_app.
  f_equal.
  replace (existsb (String.eqb (key x)) (first_occurrences (map key l)))
    with (existsb (String.eqb (key x)) (map key l))
    by (apply eq_true_iff_eq;
        rewrite !existsb_eqb_In, first_occurrences_In; reflexivity).
  destruct (existsb (String.eqb (key x)) (map key l)) eqn:E2; [reflexivity|].
  simpl. rewrite List.filter_app. simpl. rewrite String.eqb_refl.
  replace (List.filter (fun i => String.eqb (key i) (key x)) l) with (@nil A);
    [reflexivity|].
  symmetry. apply filter_none. intros i Hi.
  destruct (String.eqb_spec (key i) (key x)) as [Heq|]; [|reflexivity].
  exfalso. apply not_true_iff_false in E2. apply E2.
  apply existsb_eqb_In. rewrite <- Heq. now apply in_map.
Qed.

End GroupBy.

End GroupFacts.

(** ** Peak availability *)

Module PeakFacts.
Import CSharp Inventory.

(** [OrderByDescending] on integer keys: every element is at least as large
    as all that follow. *)
Lemma OrderByDescending_sorted {A} (key : A -> Z) l :
  StronglySorted (fun a b => key b <= key a)
                 (OrderByDescending Z.compare key l).
Proof.
  apply Sorted_StronglySorted; [intros a b c; lia|].
  eapply SeqFacts.Sorted_impl; [|apply SeqFacts.stable_sort_Sorted].
  - intros a b. simpl. destruct (Z.compare_spec (key a) (key b)); intros; lia.
  - intros a b. simpl.
    destruct (Z.compare_spec (key a) (key b)), (Z.compare_spec (key b) (key a));
      auto; lia.
Qed.

Lemma OrderByDescending_Permutation {A K} (cmp : K -> K -> comparison)
    (key : A -> K) l :
  Permutation (OrderByDescending cmp key l) l.
Proof. apply SeqFacts.stable_sort_Permutation. Qed.

(** ... and elements with equal keys keep their order. *)
Lemma OrderByDescending_stable {A} (key : A -> Z) l q :
  List.filter (fun a => key a =? q) (OrderByDescending Z.compare key l) =
  List.filter (fun a => key a =? q) l.
Proof.
  apply SeqFacts.stable_sort_filter. intros a b Ha Hb.
  apply Z.eqb_eq in Ha, Hb. rewrite Ha, Hb, Z.compare_refl. reflexivity.
Qed.

Section Service.
Variable ToUpperInvariant : string -> string.

Local Abbreviation FindByPartNumberAsync :=
  (FindByPartNumberAsync ToUpperInvariant).
Local Abbreviation GetPeakAvailabilityAsync :=
  (GetPeakAvailabilityAsync ToUpperInvariant).
Local Abbreviation grouped := (grouped ToUpperInvariant).
Local Abbreviation branch_totals := (branch_totals ToUpperInvariant).
Local Abbreviation branch_key := (branch_key ToUpperInvariant).

Local Abbreviation aggregate :=
  (fun g : string * list InventoryItem =>
     {| BranchCode := fst g; Qty := total_qty (snd g) |}).

Lemma branch_totals_GroupBy matches :
  branch_totals matches = map aggregate (GroupBy branch_key matches).
Proof.
  rewrite GroupFacts.GroupBy_first_occurrences, map_map. reflexivity.
Qed.

(** Whatever [grouped] returns is the per-branch totals, largest first. *)
Lemma grouped_exact matches g :
  grouped matches = Ok g ->
  g = OrderByDescending Z.compare Qty (branch_totals matches).
Proof.
  unfold Inventory.grouped. intros H.
  destruct (SelectM _ _) as [sums|e] eqn:Hsel; simpl in H; [|discriminate].
  injection H as <-. f_equal. rewrite branch_totals_GroupBy.
  eapply LinqFacts.SelectM_exact; [|exact Hsel].
  intros [k xs] y _ Hy. simpl in Hy.
  destruct (Sum AvailableQty xs) as [q|e] eqn:Hq; simpl in Hy; [|discriminate].
  injection Hy as <-. apply LinqFacts.Sum_exact in Hq. now subst.
Qed.

Lemma grouped_overflow matches e :
  grouped matches = Throw e -> e = OverflowException.
Proof.
  unfold Inventory.grouped. intros H.
  destruct (SelectM _ _) as [sums|e0] eqn:Hsel; simpl in H; [discriminate|].
  injection H as <-.
  eapply LinqFacts.SelectM_overflow; [|exact Hsel].
  intros [k xs] e1 Hy. simpl in Hy.
  destruct (Sum AvailableQty xs) as [q|e2] eqn:Hq; simpl in Hy; [discriminate|].
  injection Hy as <-. eapply LinqFacts.Sum_overflow, Hq.
Qed.

Lemma grouped_ok matches :
  Forall (fun i => 0 <= AvailableQty i) matches ->
  total_qty matches <= Int32_MaxValue ->
  grouped matches =
  Ok (OrderByDescending Z.compare Qty (branch_totals matches)).
Proof.
  intros Hpos Hfit. unfold Inventory.grouped.
  rewrite (LinqFacts.SelectM_ok _ aggregate).
  - simpl. now rewrite branch_totals_GroupBy.
  - intros [k xs] Hin. simpl.
    rewrite GroupFacts.GroupBy_first_occurrences in Hin.
    apply in_map_iff in Hin as (k' & [= <- <-] & _).
    pose proof (LinqFacts.plain_sum_filter_le AvailableQty
                  (fun i => String.eqb (branch_key i) k') matches Hpos).
    rewrite LinqFacts.Sum_ok; [reflexivity| |unfold total_qty in Hfit; lia].
    apply List.Forall_forall. intros i Hi. apply filter_In in Hi as [Hi _].
    revert i Hi. now apply List.Forall_forall.
Qed.

(** The per-branch totals add up to the total over the records. *)
Lemma group_add_total k x (gs : list (string * list InventoryItem)) :
  total_branch_qty (map aggregate (group_add k x gs)) =
  total_branch_qty (map aggregate gs) + AvailableQty x.
Proof.
  induction gs as [|[k' xs] gs IH]; simpl; [lia|].
  destruct (String.eqb k k'); simpl.
  - unfold total_qty. rewrite LinqFacts.plain_sum_app. simpl. lia.
  - rewrite IH. lia.
Qed.

Lemma branch_totals_total matches :
  total_branch_qty (branch_totals matches) = total_qty matches.
Proof.
  rewrite branch_totals_GroupBy. unfold GroupBy.
  induction matches as [|x l IH] using rev_ind; [reflexivity|].
  rewrite fold_left_app. simpl. rewrite group_add_total, IH.
  unfold total_qty. rewrite LinqFacts.plain_sum_app. simpl. lia.
Qed.

Lemma branch_totals_nonneg matches :
  Forall (fun i => 0 <= AvailableQty i) matches ->
  Forall (fun b => 0 <= Qty b) (branch_totals matches).
Proof.
  intros Hpos. apply List.Forall_forall. intros b Hb.
  apply in_map_iff in Hb as (k & <- & _). simpl.
  apply (LinqFacts.plain_sum_filter_le AvailableQty _ matches Hpos).
Qed.

Lemma peak_not_blank _items partNumber :
  IsNullOrWhiteSpace partNumber = false ->
  GetPeakAvailabilityAsync _items partNumber =
  match FindByPartNumberAsync _items partNumber with
  | [] =>
      Ok {| ResultPartNumber := Some (Trim (coalesce partNumber ""));
            TotalAvailable := 0;
            BranchList := [] |}
  | first :: _ =>
      g ← grouped (FindByPartNumberAsync _items partNumber);
      total ← Sum Qty g;
      Ok {| ResultPartNumber := PartNumber first;
            TotalAvailable := total;
            BranchList := g |}
  end.
Proof. intros H. unfold Inventory.GetPeakAvailabilityAsync. now rewrite H. Qed.

(** Whatever the lookup returns carries the per-branch totals of the matched
    records, largest first, and their checked sum. *)
Lemma peak_exact _items partNumber r :
  GetPeakAvailabilityAsync _items partNumber = Ok r ->
  BranchList r =
    OrderByDescending Z.compare Qty
      (branch_totals (FindByPartNumberAsync _items partNumber)) /\
  TotalAvailable r = total_branch_qty (BranchList r).
Proof.
  unfold Inventory.GetPeakAvailabilityAsync.
  destruct (IsNullOrWhiteSpace partNumber); [discriminate|].
  destruct (FindByPartNumberAsync _items partNumber) as [|first rest] eqn:Hm.
  - intros [= <-]. split; reflexivity.
  - rewrite <- Hm. clear Hm. intros H.
    destruct (grouped _) as [g|e] eqn:Hg; simpl in H; [|discriminate].
    destruct (Sum Qty g) as [total|e] eqn:Ht; simpl in H; [|discriminate].
    injection H as <-. simpl. split.
    + now apply grouped_exact.
    + now apply LinqFacts.Sum_exact in Ht.
Qed.

(** C2 (amended). For a non-blank part identifier with at least one matching
    record: whenever the lookup returns a result, its total equals the sum of
    the per-branch quantities of its branch list, which equals the sum of
    [AvailableQty] over the matched records; and it does return a result when
    the matched quantities are non-negative and add up to at most
    [Int32.MaxValue]. *)
Theorem peak_total_matches_breakdown _items partNumber :
  IsNullOrWhiteSpace partNumber = false ->
  FindByPartNumberAsync _items partNumber <> [] ->
  (forall r,
     GetPeakAvailabilityAsync _items partNumber = Ok r ->
     TotalAvailable r = total_branch_qty (BranchList r) /\
     total_branch_qty (BranchList r) =
       total_qty (FindByPartNumberAsync _items partNumber)) /\
  (Forall (fun i => 0 <= AvailableQty i)
          (FindByPartNumberAsync _items partNumber) ->
   total_qty (FindByPartNumberAsync _items partNumber) <= Int32_MaxValue ->
   exists r, GetPeakAvailabilityAsync _items partNumber = Ok r).
Proof.
  intros Hblank Hmatch. split.
  - intros r Hr. apply peak_exact in Hr as [Hlist Htotal].
    split; [exact Htotal|].
    rewrite Hlist. unfold total_branch_qty.
    rewrite (LinqFacts.plain_sum_Permutation Qty _ _
               (OrderByDescending_Permutation _ _ _)).
    apply branch_totals_total.
  - intros Hpos Hfit. rewrite peak_not_blank by assumption.
    destruct (FindByPartNumberAsync _items partNumber) as [|first rest] eqn:Hm;
      [contradiction|].
    rewrite <- Hm in *. rewrite grouped_ok by assumption. simpl.
    rewrite LinqFacts.Sum_ok.
    + simpl. eexists. reflexivity.
    + apply List.Forall_forall. intros b Hb.
      apply (Permutation_in _ (OrderByDescending_Permutation _ _ _)) in Hb.
      revert b Hb. apply List.Forall_forall. now apply branch_totals_nonneg.
    + rewrite (LinqFacts.plain_sum_Permutation Qty _ _
                 (OrderByDescending_Permutation _ _ _)).
      pose proof (branch_totals_total (FindByPartNumberAsync _items partNumber))
        as Heq.
      unfold total_branch_qty in Heq. rewrite Heq. exact Hfit.
Qed.

(** C8 (amended). The branch list of a returned result holds the per-branch
    totals of the matched records sorted descending by summed quantity;
    branches with equal quantities stay in the order in which they first occur
    among the matched records. *)
Theorem peak_branches_sorted_stable _items partNumber r :
  GetPeakAvailabilityAsync _items partNumber = Ok r ->
  StronglySorted (fun a b => Qty b <= Qty a) (BranchList r) /\
  Permutation (BranchList r)
              (branch_totals (FindByPartNumberAsync _items partNumber)) /\
  (forall q,
     List.filter (fun b => Qty b =? q) (BranchList r) =
     List.filter (fun b => Qty b =? q)
                 (branch_totals (FindByPartNumberAsync _items partNumber))).
Proof.
  intros Hr. apply peak_exact in Hr as [-> _]. split; [|split].
  - apply OrderByDescending_sorted.
  - apply OrderByDescending_Permutation.
  - intros q. apply OrderByDescending_stable.
Qed.

(** C9. The lookup throws [ArgumentException] exactly when the part identifier
    is null, empty or white space; a non-blank identifier that matches no
    record gets the zero result: total 0, no branches, the identifier
    trimmed. *)
Theorem peak_invalid_argument_iff_blank _items partNumber :
  (GetPeakAvailabilityAsync _items partNumber = Throw ArgumentException <->
   IsNullOrWhiteSpace partNumber = true) /\
  (IsNullOrWhiteSpace partNumber = false ->
   FindByPartNumberAsync _items partNumber = [] ->
   GetPeakAvailabilityAsync _items partNumber =
   Ok {| ResultPartNumber := Some (Trim (coalesce partNumber ""));
         TotalAvailable := 0;
         BranchList := [] |}).
Proof.
  split; [split|].
  - intros H. destruct (IsNullOrWhiteSpace partNumber) eqn:Hb; [reflexivity|].
    rewrite peak_not_blank in H by assumption.
    destruct (FindByPartNumberAsync _items partNumber); [discriminate|].
    destruct (grouped _) as [g|e] eqn:Hg; simpl in H.
    + destruct (Sum Qty g) as [total|e] eqn:Ht; simpl in H; [discriminate|].
      apply LinqFacts.Sum_overflow in Ht. congruence.
    + apply grouped_overflow in Hg. congruence.
  - intros H. unfold Inventory.GetPeakAvailabilityAsync. now rewrite H.
  - intros Hb Hm. rewrite peak_not_blank by assumption. now rewrite Hm.
Qed.

End Service.

Lemma peak_total_matches_breakdown_witness :
  exists r,
    Examples.peak Examples.stock (Some " pn-1001 ") = Ok r /\
    TotalAvailable r = 7 /\
    total_branch_qty (BranchList r) = 7.
Proof.
  destruct (peak_total_matches_breakdown Str.ascii_upper Examples.stock
              (Some " pn-1001 ")) as [Hexact Hreturns].
  - reflexivity.
  - vm_compute. discriminate.
  - destruct Hreturns as [r Hr].
    + vm_compute. repeat constructor; discriminate.
    + vm_compute. discriminate.
    + exists r. split; [exact Hr|].
      destruct (Hexact r Hr) as [H1 H2]. rewrite H1, H2. split; reflexivity.
Defined.

(** C2 as stated fails: two matching records whose quantities add up beyond
    [Int32.MaxValue] make the checked sum throw, so no result is returned. *)
Lemma peak_sum_overflow :
  let _items := [Examples.item "PN-1000" "Mock part 0 - standard" "SEA" 2147483647;
                 Examples.item "PN-1000" "Mock part 0 - premium" "SEA" 1] in
  IsNullOrWhiteSpace (Some "PN-1000") = false /\
  length (Inventory.FindByPartNumberAsync Str.ascii_upper _items (Some "PN-1000"))
    = 2%nat /\
  Examples.peak _items (Some "PN-1000") = Throw OverflowException /\
  ~ exists r, Examples.peak _items (Some "PN-1000") = Ok r.
Proof.
  repeat split; try (vm_compute; reflexivity).
  intros [r Hr]. vm_compute in Hr. discriminate.
Qed.

Lemma peak_branches_sorted_stable_witness :
  exists r,
    Examples.peak Examples.stock (Some "pn-1001") = Ok r /\
    StronglySorted (fun a b => Qty b <= Qty a) (BranchList r).
Proof.
  eexists. split; [vm_compute; reflexivity|].
  apply (peak_branches_sorted_stable Str.ascii_upper Examples.stock
           (Some "pn-1001")).
  vm_compute. reflexivity.
Defined.

(** C8 as stated fails: SEA and PDX tie at 5; the list keeps SEA, met first,
    in front of PDX, although "PDX" sorts before "SEA". *)
Lemma peak_tie_keeps_source_order :
  let _items := [Examples.item "PN-1000" "Mock part 0 - standard" "SEA" 5;
                 Examples.item "PN-1000" "Mock part 0 - premium" "PDX" 5] in
  Examples.peak _items (Some "PN-1000") =
    Ok {| ResultPartNumber := Some "PN-1000";
          TotalAvailable := 10;
          BranchList := [ {| BranchCode := "SEA"; Qty := 5 |};
                          {| BranchCode := "PDX"; Qty := 5 |} ] |} /\
  String.ltb "PDX" "SEA" = true.
Proof. split; vm_compute; reflexivity. Qed.

Lemma peak_invalid_argument_iff_blank_witness :
  Examples.peak Examples.stock (Some " nonexistent ") =
  Ok {| ResultPartNumber := Some "nonexistent";
        TotalAvailable := 0;
        BranchList := [] |}.
Proof.
  apply (peak_invalid_argument_iff_blank Str.ascii_upper Examples.stock
           (Some " nonexistent ")); reflexivity.
Defined.

End PeakFacts.

(** ** The request cache *)

Module CacheFacts.
Import Api.

Lemma filter_all {A} (p : A -> bool) l :
  (forall x, In x l -> p x = true) -> List.filter p l = l.
Proof.
  induction l as [|x l IH]; simpl; intros H; [reflexivity|].
  rewrite (H x) by now left. f_equal. apply IH. intros; apply H; now right.
Qed.

Lemma filter_length_le {A} (p : A -> bool) l :
  (length (List.filter p l) <= length l)%nat.
Proof. induction l as [|x l IH]; simpl; [lia|destruct (p x); simpl; lia]. Qed.

Lemma find_none_iff {A} (p : A -> bool) l :
  List.find p l = None <-> forall x, In x l -> p x = false.
Proof.
  split; [apply List.find_none|].
  induction l as [|x l IH]; simpl; intros H; [reflexivity|].
  rewrite (H x) by now left. apply IH. intros; apply H; now right.
Qed.

Lemma shift_excess_length next :
  (length (shift_excess next) <= CACHE_MAX_ENTRIES)%nat.
Proof.
  induction next as [|e next IH]; simpl; [unfold CACHE_MAX_ENTRIES; lia|].
  destruct (Nat.ltb_spec CACHE_MAX_ENTRIES (S (length next))); simpl; lia.
Qed.

Lemma shift_excess_fits next :
  (length next <= CACHE_MAX_ENTRIES)%nat -> shift_excess next = next.
Proof.
  destruct next as [|e next]; simpl; [reflexivity|]. intros H.
  destruct (Nat.ltb_spec CACHE_MAX_ENTRIES (S (length next))); [lia|reflexivity].
Qed.

(** What the sweep of [remember] keeps: entries of the array, each of them
    alive at the reading taken for it. *)
Lemma sweep_lookup clock i entries e :
  In e (sweep clock i entries) ->
  exists j, entries !! j = Some e /\ clock (i + j)%nat < expiry e.
Proof.
  revert i. induction entries as [|c entries IH]; simpl; intros i H;
    [contradiction|].
  destruct (Z.ltb_spec (clock i) (expiry c)) as [Hlive|_].
  - destruct H as [<-|H].
    + exists 0%nat. split; [reflexivity|]. now rewrite Nat.add_0_r.
    + destruct (IH _ H) as (j & Hj & Hlt). exists (S j).
      split; [exact Hj|]. now rewrite Nat.add_succ_r.
  - destruct (IH _ H) as (j & Hj & Hlt). exists (S j).
    split; [exact Hj|]. now rewrite Nat.add_succ_r.
Qed.

Lemma sweep_In clock i entries e :
  In e (sweep clock i entries) -> In e entries.
Proof.
  intros H. apply sweep_lookup in H as (j & Hj & _).
  apply list_elem_of_In. eapply list_elem_of_lookup_2, Hj.
Qed.

Lemma sweep_length clock i entries :
  (length (sweep clock i entries) <= length entries)%nat.
Proof.
  revert i. induction entries as [|c entries IH]; simpl; intros i; [lia|].
  specialize (IH (S i)). destruct (clock i <? expiry c); simpl; lia.
Qed.

(** With a clock that stands still the sweep is a filter. *)
Lemma sweep_steady now i entries :
  sweep (fun _ => now) i entries =
  List.filter (fun c => now <? expiry c) entries.
Proof.
  revert i. induction entries as [|c entries IH]; simpl; intros i;
    [reflexivity|].
  now rewrite IH.
Qed.

(** [remember] never leaves more than five entries. *)
Lemma remembered_length entries k o now1 now2 :
  (length (remembered entries k o now1 now2) <= CACHE_MAX_ENTRIES)%nat.
Proof. apply shift_excess_length. Qed.

(** With room left, the entries that survive the sweep are kept and the new
    one is appended. *)
Lemma remembered_room entries k o now1 now2 :
  (length (sweep now2 0 entries) < CACHE_MAX_ENTRIES)%nat ->
  remembered entries k o now1 now2 =
  sweep now2 0 entries
    ++ [{| key := k; expiry := now1 + CACHE_TTL_MS; obs := o |}].
Proof.
  intros Hlen. unfold remembered.
  destruct (Nat.leb_spec CACHE_MAX_ENTRIES (length (sweep now2 0 entries)));
    [lia|].
  apply shift_excess_fits. rewrite length_app. simpl. lia.
Qed.

(** At capacity, exactly one of them goes: one whose expiry is the
    earliest. *)
Lemma remembered_full entries k o now1 now2 :
  length (sweep now2 0 entries) = CACHE_MAX_ENTRIES ->
  exists victim rest,
    Permutation (sweep now2 0 entries) (victim :: rest) /\
    (forall e, In e rest -> expiry victim <= expiry e) /\
    remembered entries k o now1 now2 =
    rest ++ [{| key := k; expiry := now1 + CACHE_TTL_MS; obs := o |}].
Proof.
  intros Hlen. unfold remembered.
  set (live := sweep now2 0 entries) in *.
  rewrite Hlen. simpl.
  set (le := fun a b : CacheEntry => expiry a - expiry b <=? 0).
  pose proof (SeqFacts.stable_sort_Permutation le live) as Hperm.
  assert (Hsorted : StronglySorted (fun a b => expiry a <= expiry b)
                      (Seq.stable_sort le live)).
  { apply Sorted_StronglySorted; [intros a b c; lia|].
    eapply SeqFacts.Sorted_impl; [|apply SeqFacts.stable_sort_Sorted].
    - intros a b H. apply Z.leb_le in H. lia.
    - intros a b. unfold le.
      destruct (Z.leb_spec (expiry a - expiry b) 0); [now left|].
      right. apply Z.leb_le. lia. }
  destruct (Seq.stable_sort le live) as [|victim rest] eqn:Hs.
  { apply Permutation_length in Hperm. simpl in Hperm.
    rewrite Hlen in Hperm. discriminate. }
  exists victim, rest. split; [now symmetry|].
  apply StronglySorted_inv in Hsorted as [_ Hhd].
  split; [intros e He; revert e He; now apply List.Forall_forall|].
  simpl. apply shift_excess_fits.
  apply Permutation_length in Hperm. simpl in Hperm.
  rewrite length_app. simpl. unfold CACHE_MAX_ENTRIES in *. lia.
Qed.

(** What a miss leaves in the array it was given, by the number of entries
    that survive the sweep. *)
Lemma remembered_cases entries k o now1 now2 :
  (length entries <= CACHE_MAX_ENTRIES)%nat ->
  let live := sweep now2 0 entries in
  let new := {| key := k; expiry := now1 + CACHE_TTL_MS; obs := o |} in
  ((length live < CACHE_MAX_ENTRIES)%nat ->
   remembered entries k o now1 now2 = live ++ [new]) /\
  (length live = CACHE_MAX_ENTRIES ->
   exists victim rest,
     Permutation live (victim :: rest) /\
     (forall e, In e rest -> expiry victim <= expiry e) /\
     remembered entries k o now1 now2 = rest ++ [new] /\
     length (remembered entries k o now1 now2) = CACHE_MAX_ENTRIES) /\
  (length live <= CACHE_MAX_ENTRIES)%nat.
Proof.
  intros Hlen live new. split; [|split].
  - apply remembered_room.
  - intros Hfull.
    destruct (remembered_full entries k o now1 now2 Hfull)
      as (victim & rest & Hperm & Hmin & Hrem).
    exists victim, rest. repeat split; auto.
    rewrite Hrem, length_app. apply Permutation_length in Hperm.
    fold live in Hperm. simpl in *. lia.
  - etransitivity; [apply sweep_length|exact Hlen].
Qed.

Section Service.
Variable toLowerCase : string -> string.
Variable toUpperCase : string -> string.

Local Abbreviation cacheKey := (cacheKey toLowerCase toUpperCase).
Local Abbreviation search := (search toLowerCase toUpperCase).
Local Abbreviation getPeakAvailability := (getPeakAvailability toUpperCase).
Local Abbreviation peak_key := (peak_key toUpperCase).
Local Abbreviation step := (step toLowerCase toUpperCase).
Local Abbreviation run := (run toLowerCase toUpperCase).

Lemma remember_invariant s arg k o now1 now2 :
  invariant s -> invariant (remember s arg k o now1 now2).
Proof.
  intros (Hc & Hp & Hid). unfold remember, invariant.
  destruct (Nat.eqb _ _); simpl;
    repeat split; auto using remembered_length; lia.
Qed.

Lemma step_invariant s o : invariant s -> invariant (step s o).
Proof.
  intros (Hc & Hp & Hid).
  destruct o as [q now now1 now2|pn now now1 now2|k failed|k failed|k|k];
    simpl.
  - unfold Api.search.
    destruct (List.find _ _); simpl.
    + repeat split; simpl; auto.
      etransitivity; [apply filter_length_le|exact Hc].
    + apply remember_invariant. repeat split; simpl; auto.
      etransitivity; [apply filter_length_le|exact Hc].
  - unfold Api.getPeakAvailability.
    destruct (List.find _ _); simpl.
    + repeat split; simpl; auto.
      etransitivity; [apply filter_length_le|exact Hp].
    + apply remember_invariant. repeat split; simpl; auto.
      etransitivity; [apply filter_length_le|exact Hp].
  - unfold search_tap. destruct failed; simpl; repeat split; simpl; auto.
    etransitivity; [apply filter_length_le|exact Hc].
  - unfold peak_tap. destruct failed; simpl; repeat split; simpl; auto.
    etransitivity; [apply filter_length_le|exact Hp].
  - repeat split; assumption.
  - repeat split; assumption.
Qed.

Lemma run_invariant ops : invariant (run ops).
Proof.
  unfold Api.run. induction ops as [|o ops IH] using rev_ind.
  - repeat split; simpl; unfold CACHE_MAX_ENTRIES; lia.
  - rewrite fold_left_app. simpl. now apply step_invariant.
Qed.

(** A search that finds no live entry under its key stores a new one in the
    search cache and leaves the peak cache alone. *)
Lemma search_miss s q now now1 now2 :
  (forall e, In e (elems (cache s)) ->
             now < expiry e -> key e <> cacheKey q) ->
  let s' := snd (search q now now1 now2 s) in
  upstream (fst (search q now now1 now2 s)) = Some (search_params q) /\
  returned (fst (search q now now1 now2 s)) = next_obs s /\
  elems (cache s') =
    remembered (List.filter (fun e => now <? expiry e) (elems (cache s)))
               (cacheKey q) (next_obs s) now1 now2 /\
  elems (peakCache s') = elems (peakCache s).
Proof.
  intros Hmiss. unfold Api.search. simpl.
  replace (List.find _ _) with (@None CacheEntry).
  - simpl. unfold remember. simpl. rewrite Nat.eqb_refl. simpl. auto.
  - symmetry. apply find_none_iff. intros e He.
    apply filter_In in He as [He Hlive]. apply Z.ltb_lt in Hlive.
    destruct (String.eqb_spec (key e) (cacheKey q)); [|reflexivity].
    exfalso. eapply Hmiss; eauto.
Qed.

(** The same for a peak lookup, in a state whose search cache is an older
    array: the new entry goes to the peak cache. *)
Lemma peak_miss s partNumber now now1 now2 :
  (ident (cache s) < next_ident s)%nat ->
  (forall e, In e (elems (peakCache s)) ->
             now < expiry e -> key e <> peak_key partNumber) ->
  let s' := snd (getPeakAvailability partNumber now now1 now2 s) in
  upstream (fst (getPeakAvailability partNumber now now1 now2 s))
    = Some [("partNumber", trim partNumber)] /\
  returned (fst (getPeakAvailability partNumber now now1 now2 s))
    = next_obs s /\
  elems (peakCache s') =
    remembered (List.filter (fun e => now <? expiry e) (elems (peakCache s)))
               (peak_key partNumber) (next_obs s) now1 now2 /\
  elems (cache s') = elems (cache s).
Proof.
  intros Hid Hmiss. unfold Api.getPeakAvailability. simpl.
  replace (List.find _ _) with (@None CacheEntry).
  - simpl. unfold remember. simpl.
    destruct (Nat.eqb_spec (next_ident s) (ident (cache s))); [lia|].
    simpl. auto.
  - symmetry. apply find_none_iff. intros e He.
    apply filter_In in He as [He Hlive]. apply Z.ltb_lt in Hlive.
    destruct (String.eqb_spec (key e) (peak_key partNumber)); [|reflexivity].
    exfalso. eapply Hmiss; eauto.
Qed.

Lemma peak_upstream s partNumber now now1 now2 :
  (forall e, In e (elems (peakCache s)) ->
             now < expiry e -> key e <> peak_key partNumber) ->
  upstream (fst (getPeakAvailability partNumber now now1 now2 s))
    = Some [("partNumber", trim partNumber)].
Proof.
  intros Hmiss. unfold Api.getPeakAvailability. simpl.
  replace (List.find _ _) with (@None CacheEntry); [reflexivity|].
  symmetry. apply find_none_iff. intros e He.
  apply filter_In in He as [He Hlive]. apply Z.ltb_lt in Hlive.
  destruct (String.eqb_spec (key e) (peak_key partNumber)); [|reflexivity].
  exfalso. eapply Hmiss; eauto.
Qed.

Lemma filter_other_key k entries e :
  In e (List.filter (fun e => negb (String.eqb (key e) k)) entries) ->
  key e <> k.
Proof.
  intros He. apply filter_In in He as [_ He].
  apply negb_true_iff in He. now apply String.eqb_neq.
Qed.

(** In an array without two entries under one key, a lookup by key finds the
    entry that is there. *)
Lemma find_unique_key entries e :
  List.NoDup (map key entries) -> In e entries ->
  List.find (fun x => String.eqb (key x) (key e)) entries = Some e.
Proof.
  induction entries as [|a entries IH]; simpl; intros Hnd Hin;
    [contradiction|].
  apply List.NoDup_cons_iff in Hnd as [Ha Hnd].
  destruct Hin as [->|Hin]; [now rewrite String.eqb_refl|].
  destruct (String.eqb_spec (key a) (key e)) as [Heq|_]; [|now apply IH].
  exfalso. apply Ha. rewrite Heq. now apply in_map.
Qed.

Lemma NoDup_keys_filter (p : CacheEntry -> bool) entries :
  List.NoDup (map key entries) ->
  List.NoDup (map key (List.filter p entries)).
Proof.
  induction entries as [|x l IH]; simpl; intros H; [constructor|].
  apply List.NoDup_cons_iff in H as [Hx Hl].
  destruct (p x); simpl; [|auto].
  constructor; [|auto].
  intros Hin. apply Hx. apply in_map_iff in Hin as (y & Hy & Hin).
  apply filter_In in Hin as [Hin _]. apply in_map_iff. now exists y.
Qed.

(** C4. In every state the service can reach, each of the two caches holds at
    most five entries. A search (a peak lookup) that finds no live entry
    under its key first drops the expired entries of its cache; if fewer
    than five are left, it appends the new entry to them; if five are left,
    exactly one of them is dropped, one whose expiry is the earliest, the new
    entry is appended, and the cache holds five entries again. The other
    cache is untouched. *)
Theorem cache_capacity ops :
  let s := run ops in
  ((length (elems (cache s)) <= CACHE_MAX_ENTRIES)%nat /\
   (length (elems (peakCache s)) <= CACHE_MAX_ENTRIES)%nat) /\
  (forall q now now1 now2,
     (forall e, In e (elems (cache s)) ->
                now < expiry e -> key e <> cacheKey q) ->
     let s' := snd (search q now now1 now2 s) in
     let live := sweep now2 0 (List.filter (fun e => now <? expiry e)
                                           (elems (cache s))) in
     let new := {| key := cacheKey q; expiry := now1 + CACHE_TTL_MS;
                   obs := next_obs s |} in
     ((length live < CACHE_MAX_ENTRIES)%nat ->
      elems (cache s') = live ++ [new]) /\
     (length live = CACHE_MAX_ENTRIES ->
      exists victim rest,
        Permutation live (victim :: rest) /\
        (forall e, In e rest -> expiry victim <= expiry e) /\
        elems (cache s') = rest ++ [new] /\
        length (elems (cache s')) = CACHE_MAX_ENTRIES) /\
     (length live <= CACHE_MAX_ENTRIES)%nat /\
     elems (peakCache s') = elems (peakCache s)) /\
  (forall partNumber now now1 now2,
     (forall e, In e (elems (peakCache s)) ->
                now < expiry e -> key e <> peak_key partNumber) ->
     let s' := snd (getPeakAvailability partNumber now now1 now2 s) in
     let live := sweep now2 0 (List.filter (fun e => now <? expiry e)
                                           (elems (peakCache s))) in
     let new := {| key := peak_key partNumber; expiry := now1 + CACHE_TTL_MS;
                   obs := next_obs s |} in
     ((length live < CACHE_MAX_ENTRIES)%nat ->
      elems (peakCache s') = live ++ [new]) /\
     (length live = CACHE_MAX_ENTRIES ->
      exists victim rest,
        Permutation live (victim :: rest) /\
        (forall e, In e rest -> expiry victim <= expiry e) /\
        elems (peakCache s') = rest ++ [new] /\
        length (elems (peakCache s')) = CACHE_MAX_ENTRIES) /\
     (length live <= CACHE_MAX_ENTRIES)%nat /\
     elems (cache s') = elems (cache s)).
Proof.
  intros s. destruct (run_invariant ops) as (Hc & Hp & Hid).
  fold s in Hc, Hp, Hid.
  split; [split; assumption|]. split.
  - intros q now now1 now2 Hmiss s' live new.
    destruct (search_miss s q now now1 now2 Hmiss) as (_ & _ & Hcache & Hpeak).
    fold s' in Hcache, Hpeak. rewrite Hcache.
    destruct (remembered_cases
                (List.filter (fun e => now <? expiry e) (elems (cache s)))
                (cacheKey q) (next_obs s) now1 now2)
      as (Hroom & Hfull & Hle).
    { etransitivity; [apply filter_length_le|exact Hc]. }
    repeat split; assumption.
  - intros pn now now1 now2 Hmiss s' live new.
    destruct (peak_miss s pn now now1 now2 Hid Hmiss)
      as (_ & _ & Hpeak & Hcache).
    fold s' in Hcache, Hpeak. rewrite Hpeak.
    destruct (remembered_cases
                (List.filter (fun e => now <? expiry e) (elems (peakCache s)))
                (peak_key pn) (next_obs s) now1 now2)
      as (Hroom & Hfull & Hle).
    { etransitivity; [apply filter_length_le|exact Hp]. }
    repeat split; assumption.
Qed.

(** The entry a miss stores is the last of its array, behind entries of the
    array it was given. *)
Lemma remembered_last entries k o now1 now2 :
  exists rest,
    remembered entries k o now1 now2 =
      rest ++ [{| key := k; expiry := now1 + CACHE_TTL_MS; obs := o |}] /\
    (length rest < CACHE_MAX_ENTRIES)%nat /\
    (forall e, In e rest -> In e (sweep now2 0 entries)).
Proof.
  unfold remembered.
  set (live := sweep now2 0 entries).
  set (le := fun a b : CacheEntry => expiry a - expiry b <=? 0).
  destruct (Nat.leb_spec CACHE_MAX_ENTRIES (length live)) as [Hfull|Hroom].
  - exists (drop (length live - CACHE_MAX_ENTRIES + 1) (Seq.stable_sort le live)).
    assert (Hlen : length (drop (length live - CACHE_MAX_ENTRIES + 1)
                             (Seq.stable_sort le live)) = 4%nat).
    { rewrite length_drop, SeqFacts.stable_sort_length.
      unfold CACHE_MAX_ENTRIES in *. lia. }
    split; [|split].
    + apply shift_excess_fits. rewrite length_app, Hlen.
      simpl. unfold CACHE_MAX_ENTRIES. lia.
    + rewrite Hlen. unfold CACHE_MAX_ENTRIES. lia.
    + intros e He.
      eapply Permutation_in; [apply (SeqFacts.stable_sort_Permutation le)|].
      rewrite <- (take_drop (length live - CACHE_MAX_ENTRIES + 1)
                    (Seq.stable_sort le live)).
      apply in_or_app. now right.
  - exists live. split; [|split].
    + apply shift_excess_fits. rewrite length_app. simpl. lia.
    + exact Hroom.
    + auto.
Qed.

(** After a search that built a request, the cache ends with the new entry and
    holds no other entry under its key. *)
Lemma search_miss_shape s q now now1 now2 :
  upstream (fst (search q now now1 now2 s)) <> None ->
  returned (fst (search q now now1 now2 s)) = next_obs s /\
  exists rest,
    elems (cache (snd (search q now now1 now2 s))) =
      rest ++ [{| key := cacheKey q; expiry := now1 + CACHE_TTL_MS;
                  obs := next_obs s |}] /\
    (forall e, In e rest -> key e <> cacheKey q).
Proof.
  unfold Api.search. simpl.
  destruct (List.find _ _) as [hit|] eqn:Hfind; simpl; [congruence|].
  intros _. split; [reflexivity|].
  unfold remember. simpl. rewrite Nat.eqb_refl. simpl.
  destruct (remembered_last
              (List.filter (fun e => now <? expiry e) (elems (cache s)))
              (cacheKey q) (next_obs s) now1 now2)
    as (rest & Heq & _ & Hrest).
  exists rest. split; [exact Heq|].
  intros e He. apply Hrest, sweep_In in He.
  apply (List.find_none _ _ Hfind) in He. now apply String.eqb_neq.
Qed.

(** The same for a peak lookup, in a state whose search cache is an older
    array. *)
Lemma peak_miss_shape s partNumber now now1 now2 :
  (ident (cache s) < next_ident s)%nat ->
  upstream (fst (getPeakAvailability partNumber now now1 now2 s)) <> None ->
  returned (fst (getPeakAvailability partNumber now now1 now2 s))
    = next_obs s /\
  exists rest,
    elems (peakCache (snd (getPeakAvailability partNumber now now1 now2 s))) =
      rest ++ [{| key := peak_key partNumber; expiry := now1 + CACHE_TTL_MS;
                  obs := next_obs s |}] /\
    (forall e, In e rest -> key e <> peak_key partNumber).
Proof.
  intros Hid. unfold Api.getPeakAvailability. simpl.
  destruct (List.find _ _) as [hit|] eqn:Hfind; simpl; [congruence|].
  intros _. split; [reflexivity|].
  unfold remember. simpl.
  destruct (Nat.eqb_spec (next_ident s) (ident (cache s))); [lia|]. simpl.
  destruct (remembered_last
              (List.filter (fun e => now <? expiry e) (elems (peakCache s)))
              (peak_key partNumber) (next_obs s) now1 now2)
    as (rest & Heq & _ & Hrest).
  exists rest. split; [exact Heq|].
  intros e He. apply Hrest, sweep_In in He.
  apply (List.find_none _ _ Hfind) in He. now apply String.eqb_neq.
Qed.

Lemma find_app_none {A} (p : A -> bool) l1 l2 :
  (forall x, In x l1 -> p x = false) ->
  List.find p (l1 ++ l2) = List.find p l2.
Proof.
  induction l1 as [|x l1 IH]; simpl; intros H; [reflexivity|].
  rewrite (H x) by now left. apply IH. intros; apply H; now right.
Qed.

(** In an array that ends with the only entry under a key, a lookup of that
    key before the entry expires finds it. *)
Lemma find_last_live rest e k now :
  (forall x, In x rest -> key x <> k) -> key e = k -> now < expiry e ->
  List.find (fun x => String.eqb (key x) k)
    (List.filter (fun x => now <? expiry x) (rest ++ [e])) = Some e.
Proof.
  intros Hrest Hkey Hlive. rewrite List.filter_app. simpl.
  replace (now <? expiry e) with true by (symmetry; now apply Z.ltb_lt).
  rewrite find_app_none.
  - simpl. now rewrite Hkey, String.eqb_refl.
  - intros x Hx. apply filter_In in Hx as [Hx _].
    apply String.eqb_neq. now apply Hrest.
Qed.


End Service.

(** A sixth search, and a sixth peak lookup, each into its full cache. *)
Lemma cache_capacity_witness :
  let searched := snd (CacheExamples.search_at (CacheExamples.query "f") 5
                         CacheExamples.five_cached) in
  let looked_up := snd (CacheExamples.peak_at "PN-1005" 5
                          CacheExamples.five_looked_up) in
  (length (elems (cache searched)) = 5%nat /\
   length (elems (peakCache searched)) = 0%nat) /\
  (length (elems (peakCache looked_up)) = 5%nat /\
   length (elems (cache looked_up)) = 0%nat).
Proof.
  split.
  - destruct (cache_capacity Str.ascii_lower Str.ascii_upper
                CacheExamples.five_searches) as (_ & Hsearch & _).
    destruct (Hsearch (CacheExamples.query "f") 5 5 (CacheExamples.at_ 5))
      as (_ & Hfull & _ & Hother).
    + intros e He _. vm_compute in He.
      repeat (destruct He as [<-|He]; [vm_compute; congruence|]).
      contradiction.
    + destruct Hfull as (victim & rest & _ & _ & _ & Hlen);
        [vm_compute; reflexivity|].
      split; [exact Hlen|vm_compute; reflexivity].
  - destruct (cache_capacity Str.ascii_lower Str.ascii_upper
                CacheExamples.five_lookups) as (_ & _ & Hpeak).
    destruct (Hpeak "PN-1005" 5 5 (CacheExamples.at_ 5))
      as (_ & Hfull & _ & Hother).
    + intros e He _. vm_compute in He.
      repeat (destruct He as [<-|He]; [vm_compute; congruence|]).
      contradiction.
    + destruct Hfull as (victim & rest & _ & _ & _ & Hlen);
        [vm_compute; reflexivity|].
      split; [exact Hlen|vm_compute; reflexivity].
Defined.



End CacheFacts.

(** ** The cache key *)

Module KeyFacts.
Import Api.

Lemma sort_strings_Sorted l : Sorted String.le (sort_strings l).
Proof.
  eapply SeqFacts.Sorted_impl; [|apply SeqFacts.stable_sort_Sorted].
  - intros a b H. unfold String.le. now rewrite H.
  - intros a b. destruct (String.leb_total a b); auto.
Qed.

(** Sorting forgets the order the branches came in. *)
Lemma sort_strings_Permutation l1 l2 :
  Permutation l1 l2 -> sort_strings l1 = sort_strings l2.
Proof.
  intros H. apply (Sorted_unique String.le); try apply sort_strings_Sorted.
  unfold sort_strings.
  rewrite !SeqFacts.stable_sort_Permutation. exact H.
Qed.

Lemma join_no_char c d l :
  Ascii.eqb c d = false ->
  Forall (fun x => Str.has_char c x = false) l ->
  Str.has_char c (Str.join (String d "") l) = false.
Proof.
  intros Hcd. induction 1 as [|x l Hx Hl IH]; [reflexivity|].
  destruct l as [|y l]; [exact Hx|].
  change (Str.join (String d "") (x :: y :: l))
    with (x +:+ String d "" +:+ Str.join (String d "") (y :: l)).
  rewrite !StrFacts.has_char_app, Hx, IH. simpl. now rewrite Hcd.
Qed.

Section Service.
Variable toLowerCase : string -> string.
Variable toUpperCase : string -> string.

Local Abbreviation cacheKey := (cacheKey toLowerCase toUpperCase).
Local Abbreviation key_parts := (key_parts toLowerCase toUpperCase).
Local Abbreviation normalized := (normalized toLowerCase toUpperCase).
Local Abbreviation normalized_branches := (normalized_branches toUpperCase).
Local Abbreviation delimiter_free := (delimiter_free toLowerCase toUpperCase).

(** The parts of the key, read off the normal form. *)
Lemma key_parts_normalized q :
  key_parts q =
  [toLowerCase (trim (criteria q));
   by_ q;
   Str.join "|" (normalized_branches q);
   if onlyAvailable q then "1" else "0";
   "p" +:+ number_to_string (page q);
   "s" +:+ number_to_string (size q);
   match effective_sort q with
   | Some sp => field sp +:+ ":" +:+ SortDir_to_string (direction sp)
   | None => "nosort"
   end].
Proof.
  unfold Api.key_parts, effective_sort. repeat f_equal.
  destruct (sort q) as [sp|]; [|reflexivity].
  destruct (String.eqb (field sp) ""); reflexivity.
Qed.

Lemma cacheKey_of_normalized q1 q2 :
  normalized q1 = normalized q2 -> cacheKey q1 = cacheKey q2.
Proof.
  unfold Api.cacheKey, Api.normalized. rewrite !key_parts_normalized.
  intros [= -> -> -> -> -> -> ->]. reflexivity.
Qed.

Lemma cacheKey_respelled q w1 w2 bs :
  Str.all_ws Str.isJsWhiteSpace w1 = true ->
  Str.all_ws Str.isJsWhiteSpace w2 = true ->
  Permutation (match branches q with Some l => l | None => [] end) bs ->
  cacheKey (respelled q w1 w2 bs) = cacheKey q.
Proof.
  intros H1 H2 Hperm. apply cacheKey_of_normalized.
  unfold Api.normalized, Api.normalized_branches, effective_sort. simpl.
  unfold trim. rewrite StrFacts.trim_pad by assumption.
  rewrite (sort_strings_Permutation _ _
             (Permutation_map (fun b => toUpperCase (Str.trim Str.isJsWhiteSpace b))
                              (Permutation_sym Hperm))).
  reflexivity.
Qed.

Lemma sort_part_inj sp1 sp2 :
  Str.has_char ":" (field sp1) = false ->
  Str.has_char ":" (field sp2) = false ->
  field sp1 +:+ ":" +:+ SortDir_to_string (direction sp1) =
  field sp2 +:+ ":" +:+ SortDir_to_string (direction sp2) ->
  sp1 = sp2.
Proof.
  intros H1 H2 H. apply StrFacts.cut_unique in H as [Hf Hd]; [|assumption..].
  destruct sp1 as [f1 d1], sp2 as [f2 d2]. simpl in *. subst.
  destruct d1, d2; try discriminate; reflexivity.
Qed.

Lemma cacheKey_inj q1 q2 :
  delimiter_free q1 -> delimiter_free q2 ->
  cacheKey q1 = cacheKey q2 -> normalized q1 = normalized q2.
Proof.
  intros (Hc1 & Hb1 & Hr1 & Hs1) (Hc2 & Hb2 & Hr2 & Hs2).
  unfold Api.cacheKey, Api.normalized. rewrite !key_parts_normalized.
  assert (Hbar : forall q, Forall (fun b => b <> "" /\ Str.has_char ":" b = false
                                           /\ Str.has_char "|" b = false)
                                  (normalized_branches q) ->
                 Str.has_char ":" (Str.join "|" (normalized_branches q)) = false).
  { intros q Hq. apply join_no_char; [reflexivity|].
    eapply List.Forall_impl; [|exact Hq]. now intros b (_ & H & _). }
  assert (Hflag : forall b : bool,
             Str.has_char ":" (if b then "1" else "0") = false)
    by (intros []; reflexivity).
  assert (Hp : forall n,
             Str.has_char ":" (String "p" (number_to_string n)) = false)
    by (intros n; exact (StrFacts.number_no_colon n)).
  assert (Hs : forall n,
             Str.has_char ":" (String "s" (number_to_string n)) = false)
    by (intros n; exact (StrFacts.number_no_colon n)).
  simpl. rewrite !StrFacts.append_cons, !StrFacts.append_nil.
  intros H.
  apply StrFacts.cut_unique in H as [Ecrit H]; [|assumption..].
  injection H as H.
  apply StrFacts.cut_unique in H as [Eby H]; [|assumption..].
  injection H as H.
  apply StrFacts.cut_unique in H as [Ebr H]; [|now apply Hbar..].
  injection H as H.
  apply StrFacts.cut_unique in H as [Eav H]; [|apply Hflag..].
  injection H as H.
  apply StrFacts.cut_unique in H as [Ep H]; [|apply Hp..].
  injection H as H.
  apply StrFacts.cut_unique in H as [Es H]; [|apply Hs..].
  injection H as Esort.
  rewrite Ecrit, Eby.
  apply StrFacts.join_unique in Ebr.
  2,3: eapply List.Forall_impl; [|eassumption]; now intros b (? & _ & ?).
  rewrite Ebr.
  replace (onlyAvailable q2) with (onlyAvailable q1)
    by (destruct (onlyAvailable q1), (onlyAvailable q2);
        try reflexivity; discriminate).
  apply StrFacts.number_to_string_inj in Ep, Es.
  rewrite Ep, Es. f_equal.
  destruct (effective_sort q1) as [sp1|], (effective_sort q2) as [sp2|].
  - f_equal. now apply sort_part_inj.
  - apply (f_equal (Str.has_char ":")) in Esort.
    rewrite !StrFacts.has_char_app in Esort. simpl in Esort.
    rewrite orb_true_r in Esort. discriminate.
  - apply (f_equal (Str.has_char ":")) in Esort.
    rewrite !StrFacts.has_char_app in Esort. simpl in Esort.
    rewrite orb_true_r in Esort. discriminate.
  - reflexivity.
Qed.


End Service.



End KeyFacts.

(** ** The search orchestrator *)

Module PageFacts.
Import Api Page.

Section Component.
Variable Item : Type.
Variable toUpperCase : string -> string.
Variable debounce : Z.

Local Abbreviation Component := (Component Item).
Local Abbreviation process := (process Item toUpperCase).
Local Abbreviation emit := (emit Item toUpperCase debounce).
Local Abbreviation respond := (respond Item).
Local Abbreviation step := (step Item toUpperCase debounce).
Local Abbreviation run := (run Item toUpperCase debounce).
Local Abbreviation initial := (initial Item toUpperCase debounce).

(** The only subscription [switchMap] can hold is the one to the request
    issued last. *)
Local Abbreviation latest_only c :=
  (forall i, inner Item c = Some i -> S i = length (issued Item c)).

Lemma process_latest_only (c : Component) :
  latest_only c -> latest_only (process c).
Proof.
  intros H. unfold Page.process. destruct (buildQuery _ _ _) as [q|]; [|exact H].
  simpl. intros j [= <-]. rewrite length_app. simpl. lia.
Qed.

Lemma emit_latest_only (c : Component) :
  latest_only c -> latest_only (emit c).
Proof.
  intros H. unfold Page.emit. destruct (0 <? debounce); [exact H|].
  now apply process_latest_only.
Qed.

Lemma step_latest_only (c : Component) e :
  latest_only c -> latest_only (step c e).
Proof.
  intros H. destruct e as [v| |fld|p| |sub res]; simpl.
  - exact H.
  - unfold onSearch. destruct (form_invalid _); [exact H|].
    apply emit_latest_only. simpl.
    destruct (page_ Item c =? 0); [exact H|].
    apply emit_latest_only. exact H.
  - unfold onSort. apply emit_latest_only. simpl. apply emit_latest_only.
    exact H.
  - unfold onPageChange. apply emit_latest_only. exact H.
  - unfold debounce_elapsed. destruct (timer Item c); [|exact H].
    apply process_latest_only. exact H.
  - unfold Page.respond.
    destruct (inner Item c) as [cur|] eqn:Hcur in |- *; [|exact H].
    destruct (Nat.eqb cur sub); [|exact H]. simpl. discriminate.
Qed.

Lemma run_latest_only (c : Component) es :
  latest_only c -> latest_only (run c es).
Proof.
  revert c. induction es as [|e es IH]; intros c H; [exact H|].
  simpl. apply IH. now apply step_latest_only.
Qed.

Lemma initial_latest_only : latest_only initial.
Proof.
  unfold Page.initial. apply emit_latest_only, emit_latest_only.
  simpl. discriminate.
Qed.

(** Requests are only ever added. *)
Lemma step_issued_length (c : Component) e :
  (length (issued Item c) <= length (issued Item (step c e)))%nat.
Proof.
  assert (Hp : forall c : Component,
             (length (issued Item c) <= length (issued Item (process c)))%nat).
  { intros c0. unfold Page.process. destruct (buildQuery _ _ _); [|lia].
    simpl. rewrite length_app. lia. }
  assert (He : forall c : Component,
             (length (issued Item c) <= length (issued Item (emit c)))%nat).
  { intros c0. unfold Page.emit. destruct (0 <? debounce); [simpl; lia|].
    apply Hp. }
  destruct e as [v| |fld|p| |sub res]; simpl.
  - lia.
  - unfold onSearch. destruct (form_invalid _); [simpl; lia|].
    etransitivity; [|apply He]. simpl.
    destruct (page_ Item c =? 0); [simpl; lia|].
    etransitivity; [|apply He]. simpl. lia.
  - unfold onSort. etransitivity; [|apply He]. simpl.
    etransitivity; [|apply He]. simpl. lia.
  - unfold onPageChange. etransitivity; [|apply He]. simpl. lia.
  - unfold debounce_elapsed. destruct (timer Item c); [|lia].
    etransitivity; [|apply Hp]. simpl. lia.
  - unfold Page.respond. destruct (inner Item c) as [cur|]; [|lia].
    destruct (Nat.eqb cur sub); simpl; lia.
Qed.

(** A response to any request but the one issued last changes nothing. *)
Lemma respond_stale (c : Component) sub res :
  latest_only c -> S sub <> length (issued Item c) -> respond sub res c = c.
Proof.
  intros H Hsub. unfold Page.respond.
  destruct (inner Item c) as [cur|] eqn:Hcur in |- *; [|reflexivity].
  destruct (Nat.eqb_spec cur sub) as [->|]; [|reflexivity].
  apply H in Hcur. contradiction.
Qed.

(** C6 (amended). Once a new request has been issued (a trigger has passed the
    debounce window and built a valid query) while a request was outstanding,
    the response to the outstanding request, whenever it arrives, changes
    nothing: neither items, total nor error. *)
Theorem superseded_response_is_discarded es0 es1 old res :
  let c0 := run initial es0 in
  let c1 := run c0 es1 in
  inner Item c0 = Some old ->
  (length (issued Item c0) < length (issued Item c1))%nat ->
  step c1 (Response Item old res) = c1 /\
  published Item (step c1 (Response Item old res)) = published Item c1.
Proof.
  intros c0 c1 Hold Hnew.
  assert (H0 : latest_only c0) by apply run_latest_only, initial_latest_only.
  assert (H1 : latest_only c1) by now apply run_latest_only.
  assert (Heq : step c1 (Response Item old res) = c1).
  { simpl. apply respond_stale; [exact H1|]. apply H0 in Hold. lia. }
  split; [exact Heq|now rewrite Heq].
Qed.

Local Abbreviation Subscribed := (Subscribed Item).
Local Abbreviation deliver := (deliver Item toUpperCase debounce).
Local Abbreviation deliver_all := (deliver_all Item toUpperCase debounce).

(** Once the pipeline has ended, nothing issues a request or publishes
    results any more. *)
Local Abbreviation same_results c c' :=
  (issued Item c' = issued Item c /\ items_ Item c' = items_ Item c /\
   total_ Item c' = total_ Item c /\ inner Item c' = inner Item c).

Lemma step_unheard_keeps (c : Component) e :
  same_results c (step_unheard Item c e).
Proof.
  destruct e as [v| |fld|p| |sub res]; simpl; try (repeat split; fail).
  unfold onSearch_unheard. destruct (form_invalid _); repeat split.
Qed.

Lemma ended_keeps (s : Subscribed) ns :
  ended Item s = true ->
  ended Item (deliver_all s ns) = true /\
  same_results (component Item s) (component Item (deliver_all s ns)).
Proof.
  revert s. induction ns as [|n ns IH]; intros s Hs; [repeat split; exact Hs|].
  unfold Page.deliver_all. simpl. fold (deliver_all (deliver s n) ns).
  assert (Hstep : ended Item (deliver s n) = true /\
                  same_results (component Item s)
                               (component Item (deliver s n))).
  { destruct n as [e|sub]; simpl.
    - rewrite Hs. simpl. split; [reflexivity|apply step_unheard_keeps].
    - unfold Page.fail. rewrite Hs. repeat split; exact Hs. }
  destruct Hstep as (He & Hi & Hit & Ht & Hin).
  destruct (IH _ He) as (He' & Hi' & Hit' & Ht' & Hin').
  repeat split; congruence.
Qed.


End Component.

Lemma superseded_response_is_discarded_witness :
  let c1 := Page.run string Str.ascii_upper 50
              (PageExamples.run50 PageExamples.searching)
              [OnPageChange string 1; DebounceElapsed string] in
  Page.step string Str.ascii_upper 50 c1 (Response string 0 PageExamples.found)
    = c1 /\
  published string
    (Page.step string Str.ascii_upper 50 c1
       (Response string 0 PageExamples.found))
    = published string c1.
Proof.
  pose proof (superseded_response_is_discarded string Str.ascii_upper 50
                PageExamples.searching
                [OnPageChange string 1; DebounceElapsed string]
                0%nat PageExamples.found) as H.
  cbv zeta in H.
  assert (H1 : inner string
                 (Page.run string Str.ascii_upper 50
                    (initial string Str.ascii_upper 50) PageExamples.searching)
               = Some 0%nat)
    by (vm_compute; reflexivity).
  specialize (H H1).
  assert (H2 : (length
                  (issued string
                     (Page.run string Str.ascii_upper 50
                        (initial string Str.ascii_upper 50)
                        PageExamples.searching)) <
                length
                  (issued string
                     (Page.run string Str.ascii_upper 50
                        (Page.run string Str.ascii_upper 50
                           (initial string Str.ascii_upper 50)
                           PageExamples.searching)
                        [OnPageChange string 1; DebounceElapsed string])))%nat)
    by (vm_compute; lia).
  exact (H H2).
Defined.

(** C6 as stated fails: a page change arrives while request 0 is outstanding;
    the response to request 0 arrives before the debounce window has elapsed
    and is published. *)
Lemma response_within_debounce_is_published :
  inner string (PageExamples.run50 PageExamples.searching) = Some 0%nat /\
  published string (PageExamples.run50 PageExamples.searching)
    = ([], 0, None) /\
  published string (PageExamples.run50 PageExamples.overtaken)
    = (["PN-1000"], 1, None).
Proof. repeat split; vm_compute; reflexivity. Qed.



End PageFacts.

(** ** More about searching *)

Module SearchFacts.
Import CSharp Inventory InventoryMore.

Lemma In_Take {A} (n : Z) (l : list A) x : In x (Take n l) -> In x l.
Proof.
  unfold Take. destruct (n <=? 0); [contradiction|].
  intros H. rewrite <- (take_drop (Z.to_nat n) l). apply in_or_app. now left.
Qed.

Lemma In_Skip {A} (n : Z) (l : list A) x : In x (Skip n l) -> In x l.
Proof.
  unfold Skip. destruct (n <=? 0); [auto|].
  intros H. rewrite <- (take_drop (Z.to_nat n) l). apply in_or_app. now right.
Qed.

Lemma Take_length {A} (n : Z) (l : list A) :
  0 < n -> Z.of_nat (length (Take n l)) <= n /\
           (length (Take n l) <= length l)%nat.
Proof.
  intros Hn. unfold Take. destruct (Z.leb_spec n 0) as [?|_]; [lia|].
  rewrite length_take. lia.
Qed.

Lemma Skip_length {A} (n : Z) (l : list A) :
  (length (Skip n l) <= length l)%nat.
Proof.
  unfold Skip. destruct (n <=? 0); [lia|]. rewrite length_drop. lia.
Qed.

Lemma StronglySorted_take {A} (R : A -> A -> Prop) n l :
  StronglySorted R l -> StronglySorted R (take n l).
Proof.
  intros H. revert n. induction H as [|x l Hl IH Hx]; intros [|n]; simpl;
    try constructor; auto.
  apply List.Forall_forall. intros y Hy.
  assert (In y l) as Hy'
    by (rewrite <- (take_drop n l); apply in_or_app; now left).
  clear Hy. revert y Hy'. now apply List.Forall_forall.
Qed.

Lemma StronglySorted_drop {A} (R : A -> A -> Prop) n l :
  StronglySorted R l -> StronglySorted R (drop n l).
Proof.
  intros H. revert n. induction H as [|x l Hl IH Hx]; intros [|n]; simpl;
    try constructor; auto.
Qed.

Lemma StronglySorted_Take_Skip {A} (R : A -> A -> Prop) n m (l : list A) :
  StronglySorted R l -> StronglySorted R (Take n (Skip m l)).
Proof.
  intros H. unfold Take, Skip.
  destruct (n <=? 0); [constructor|].
  apply StronglySorted_take. destruct (m <=? 0); [exact H|].
  now apply StronglySorted_drop.
Qed.

Lemma take_take_drop {A} n m (l : list A) :
  take n l ++ take m (drop n l) = take (n + m) l.
Proof.
  revert l. induction n as [|n IH]; intros [|x l]; simpl; try reflexivity.
  - now rewrite take_nil.
  - f_equal. apply IH.
Qed.

Section Service.
Variable ToUpperInvariant : string -> string.
Variable ToLowerInvariant : string -> string.
Variable CompareString : string -> string -> comparison.

Local Abbreviation matches_filters := (matches_filters ToUpperInvariant).
Local Abbreviation filtered_sorted :=
  (filtered_sorted ToUpperInvariant ToLowerInvariant CompareString).
Local Abbreviation SearchInventoryAsync :=
  (SearchInventoryAsync ToUpperInvariant ToLowerInvariant CompareString).
Local Abbreviation sort_spec := (sort_spec ToLowerInvariant).
Local Abbreviation order := (order ToLowerInvariant CompareString).
Local Abbreviation requested_codes := (requested_codes ToUpperInvariant).

(** X1. Whatever the page and the size, overflow included, a search returns
    only records of the record set that pass all three filters, never more of
    them than the effective page size, and never more than the total. *)
Theorem search_page_sound request all result :
  SearchInventoryAsync (Some request) all = Ok result ->
  (forall i, In i (Items result) ->
             In i all /\ matches_filters request i = true) /\
  Z.of_nat (length (Items result)) <= effective_size request /\
  Z.of_nat (length (Items result)) <= Total result.
Proof.
  intros [= <-]. simpl.
  assert (Hsize : 0 < effective_size request).
  { unfold effective_size. destruct (Z.leb_spec (Size request) 0); lia. }
  split; [|split].
  - intros i Hi. apply In_Take, In_Skip in Hi.
    apply (Permutation_in _
             (InventoryFacts.filtered_sorted_Permutation
                ToUpperInvariant ToLowerInvariant CompareString request all))
      in Hi.
    now apply filter_In in Hi.
  - now apply Take_length.
  - pose proof (Take_length (effective_size request)
                  (Skip (mul32 (effective_page request) (effective_size request))
                        (filtered_sorted request all)) Hsize) as [_ H1].
    pose proof (Skip_length
                  (mul32 (effective_page request) (effective_size request))
                  (filtered_sorted request all)) as H2.
    lia.
Qed.

(** X2. Two consecutive pages of one search are adjacent slices of the
    filtered and sorted sequence: page [p] followed by page [p + 1] is the
    slice of twice the size starting at [p * size], as long as
    [(p + 2) * size] fits in an [int]. *)
Theorem search_consecutive_pages request all p r1 r2 :
  0 <= p ->
  (p + 2) * effective_size request <= Int32_MaxValue ->
  SearchInventoryAsync (Some (set_page request p (Size request))) all = Ok r1 ->
  SearchInventoryAsync (Some (set_page request (p + 1) (Size request))) all
    = Ok r2 ->
  Items r1 ++ Items r2 =
    take (Z.to_nat (2 * effective_size request))
         (drop (Z.to_nat (p * effective_size request))
               (filtered_sorted request all)) /\
  Z.of_nat (length (Items r1 ++ Items r2)) =
    Z.min (2 * effective_size request)
          (Z.max 0 (Total r1 - p * effective_size request)).
Proof.
  intros Hp Hfit [= <-] [= <-]. simpl.
  assert (Hsize : 0 < effective_size request).
  { unfold effective_size. destruct (Z.leb_spec (Size request) 0); lia. }
  change (effective_size (set_page request p (Size request)))
    with (effective_size request).
  change (effective_size (set_page request (p + 1) (Size request)))
    with (effective_size request).
  change (Inventory.filtered_sorted ToUpperInvariant ToLowerInvariant
            CompareString (set_page request p (Size request)) all)
    with (filtered_sorted request all).
  change (Inventory.filtered_sorted ToUpperInvariant ToLowerInvariant
            CompareString (set_page request (p + 1) (Size request)) all)
    with (filtered_sorted request all).
  replace (effective_page (set_page request p (Size request))) with p
    by (unfold effective_page; simpl; destruct (Z.ltb_spec p 0); lia).
  replace (effective_page (set_page request (p + 1) (Size request)))
    with (p + 1)
    by (unfold effective_page; simpl; destruct (Z.ltb_spec (p + 1) 0); lia).
  set (size := effective_size request) in *.
  set (l := filtered_sorted request all).
  unfold mul32. rewrite !InventoryFacts.wrap32_small
    by (unfold Int32_MinValue, Int32_MaxValue in *; nia).
  rewrite !InventoryFacts.Skip_drop, !InventoryFacts.Take_take by nia.
  assert (Hcat : take (Z.to_nat size) (drop (Z.to_nat (p * size)) l) ++
                 take (Z.to_nat size) (drop (Z.to_nat ((p + 1) * size)) l) =
                 take (Z.to_nat (2 * size)) (drop (Z.to_nat (p * size)) l)).
  { replace (Z.to_nat ((p + 1) * size))
      with (Z.to_nat (p * size) + Z.to_nat size)%nat by nia.
    rewrite <- drop_drop, take_take_drop. f_equal. lia. }
  split; [exact Hcat|].
  rewrite Hcat, length_take, length_drop. lia.
Qed.

End Service.

Lemma StronglySorted_impl {A} (R R' : A -> A -> Prop) l :
  (forall a b, R a b -> R' a b) -> StronglySorted R l -> StronglySorted R' l.
Proof.
  intros HR. induction 1 as [|x l Hl IH Hx]; constructor; [assumption|].
  eapply List.Forall_impl; [|exact Hx]. auto.
Qed.

(** [OrderBy] on integer keys: every element is at most as large as all that
    follow, and elements with equal keys keep their order. *)
Lemma OrderBy_sorted {A} (key : A -> Z) l :
  StronglySorted (fun a b => key a <= key b) (OrderBy Z.compare key l).
Proof.
  apply Sorted_StronglySorted; [intros a b c; lia|].
  eapply SeqFacts.Sorted_impl; [|apply SeqFacts.stable_sort_Sorted].
  - intros a b. simpl. destruct (Z.compare_spec (key a) (key b)); intros; lia.
  - intros a b. simpl.
    destruct (Z.compare_spec (key a) (key b)), (Z.compare_spec (key b) (key a));
      auto; lia.
Qed.

Lemma OrderBy_stable {A} (key : A -> Z) l q :
  List.filter (fun a => key a =? q) (OrderBy Z.compare key l) =
  List.filter (fun a => key a =? q) l.
Proof.
  apply SeqFacts.stable_sort_filter. intros a b Ha Hb.
  apply Z.eqb_eq in Ha, Hb. rewrite Ha, Hb, Z.compare_refl. reflexivity.
Qed.

Lemma stable_sort_ext {A} (le le' : A -> A -> bool) l :
  (forall a b, le a b = le' a b) ->
  Seq.stable_sort le l = Seq.stable_sort le' l.
Proof.
  intros H. induction l as [|x l IH]; simpl; [reflexivity|].
  rewrite IH. generalize (Seq.stable_sort le' l). intros s.
  induction s as [|y s IHs]; simpl; [reflexivity|].
  now rewrite H, IHs.
Qed.

Section Sorting.
Variable ToUpperInvariant : string -> string.
Variable ToLowerInvariant : string -> string.
Variable CompareString : string -> string -> comparison.

Local Abbreviation matches_filters := (matches_filters ToUpperInvariant).
Local Abbreviation filtered_sorted :=
  (filtered_sorted ToUpperInvariant ToLowerInvariant CompareString).
Local Abbreviation SearchInventoryAsync :=
  (SearchInventoryAsync ToUpperInvariant ToLowerInvariant CompareString).
Local Abbreviation sort_spec := (sort_spec ToLowerInvariant).
Local Abbreviation order := (order ToLowerInvariant CompareString).
Local Abbreviation requested_codes := (requested_codes ToUpperInvariant).
Local Abbreviation where_branches := (where_branches ToUpperInvariant).

(** The three [Where] stages are one filter by the conjunction. *)
Lemma filters_compose request all :
  where_available request
    (where_branches request
       (Inventory.where_criteria ToUpperInvariant request all)) =
  List.filter (matches_filters request) all.
Proof.
  rewrite InventoryFacts.where_criteria_filter,
    InventoryFacts.where_branches_filter,
    InventoryFacts.where_available_filter.
  rewrite !InventoryFacts.filter_filter. apply List.filter_ext.
  intros i. unfold Inventory.matches_filters. now rewrite andb_assoc.
Qed.

(** The order on an integer field. *)
Lemma order_by_integer request (k : InventoryItem -> Z) query :
  (forall i, keySelector (fst (sort_spec request)) i = KInt (k i)) ->
  order request query =
  if String.eqb (snd (sort_spec request)) "desc"
  then OrderByDescending Z.compare k query
  else OrderBy Z.compare k query.
Proof.
  intros Hkey. unfold Inventory.order.
  destruct (Inventory.sort_spec ToLowerInvariant request) as [f d].
  simpl in *.
  destruct (String.eqb d "desc"); unfold OrderByDescending, OrderBy;
    apply stable_sort_ext; intros a b; now rewrite !Hkey.
Qed.
(** X3. With the sort field "availableQty" the returned page is ordered by
    available quantity, descending for the direction "desc" and ascending for
    any other, and records with the same quantity keep the order they have in
    the record set. *)
Theorem search_sorted_by_quantity request all result :
  fst (sort_spec request) = "availableqty" ->
  SearchInventoryAsync (Some request) all = Ok result ->
  (if String.eqb (snd (sort_spec request)) "desc"
   then StronglySorted (fun a b => AvailableQty b <= AvailableQty a)
                       (Items result)
   else StronglySorted (fun a b => AvailableQty a <= AvailableQty b)
                       (Items result)) /\
  (forall q,
     List.filter (fun i => AvailableQty i =? q) (filtered_sorted request all) =
     List.filter (fun i => AvailableQty i =? q)
                 (List.filter (matches_filters request) all)).
Proof.
  intros Hfield [= <-]. simpl.
  assert (Hkey : forall i,
             keySelector (fst (sort_spec request)) i = KInt (AvailableQty i))
    by (intros i; now rewrite Hfield).
  unfold Inventory.filtered_sorted.
  rewrite (order_by_integer request AvailableQty _ Hkey), filters_compose.
  destruct (String.eqb (snd (sort_spec request)) "desc"); split.
  - apply StronglySorted_Take_Skip, PeakFacts.OrderByDescending_sorted.
  - intros q. apply PeakFacts.OrderByDescending_stable.
  - apply StronglySorted_Take_Skip, OrderBy_sorted.
  - intros q. apply OrderBy_stable.
Qed.

(** X4. With the sort field "leadTimeDays" a record without a lead time counts
    as [Int32.MaxValue]: in ascending order no record with a smaller lead time
    comes after a record without one, in descending order none comes before
    one. *)
Theorem search_missing_lead_time request all result :
  fst (sort_spec request) = "leadtimedays" ->
  SearchInventoryAsync (Some request) all = Ok result ->
  if String.eqb (snd (sort_spec request)) "desc"
  then StronglySorted
         (fun a b => LeadTimeDays b = None ->
                     forall d, LeadTimeDays a = Some d -> Int32_MaxValue <= d)
         (Items result)
  else StronglySorted
         (fun a b => LeadTimeDays a = None ->
                     forall d, LeadTimeDays b = Some d -> Int32_MaxValue <= d)
         (Items result).
Proof.
  intros Hfield [= <-]. simpl.
  set (lead := fun i => match LeadTimeDays i with
                        | Some d => d
                        | None => Int32_MaxValue
                        end).
  assert (Hkey : forall i, keySelector (fst (sort_spec request)) i = KInt (lead i))
    by (intros i; now rewrite Hfield).
  unfold Inventory.filtered_sorted.
  rewrite (order_by_integer request lead _ Hkey).
  destruct (String.eqb (snd (sort_spec request)) "desc");
    apply StronglySorted_Take_Skip.
  - eapply StronglySorted_impl; [|apply PeakFacts.OrderByDescending_sorted].
    unfold lead. intros a b Hle Hb d Ha. rewrite Ha, Hb in Hle. exact Hle.
  - eapply StronglySorted_impl; [|apply OrderBy_sorted].
    unfold lead. intros a b Hle Ha d Hb. rewrite Ha, Hb in Hle. exact Hle.
Qed.

(** A slice of a sorted sequence is sorted. *)
Lemma Sorted_drop {A} (R : A -> A -> Prop) n l :
  Sorted R l -> Sorted R (drop n l).
Proof.
  revert l. induction n as [|n IH]; intros [|x l] H; simpl; auto.
  apply IH. now inversion H.
Qed.

Lemma Sorted_take {A} (R : A -> A -> Prop) n l :
  Sorted R l -> Sorted R (take n l).
Proof.
  intros H. revert n. induction H as [|x l Hl IH Hx]; intros [|n]; simpl;
    try constructor; auto.
  destruct Hx as [|y l' Hxy]; destruct n; simpl; constructor; auto.
Qed.

Lemma Sorted_Take_Skip {A} (R : A -> A -> Prop) n m (l : list A) :
  Sorted R l -> Sorted R (Take n (Skip m l)).
Proof.
  intros H. unfold Take, Skip.
  destruct (n <=? 0); [constructor|].
  apply Sorted_take. destruct (m <=? 0); [exact H|now apply Sorted_drop].
Qed.

(** X5. A sort string without a colon is ignored: the search returns what it
    returns for a request without a sort string, and its page is ordered by
    part number ascending (a missing part number counting as the empty
    string), in the order the runtime's string comparison gives. *)
Theorem search_sort_without_colon request all s :
  (forall a b, CompareString a b = Gt -> CompareString b a <> Gt) ->
  Str.has_char ":" s = false ->
  SearchInventoryAsync (Some (set_sort request (Some s))) all =
    SearchInventoryAsync (Some (set_sort request None)) all /\
  sort_spec (set_sort request (Some s)) = ("partNumber", "asc") /\
  (forall result,
     SearchInventoryAsync (Some (set_sort request (Some s))) all = Ok result ->
     Sorted (fun a b =>
               CompareString (coalesce (PartNumber a) "")
                             (coalesce (PartNumber b) "") <> Gt)
            (Items result)).
Proof.
  intros Hcmp Hs.
  assert (Hspec : sort_spec (set_sort request (Some s)) = ("partNumber", "asc")).
  { unfold Inventory.sort_spec. simpl. rewrite Hs. now rewrite andb_false_r. }
  split; [|split; [exact Hspec|]].
  - unfold Inventory.SearchInventoryAsync, Inventory.filtered_sorted,
      Inventory.order.
    rewrite Hspec. reflexivity.
  - intros result [= <-]. simpl. apply Sorted_Take_Skip.
    unfold Inventory.filtered_sorted, Inventory.order. rewrite Hspec.
    simpl. unfold OrderBy.
    eapply SeqFacts.Sorted_impl; [|apply SeqFacts.stable_sort_Sorted].
    + intros a b. unfold keySelector. simpl.
      destruct (CompareString _ _); congruence.
    + intros a b. unfold keySelector. simpl.
      destruct (CompareString (coalesce (PartNumber a) "")
                  (coalesce (PartNumber b) "")) eqn:Hab; auto.
      right. apply Hcmp in Hab.
      destruct (CompareString (coalesce (PartNumber b) "")
                  (coalesce (PartNumber a) "")); congruence.
Qed.

(** X6. The branch filter depends on the set of requested codes only, trimmed
    and upper-cased: two non-blank branch lists with the same codes, in any
    order, with any repetition and with any empty entries, give the same
    search. *)
Theorem search_branch_codes_as_set request all branches' :
  IsNullOrWhiteSpace (Branches request) = false ->
  IsNullOrWhiteSpace branches' = false ->
  (forall c, In c (requested_codes request) <->
             In c (requested_codes (set_branches request branches'))) ->
  SearchInventoryAsync (Some request) all =
  SearchInventoryAsync (Some (set_branches request branches')) all.
Proof.
  intros H1 H2 Hcodes.
  assert (Hw : forall query,
             where_branches request query =
             where_branches (set_branches request branches') query).
  { intros query. unfold Inventory.where_branches. simpl. rewrite H1, H2. simpl.
    apply List.filter_ext. intros i. apply bool_decide_ext.
    rewrite !elem_of_list_to_set, !list_elem_of_In. apply Hcodes. }
  unfold Inventory.SearchInventoryAsync, Inventory.filtered_sorted.
  rewrite Hw. reflexivity.
Qed.

End Sorting.

(** The first page of two of a search for "pn-": two records come back, both
    from the shelf and both matching. *)
Lemma search_page_sound_witness :
  let request := sorted_request "availableQty:desc" 0 2 in
  exists result,
    Examples.search (Some request) shelf = Ok result /\
    map Description (Items result) =
      [Some "Mock part 1 - premium"; Some "Mock part 2 - premium"] /\
    (forall i, In i (Items result) ->
               In i shelf /\ matches_filters Str.ascii_upper request i = true) /\
    Z.of_nat (length (Items result)) <= effective_size request /\
    Z.of_nat (length (Items result)) <= Total result.
Proof.
  intros request. eexists. split; [vm_compute; reflexivity|].
  split; [reflexivity|].
  refine (search_page_sound Str.ascii_upper Str.ascii_lower String.compare
            request shelf _ _).
  vm_compute. reflexivity.
Defined.

Lemma search_consecutive_pages_witness :
  exists r1 r2,
    Examples.search (Some (set_page (sorted_request "availableQty:desc" 0 1) 1 1))
                    shelf = Ok r1 /\
    Examples.search (Some (set_page (sorted_request "availableQty:desc" 0 1) 2 1))
                    shelf = Ok r2 /\
    Z.of_nat (length (Items r1 ++ Items r2)) = 2.
Proof.
  eexists. eexists. split; [vm_compute; reflexivity|].
  split; [vm_compute; reflexivity|].
  refine (eq_trans
            (proj2 (search_consecutive_pages Str.ascii_upper Str.ascii_lower
                      String.compare (sorted_request "availableQty:desc" 0 1)
                      shelf 1 _ _ _ _ _ _)) _).
  - lia.
  - vm_compute. discriminate.
  - vm_compute. reflexivity.
  - vm_compute. reflexivity.
  - vm_compute. reflexivity.
Defined.

Lemma search_sorted_by_quantity_witness :
  exists result,
    Examples.search (Some (sorted_request " AvailableQty : DESC " 0 3)) shelf
      = Ok result /\
    StronglySorted (fun a b => AvailableQty b <= AvailableQty a) (Items result).
Proof.
  eexists. split; [vm_compute; reflexivity|].
  refine (proj1 (search_sorted_by_quantity Str.ascii_upper Str.ascii_lower
                   String.compare (sorted_request " AvailableQty : DESC " 0 3)
                   shelf _ _ _)).
  - vm_compute. reflexivity.
  - vm_compute. reflexivity.
Defined.

Lemma search_missing_lead_time_witness :
  exists result,
    Examples.search (Some (sorted_request "leadTimeDays:asc" 0 4)) shelf
      = Ok result /\
    map LeadTimeDays (Items result) = [Some 3; Some 12; None; None] /\
    StronglySorted
      (fun a b => LeadTimeDays a = None ->
                  forall d, LeadTimeDays b = Some d -> Int32_MaxValue <= d)
      (Items result).
Proof.
  eexists. split; [vm_compute; reflexivity|].
  split; [vm_compute; reflexivity|].
  refine (search_missing_lead_time Str.ascii_upper Str.ascii_lower
            String.compare (sorted_request "leadTimeDays:asc" 0 4) shelf
            _ _ _).
  - vm_compute. reflexivity.
  - vm_compute. reflexivity.
Defined.

(** A search sorted by "description", which has no colon: PN-1000, PN-1001,
    PN-1001, PN-1002 come back in that order. *)
Lemma search_sort_without_colon_witness :
  exists result,
    Examples.search (Some (sorted_request "description" 0 4)) shelf
      = Ok result /\
    map PartNumber (Items result) =
      [Some "PN-1000"; Some "PN-1001"; Some "PN-1001"; Some "PN-1002"] /\
    Sorted (fun a b =>
              String.compare (coalesce (PartNumber a) "")
                             (coalesce (PartNumber b) "") <> Gt)
           (Items result).
Proof.
  eexists. split; [vm_compute; reflexivity|]. split; [reflexivity|].
  refine (proj2 (proj2 (search_sort_without_colon Str.ascii_upper
                          Str.ascii_lower String.compare
                          (sorted_request "description" 0 4) shelf
                          "description" _ eq_refl)) _ _).
  - intros a b Hab. rewrite String.compare_antisym, Hab. discriminate.
  - vm_compute. reflexivity.
Defined.

Lemma search_branch_codes_as_set_witness :
  Examples.search
    (Some (set_branches (Examples.request "pn-" "PartNumber" 0 20)
                        (Some "sea, sfo"))) shelf =
  Examples.search
    (Some (set_branches (Examples.request "pn-" "PartNumber" 0 20)
                        (Some " SFO,,Sea ,sea"))) shelf.
Proof.
  apply (search_branch_codes_as_set Str.ascii_upper Str.ascii_lower
           String.compare
           (set_branches (Examples.request "pn-" "PartNumber" 0 20)
                         (Some "sea, sfo"))
           shelf (Some " SFO,,Sea ,sea")).
  - reflexivity.
  - reflexivity.
  - intros c. vm_compute. tauto.
Defined.

End SearchFacts.

(** ** More about peak availability *)

Module PeakMoreFacts.
Import CSharp Inventory InventoryMore.

Lemma all_ws_app ws a b :
  Str.all_ws ws (a +:+ b) = Str.all_ws ws a && Str.all_ws ws b.
Proof.
  induction a as [|c a IH]; [reflexivity|].
  rewrite StrFacts.append_cons. simpl. now rewrite IH, andb_assoc.
Qed.

Section Service.
Variable ToUpperInvariant : string -> string.

Local Abbreviation FindByPartNumberAsync :=
  (FindByPartNumberAsync ToUpperInvariant).
Local Abbreviation GetPeakAvailabilityAsync :=
  (GetPeakAvailabilityAsync ToUpperInvariant).
Local Abbreviation branch_totals := (branch_totals ToUpperInvariant).
Local Abbreviation branch_key := (branch_key ToUpperInvariant).
Local Abbreviation controller_GetPeakAvailability :=
  (controller_GetPeakAvailability ToUpperInvariant).

(** X7. White space around the part identifier never changes the outcome of a
    peak lookup: the same exception, or the same result. *)
Theorem peak_ignores_surrounding_space _items w1 partNumber w2 :
  Str.all_ws Str.IsWhiteSpace w1 = true ->
  Str.all_ws Str.IsWhiteSpace w2 = true ->
  GetPeakAvailabilityAsync _items (Some (w1 +:+ partNumber +:+ w2)) =
  GetPeakAvailabilityAsync _items (Some partNumber).
Proof.
  intros H1 H2. unfold Inventory.GetPeakAvailabilityAsync.
  assert (Hblank : IsNullOrWhiteSpace (Some (w1 +:+ partNumber +:+ w2)) =
                   IsNullOrWhiteSpace (Some partNumber)).
  { simpl. rewrite !all_ws_app, H1, H2. simpl. now rewrite andb_true_r. }
  assert (Htrim : Trim (w1 +:+ partNumber +:+ w2) = Trim partNumber)
    by now apply StrFacts.trim_pad.
  rewrite Hblank. unfold Inventory.FindByPartNumberAsync. simpl.
  rewrite Htrim. reflexivity.
Qed.


(** Past the argument check the only exception is the overflow of a sum. *)
Lemma peak_throws_overflow_only _items partNumber e :
  IsNullOrWhiteSpace partNumber = false ->
  GetPeakAvailabilityAsync _items partNumber = Throw e ->
  e = OverflowException.
Proof.
  intros Hblank Hrun. unfold Inventory.GetPeakAvailabilityAsync in Hrun.
  rewrite Hblank in Hrun.
  destruct (FindByPartNumberAsync _items partNumber); [discriminate|].
  destruct (Inventory.grouped _ _) as [g|e'] eqn:Hg; simpl in Hrun.
  - destruct (Sum Qty g) as [t|e''] eqn:Ht; simpl in Hrun; [discriminate|].
    apply LinqFacts.Sum_overflow in Ht. congruence.
  - apply PeakFacts.grouped_overflow in Hg. congruence.
Qed.

(** X9. The peak endpoint answers 400 exactly for a blank part number and 200
    with the service's result when the service returns one; the only answer
    500 comes from an overflowing sum, so the service's own argument check is
    never what fails a request. *)
Theorem controller_peak_statuses _items partNumber :
  (fst (controller_GetPeakAvailability _items partNumber) = 400 <->
   IsNullOrWhiteSpace partNumber = true) /\
  (fst (controller_GetPeakAvailability _items partNumber) = 500 <->
   GetPeakAvailabilityAsync _items partNumber = Throw OverflowException) /\
  (forall r, controller_GetPeakAvailability _items partNumber = (200, Some r) <->
             GetPeakAvailabilityAsync _items partNumber = Ok r).
Proof.
  unfold InventoryMore.controller_GetPeakAvailability.
  destruct (IsNullOrWhiteSpace partNumber) eqn:Hblank.
  - assert (Hthrow : GetPeakAvailabilityAsync _items partNumber
                     = Throw ArgumentException)
      by (unfold Inventory.GetPeakAvailabilityAsync; now rewrite Hblank).
    rewrite Hthrow. simpl. repeat split; intros; try discriminate; auto.
  - destruct (GetPeakAvailabilityAsync _items partNumber) as [r|e] eqn:Hrun;
      simpl.
    + repeat split; intros; try discriminate; try congruence.
    + assert (e = OverflowException) as ->
        by (eapply peak_throws_overflow_only; eassumption).
      repeat split; intros; try discriminate; auto.
Qed.

End Service.

Lemma peak_ignores_surrounding_space_witness :
  Examples.peak Examples.stock (Some " pn-1001 ") =
  Examples.peak Examples.stock (Some "pn-1001").
Proof.
  exact (peak_ignores_surrounding_space Str.ascii_upper Examples.stock
           " " "pn-1001" " " eq_refl eq_refl).
Defined.


Lemma controller_peak_statuses_witness :
  fst (controller_GetPeakAvailability Str.ascii_upper Examples.stock
         (Some "  ")) = 400.
Proof.
  apply (proj1 (controller_peak_statuses Str.ascii_upper Examples.stock
                  (Some "  "))).
  reflexivity.
Defined.

End PeakMoreFacts.

(** ** More about the request cache *)

Module CacheMoreFacts.
Import Api.

Lemma In_drop {A} n (l : list A) x : In x (drop n l) -> In x l.
Proof.
  intros H. rewrite <- (take_drop n l). apply in_or_app. now right.
Qed.

Lemma NoDup_map_filter {A B} (f : A -> B) (p : A -> bool) l :
  List.NoDup (map f l) -> List.NoDup (map f (List.filter p l)).
Proof.
  induction l as [|x l IH]; simpl; intros H; [constructor|].
  apply List.NoDup_cons_iff in H as [Hx Hl].
  destruct (p x); simpl; [|auto].
  constructor; [|auto].
  intros Hin. apply Hx. apply in_map_iff in Hin as (y & Hy & Hin).
  apply filter_In in Hin as [Hin _]. apply in_map_iff. now exists y.
Qed.

Lemma NoDup_map_drop {A B} (f : A -> B) n l :
  List.NoDup (map f l) -> List.NoDup (map f (drop n l)).
Proof.
  revert l. induction n as [|n IH]; intros [|x l] H; simpl; auto.
  apply IH. now apply List.NoDup_cons_iff in H.
Qed.

Lemma NoDup_map_sweep {B} (f : CacheEntry -> B) clock i entries :
  List.NoDup (map f entries) -> List.NoDup (map f (sweep clock i entries)).
Proof.
  revert i. induction entries as [|x l IH]; simpl; intros i H; [constructor|].
  apply List.NoDup_cons_iff in H as [Hx Hl].
  destruct (clock i <? expiry x); simpl; [|auto].
  constructor; [|auto].
  intros Hin. apply Hx. apply in_map_iff in Hin as (y & Hy & Hin).
  apply CacheFacts.sweep_In in Hin. apply in_map_iff. now exists y.
Qed.

(** What [remember] computes: the new entry in last place, in front of at most
    four older entries, each of them in the array before and not yet expired
    at the reading of the clock taken for it. *)
Lemma remembered_split entries k o now1 now2 :
  exists rest,
    remembered entries k o now1 now2 =
      rest ++ [{| key := k; expiry := now1 + CACHE_TTL_MS; obs := o |}] /\
    (length rest < CACHE_MAX_ENTRIES)%nat /\
    (forall e, In e rest ->
               exists i, entries !! i = Some e /\ now2 i < expiry e) /\
    ((length (sweep now2 0 entries) < CACHE_MAX_ENTRIES)%nat ->
     rest = sweep now2 0 entries) /\
    (List.NoDup (map key entries) -> List.NoDup (map key rest)).
Proof.
  unfold remembered.
  set (live := sweep now2 0 entries).
  set (le := fun a b : CacheEntry => expiry a - expiry b <=? 0).
  assert (Hlive : forall e, In e live ->
                    exists i, entries !! i = Some e /\ now2 i < expiry e).
  { intros e He. apply CacheFacts.sweep_lookup in He. exact He. }
  destruct (Nat.leb_spec CACHE_MAX_ENTRIES (length live)) as [Hfull|Hroom].
  - exists (drop (length live - CACHE_MAX_ENTRIES + 1) (Seq.stable_sort le live)).
    assert (Hlen : length (drop (length live - CACHE_MAX_ENTRIES + 1)
                             (Seq.stable_sort le live)) = 4%nat).
    { rewrite length_drop, SeqFacts.stable_sort_length.
      unfold CACHE_MAX_ENTRIES in *. lia. }
    split; [|split; [|split; [|split]]].
    + apply CacheFacts.shift_excess_fits. rewrite length_app, Hlen.
      simpl. unfold CACHE_MAX_ENTRIES. lia.
    + rewrite Hlen. unfold CACHE_MAX_ENTRIES. lia.
    + intros e He. apply In_drop in He. apply Hlive.
      eapply Permutation_in; [apply SeqFacts.stable_sort_Permutation|exact He].
    + lia.
    + intros Hnd. apply NoDup_map_drop.
      eapply Permutation_NoDup.
      * apply Permutation_map, Permutation_sym,
          (SeqFacts.stable_sort_Permutation le live).
      * now apply NoDup_map_sweep.
  - exists live. split; [|split; [|split; [|split]]].
    + apply CacheFacts.shift_excess_fits. rewrite length_app. simpl. lia.
    + exact Hroom.
    + exact Hlive.
    + reflexivity.
    + intros Hnd. now apply NoDup_map_sweep.
Qed.

Section Service.
Variable toLowerCase : string -> string.
Variable toUpperCase : string -> string.

Local Abbreviation cacheKey := (cacheKey toLowerCase toUpperCase).
Local Abbreviation search := (search toLowerCase toUpperCase).
Local Abbreviation getPeakAvailability := (getPeakAvailability toUpperCase).
Local Abbreviation peak_key := (peak_key toUpperCase).
Local Abbreviation step := (step toLowerCase toUpperCase).
Local Abbreviation run := (run toLowerCase toUpperCase).

(** X10. [remember] replaces exactly one of the two caches, the one whose
    array it was given, by the new entry in last place behind at most four
    older entries, each of them an entry of that array that had not expired
    at the reading of the clock taken for it; when fewer than five entries
    pass that test, they are all kept, in their order. It never drops the
    entry it was asked to store. *)
Theorem remember_stores_new_entry s arg k o now1 now2 :
  let s' := remember s arg k o now1 now2 in
  let stored := if Nat.eqb (ident arg) (ident (cache s))
                then elems (cache s') else elems (peakCache s') in
  (exists rest,
     stored = rest ++ [{| key := k; expiry := now1 + CACHE_TTL_MS; obs := o |}] /\
     (length rest < CACHE_MAX_ENTRIES)%nat /\
     (forall e, In e rest ->
                exists i, elems arg !! i = Some e /\ now2 i < expiry e) /\
     ((length (sweep now2 0 (elems arg)) < CACHE_MAX_ENTRIES)%nat ->
      rest = sweep now2 0 (elems arg))) /\
  (if Nat.eqb (ident arg) (ident (cache s))
   then peakCache s' = peakCache s else cache s' = cache s).
Proof.
  intros s' stored. subst s' stored. unfold remember.
  destruct (remembered_split (elems arg) k o now1 now2)
    as (rest & Heq & Hlen & Hrest & Hall & _).
  destruct (Nat.eqb (ident arg) (ident (cache s))); simpl;
    (split; [exists rest; auto|reflexivity]).
Qed.

(** X11. A call that builds no upstream request serves an entry that is in
    the cache under the requested key and has not expired at the time of the
    call; nothing is stored, the cache only loses its expired entries. *)
Theorem cache_hit_is_live s :
  (forall q now now1 now2,
     upstream (fst (search q now now1 now2 s)) = None ->
     (exists e, In e (elems (cache s)) /\ key e = cacheKey q /\
                now < expiry e /\
                returned (fst (search q now now1 now2 s)) = obs e) /\
     elems (cache (snd (search q now now1 now2 s))) =
       List.filter (fun e => now <? expiry e) (elems (cache s))) /\
  (forall partNumber now now1 now2,
     upstream (fst (getPeakAvailability partNumber now now1 now2 s)) = None ->
     (exists e, In e (elems (peakCache s)) /\ key e = peak_key partNumber /\
                now < expiry e /\
                returned (fst (getPeakAvailability partNumber now now1 now2 s))
                  = obs e) /\
     elems (peakCache (snd (getPeakAvailability partNumber now now1 now2 s))) =
       List.filter (fun e => now <? expiry e) (elems (peakCache s))).
Proof.
  split.
  - intros q now now1 now2. unfold Api.search. simpl.
    destruct (List.find _ _) as [hit|] eqn:Hfind; simpl; [|discriminate].
    intros _. apply List.find_some in Hfind as [Hin Hkey].
    apply filter_In in Hin as [Hin Hlive].
    split; [|reflexivity].
    exists hit. repeat split; auto.
    + now apply String.eqb_eq.
    + now apply Z.ltb_lt.
  - intros pn now now1 now2. unfold Api.getPeakAvailability. simpl.
    destruct (List.find _ _) as [hit|] eqn:Hfind; simpl; [|discriminate].
    intros _. apply List.find_some in Hfind as [Hin Hkey].
    apply filter_In in Hin as [Hin Hlive].
    split; [|reflexivity].
    exists hit. repeat split; auto.
    + now apply String.eqb_eq.
    + now apply Z.ltb_lt.
Qed.

(** Keys stay unique under every operation. *)
Local Abbreviation unique_keys s :=
  (List.NoDup (map key (elems (cache s))) /\
   List.NoDup (map key (elems (peakCache s)))).

Lemma NoDup_keys_snoc rest k e :
  key e = k ->
  List.NoDup (map key rest) ->
  (forall x, In x rest -> key x <> k) ->
  List.NoDup (map key (rest ++ [e])).
Proof.
  intros Hk Hnd Hrest. rewrite map_app. simpl.
  apply List.NoDup_app; repeat split.
  - exact Hnd.
  - repeat constructor. intros [].
  - intros x Hx [Hx'|[]]. apply in_map_iff in Hx as (y & Hy & Hin).
    apply (Hrest y Hin). congruence.
Qed.

Lemma remember_unique_keys s arg k o now1 now2 :
  unique_keys s ->
  List.NoDup (map key (elems arg)) ->
  (forall e, In e (elems arg) -> key e <> k) ->
  unique_keys (remember s arg k o now1 now2).
Proof.
  intros [Hc Hp] Harg Hfresh. unfold remember.
  destruct (remembered_split (elems arg) k o now1 now2)
    as (rest & Heq & _ & Hrest & _ & Hnd).
  assert (Hnew : List.NoDup (map key (remembered (elems arg) k o now1 now2))).
  { rewrite Heq. apply (NoDup_keys_snoc rest k); auto.
    intros x Hx. apply Hfresh.
    destruct (Hrest x Hx) as (i & Hi & _).
    apply list_elem_of_In. eapply list_elem_of_lookup_2, Hi. }
  destruct (Nat.eqb _ _); simpl; split; auto.
Qed.

Lemma step_unique_keys s o : unique_keys s -> unique_keys (step s o).
Proof.
  intros [Hc Hp].
  destruct o as [q now now1 now2|pn now now1 now2|k failed|k failed|k|k];
    simpl; [| | | |now split|now split].
  - unfold Api.search.
    destruct (List.find _ _) as [hit|] eqn:Hfind; simpl.
    + split; [now apply NoDup_map_filter|exact Hp].
    + apply remember_unique_keys; simpl.
      * split; [now apply NoDup_map_filter|exact Hp].
      * now apply NoDup_map_filter.
      * intros e He. apply (List.find_none _ _ Hfind) in He.
        now apply String.eqb_neq.
  - unfold Api.getPeakAvailability.
    destruct (List.find _ _) as [hit|] eqn:Hfind; simpl.
    + split; [exact Hc|now apply NoDup_map_filter].
    + apply remember_unique_keys; simpl.
      * split; [exact Hc|now apply NoDup_map_filter].
      * now apply NoDup_map_filter.
      * intros e He. apply (List.find_none _ _ Hfind) in He.
        now apply String.eqb_neq.
  - unfold search_tap. destruct failed; simpl; split; auto.
    now apply NoDup_map_filter.
  - unfold peak_tap. destruct failed; simpl; split; auto.
    now apply NoDup_map_filter.
Qed.

Lemma steps_unique_keys s between :
  unique_keys s -> unique_keys (fold_left step between s).
Proof.
  revert s. induction between as [|o between IH]; intros s H; [exact H|].
  simpl. apply IH. now apply step_unique_keys.
Qed.

Lemma run_unique_keys ops : unique_keys (run ops).
Proof. apply steps_unique_keys. simpl. split; constructor. Qed.

(** X12. Coalescing: the entry a search stores when it builds a request is in
    the cache right after it; and whatever searches, lookups, responses and
    errors follow, as long as that entry is still in the cache, a search with
    the same key whose clock reading is before the entry's expiry gets the
    same observable and builds no request, and the entry stays. *)
Theorem search_coalesces ops q now now1 now2 between q' now' now1' now2' :
  let s := run ops in
  let first := search q now now1 now2 s in
  let entry := {| key := cacheKey q; expiry := now1 + CACHE_TTL_MS;
                  obs := returned (fst first) |} in
  let later := fold_left step between (snd first) in
  let second := search q' now' now1' now2' later in
  upstream (fst first) <> None ->
  In entry (elems (cache (snd first))) /\
  (In entry (elems (cache later)) ->
   cacheKey q' = cacheKey q ->
   now' < now1 + CACHE_TTL_MS ->
   returned (fst second) = returned (fst first) /\
   upstream (fst second) = None /\
   In entry (elems (cache (snd second)))).
Proof.
  intros s first entry later second Hmiss.
  destruct (CacheFacts.search_miss_shape toLowerCase toUpperCase s q now now1
              now2 Hmiss) as (Hret & rest & Hcache & Hrest).
  fold first in Hret, Hcache. split.
  - subst entry. rewrite Hcache, Hret. apply in_or_app. right. now left.
  - intros Hin Hkey Hnow.
    assert (Hnd : List.NoDup (map key (elems (cache later)))).
    { apply (steps_unique_keys (snd first) between).
      change (snd first) with (step s (OpSearch q now now1 now2)).
      apply step_unique_keys, run_unique_keys. }
    assert (Hlive : In entry (List.filter (fun x => now' <? expiry x)
                                (elems (cache later)))).
    { apply filter_In. split; [exact Hin|now apply Z.ltb_lt]. }
    subst second. unfold Api.search. simpl.
    replace (cacheKey q') with (key entry) by (simpl; now rewrite Hkey).
    rewrite (CacheFacts.find_unique_key _ entry)
      by (try apply CacheFacts.NoDup_keys_filter; assumption).
    simpl. auto.
Qed.

(** X13. In every state the service can reach, neither cache holds two
    entries under the same key. *)
Theorem cache_keys_unique ops :
  List.NoDup (map key (elems (cache (run ops)))) /\
  List.NoDup (map key (elems (peakCache (run ops)))).
Proof.
  unfold Api.run. induction ops as [|o ops IH] using rev_ind.
  - simpl. split; constructor.
  - rewrite fold_left_app. simpl. now apply step_unique_keys.
Qed.

(** X14. The two caches do not interfere: in every reachable state a search
    and the handling of its response leave the entries of the peak cache as
    they are, and a peak lookup and the handling of its response leave the
    entries of the search cache as they are. *)
Theorem caches_are_independent ops :
  let s := run ops in
  (forall q now now1 now2,
     elems (peakCache (snd (search q now now1 now2 s))) = elems (peakCache s)) /\
  (forall k failed,
     elems (peakCache (step s (OpSearchResponse k failed)))
       = elems (peakCache s)) /\
  (forall partNumber now now1 now2,
     elems (cache (snd (getPeakAvailability partNumber now now1 now2 s)))
       = elems (cache s)) /\
  (forall k failed,
     elems (cache (step s (OpPeakResponse k failed))) = elems (cache s)).
Proof.
  intros s. destruct (CacheFacts.run_invariant toLowerCase toUpperCase ops)
    as (_ & _ & Hid). fold s in Hid.
  repeat split.
  - intros q now now1 now2. unfold Api.search.
    destruct (List.find _ _); simpl; [reflexivity|].
    unfold remember. simpl. now rewrite Nat.eqb_refl.
  - intros k failed. simpl. unfold search_tap. now destruct failed.
  - intros pn now now1 now2. unfold Api.getPeakAvailability.
    destruct (List.find _ _); simpl; [reflexivity|].
    unfold remember. simpl.
    destruct (Nat.eqb_spec (next_ident s) (ident (cache s))); [lia|reflexivity].
  - intros k failed. simpl. unfold peak_tap. now destruct failed.
Qed.

End Service.

(** The clock moves on while [remember] sweeps three entries: the first is
    read at 5, the others at 25, so the second goes and the third stays. *)
Lemma remember_stores_new_entry_witness :
  elems (cache (remember CacheExamples.three_cached
                  (cache CacheExamples.three_cached) "k" 9 5
                  CacheExamples.moving_clock)) =
    [{| key := "a"; expiry := 10; obs := 0 |};
     {| key := "c"; expiry := 30; obs := 2 |};
     {| key := "k"; expiry := 5 + CACHE_TTL_MS; obs := 9 |}].
Proof.
  destruct (remember_stores_new_entry CacheExamples.three_cached
              (cache CacheExamples.three_cached) "k" 9%nat 5
              CacheExamples.moving_clock)
    as [(rest & Hstored & _ & _ & Hall) _].
  rewrite Hall in Hstored by (vm_compute; lia).
  exact Hstored.
Defined.

Lemma cache_hit_is_live_witness :
  let s := snd (CacheExamples.search_at (CacheExamples.query "a") 0 init) in
  exists e, In e (elems (cache s)) /\
            key e = CacheExamples.key_of (CacheExamples.query " A ") /\
            10 < expiry e /\
            returned (fst (CacheExamples.search_at (CacheExamples.query " A ")
                             10 s)) = obs e.
Proof.
  refine (proj1 (proj1 (cache_hit_is_live Str.ascii_lower Str.ascii_upper _)
                   (CacheExamples.query " A ") 10 10 (fun _ => 10) _)).
  vm_compute. reflexivity.
Defined.

(** A search, then a peak lookup, another search and an errored request;
    the first entry is still cached when the first search is repeated. *)
Lemma search_coalesces_witness :
  let first := CacheExamples.search_at (CacheExamples.query "a") 0 init in
  let later := fold_left (step Str.ascii_lower Str.ascii_upper)
                 CacheExamples.meanwhile (snd first) in
  let second := CacheExamples.search_at (CacheExamples.query " A ") 59999
                  later in
  returned (fst second) = returned (fst first) /\
  upstream (fst second) = None.
Proof.
  intros first later second.
  destruct (search_coalesces Str.ascii_lower Str.ascii_upper []
              (CacheExamples.query "a") 0 0 (fun _ => 0)
              CacheExamples.meanwhile
              (CacheExamples.query " A ") 59999 59999 (fun _ => 59999))
    as [_ Hhit]; [vm_compute; discriminate|].
  destruct Hhit as (Hret & Hup & _).
  - vm_compute. left. reflexivity.
  - vm_compute. reflexivity.
  - vm_compute. reflexivity.
  - split; [exact Hret|exact Hup].
Defined.

End CacheMoreFacts.

(** ** More about the search page *)

Module PageMoreFacts.
Import Api Page PageMore.

Lemma Set_has_In b s : Set_has b s = true <-> In b s.
Proof. apply GroupFacts.existsb_eqb_In. Qed.

Lemma Set_add_In b s x : In x (Set_add b s) <-> x = b \/ In x s.
Proof.
  unfold Set_add. destruct (Set_has b s) eqn:Hb.
  - apply Set_has_In in Hb. split; [auto|]. intros [->|H]; auto.
  - rewrite in_app_iff. simpl. split; intros H; intuition.
Qed.

Lemma Set_add_NoDup b s : List.NoDup s -> List.NoDup (Set_add b s).
Proof.
  intros Hs. unfold Set_add. destruct (Set_has b s) eqn:Hb; [exact Hs|].
  apply List.NoDup_app; repeat split; auto.
  - repeat constructor. intros [].
  - intros x Hx [<-|[]]. apply Set_has_In in Hx. congruence.
Qed.

Lemma Set_delete_In b s x : In x (Set_delete b s) <-> In x s /\ x <> b.
Proof.
  unfold Set_delete. rewrite filter_In, negb_true_iff.
  split; intros [H1 H2]; (split; [exact H1|]); now apply String.eqb_neq.
Qed.

Lemma Set_delete_NoDup b s : List.NoDup s -> List.NoDup (Set_delete b s).
Proof. apply List.NoDup_filter. Qed.

Lemma Set_from_spec l :
  List.NoDup (Set_from l) /\ forall x, In x (Set_from l) <-> In x l.
Proof.
  unfold Set_from.
  assert (H : forall s, List.NoDup s ->
            List.NoDup (fold_left (fun s b => Set_add b s) l s) /\
            forall x, In x (fold_left (fun s b => Set_add b s) l s) <->
                      In x s \/ In x l).
  { induction l as [|b l IH]; simpl; intros s Hs.
    - split; [exact Hs|]. intros x. tauto.
    - destruct (IH (Set_add b s) (Set_add_NoDup b s Hs)) as [Hnd Hin].
      split; [exact Hnd|]. intros x. rewrite Hin, Set_add_In.
      split; intros H; intuition. }
  destruct (H [] (List.NoDup_nil _)) as [Hnd Hin].
  split; [exact Hnd|]. intros x. rewrite Hin. simpl. tauto.
Qed.

Section Component.
Variable Item : Type.
Variable toUpperCase : string -> string.
Variable debounce : Z.

Local Abbreviation Component := (Component Item).
Local Abbreviation onBranchesChange := (onBranchesChange Item).
Local Abbreviation onBranchSelect := (onBranchSelect Item).
Local Abbreviation branches_of c := (form_branches (form Item c)).

(** X15. Checking a branch puts it in the selection, unchecking takes it out;
    the other branches stay, the selection comes out without duplicates, and
    nothing but the form changes: no search is triggered. *)
Theorem branches_change_updates_selection (c : Component) branch checked :
  let c' := onBranchesChange branch checked c in
  List.NoDup (branches_of c') /\
  (forall x, In x (branches_of c') <->
             if checked then x = branch \/ In x (branches_of c)
             else In x (branches_of c) /\ x <> branch) /\
  c' = edit_form Item (form Item c') c.
Proof.
  intros c'. subst c'. unfold PageMore.onBranchesChange, patch_branches. simpl.
  destruct (Set_from_spec (branches_of c)) as [Hnd Hin].
  split; [|split; [|reflexivity]].
  - destruct checked; [now apply Set_add_NoDup|now apply Set_delete_NoDup].
  - intros x. destruct checked.
    + now rewrite Set_add_In, Hin.
    + now rewrite Set_delete_In, Hin.
Qed.

(** X16. Selecting a branch in the drop-down toggles it: it is in the new
    selection exactly when it was not in the old one, every other branch
    stays as it was, and selecting it twice gives the selection back. *)
Theorem branch_select_toggles (c : Component) branch :
  let c' := onBranchSelect branch c in
  (In branch (branches_of c') <-> ~ In branch (branches_of c)) /\
  (forall x, x <> branch ->
             (In x (branches_of c') <-> In x (branches_of c))) /\
  (forall x, In x (branches_of (onBranchSelect branch c')) <->
             In x (branches_of c)) /\
  List.NoDup (branches_of c').
Proof using Item.
  clear toUpperCase debounce.
  assert (Hstep : forall c0 : Component,
            let c1 := onBranchSelect branch c0 in
            (In branch (branches_of c1) <-> ~ In branch (branches_of c0)) /\
            (forall x, x <> branch ->
                       (In x (branches_of c1) <-> In x (branches_of c0))) /\
            List.NoDup (branches_of c1)).
  { intros c0 c1. subst c1. unfold PageMore.onBranchSelect, patch_branches.
    simpl. destruct (Set_from_spec (branches_of c0)) as [Hnd Hin].
    destruct (Set_has branch (Set_from (branches_of c0))) eqn:Hhas.
    - apply Set_has_In, Hin in Hhas. split; [|split].
      + rewrite Set_delete_In. tauto.
      + intros x Hx. rewrite Set_delete_In, Hin. tauto.
      + now apply Set_delete_NoDup.
    - assert (~ In branch (branches_of c0)) as Hnot.
      { intros H. apply Hin, Set_has_In in H. congruence. }
      split; [|split].
      + rewrite Set_add_In. tauto.
      + intros x Hx. rewrite Set_add_In, Hin. tauto.
      + now apply Set_add_NoDup. }
  intros c'. destruct (Hstep c) as (H1 & H2 & H3).
  destruct (Hstep c') as (H1' & H2' & _). fold c' in H1, H2, H3.
  split; [exact H1|]. split; [exact H2|]. split; [|exact H3].
  intros x. destruct (String.eqb_spec x branch) as [->|Hne].
  - rewrite H1', H1. split; [|tauto].
    intros H. destruct (in_dec string_dec branch (branches_of c)); tauto.
  - now rewrite H2', H2.
Qed.

Local Abbreviation process := (process Item toUpperCase).
Local Abbreviation emit := (emit Item toUpperCase debounce).
Local Abbreviation step := (step Item toUpperCase debounce).
Local Abbreviation onSearch := (onSearch Item toUpperCase debounce).
Local Abbreviation onSort := (onSort Item toUpperCase debounce).
Local Abbreviation onPageChange := (onPageChange Item toUpperCase debounce).
Local Abbreviation act := (act Item toUpperCase debounce).
Local Abbreviation play := (play Item toUpperCase debounce).
Local Abbreviation buildQuery := (buildQuery Item toUpperCase).

(** What every query handed to [api.search] looks like. *)
Local Abbreviation well_formed q :=
  (size q = pageSize /\ 0 <= page q /\ by_ q <> "" /\
   (exists typed, typed <> "" /\ criteria q = Api.trim typed) /\
   (exists bs, branches q = Some (map toUpperCase bs)) /\
   match sort q with Some sp => field sp <> "" | None => True end).

Local Abbreviation sound c :=
  (0 <= page_ Item c /\ Forall (fun q => well_formed q) (issued Item c)).

Lemma buildQuery_well_formed (c : Component) q :
  0 <= page_ Item c -> buildQuery c = Some q -> well_formed q.
Proof.
  intros Hpage. unfold Page.buildQuery, form_invalid.
  destruct (String.eqb_spec (form_criteria (form Item c)) "") as [|Hcrit];
    [discriminate|].
  destruct (String.eqb_spec (form_by (form Item c)) "") as [|Hby];
    simpl; [discriminate|].
  intros [= <-]. simpl. repeat split; auto.
  - eauto.
  - eauto.
  - destruct (String.eqb_spec (field (sortState Item c)) ""); auto.
Qed.

Lemma process_sound (c : Component) : sound c -> sound (process c).
Proof.
  intros [Hpage Hq]. unfold Page.process.
  destruct (buildQuery c) as [q|] eqn:Hb; [|now split].
  simpl. split; [exact Hpage|].
  apply Forall_app. split; [exact Hq|].
  constructor; [|constructor]. now apply (buildQuery_well_formed c).
Qed.

Lemma emit_sound (c : Component) : sound c -> sound (emit c).
Proof.
  intros H. unfold Page.emit. destruct (0 <? debounce); [exact H|].
  now apply process_sound.
Qed.

Lemma act_sound (c : Component) i : sound c -> sound (act c i).
Proof.
  intros H. pose proof H as [Hpage Hq].
  destruct i as [[v| |fld|p| |sub res]|b checked|b]; simpl.
  - exact H.
  - unfold Page.onSearch. destruct (form_invalid _); [exact H|].
    apply emit_sound. simpl.
    destruct (page_ Item c =? 0); [exact H|].
    apply emit_sound. simpl. split; [lia|exact Hq].
  - unfold Page.onSort. apply emit_sound. simpl.
    assert (Hs : sound (emit
      {| form := form Item c; loading := loading Item c;
         items_ := items_ Item c; total_ := total_ Item c;
         errorMessage := errorMessage Item c;
         currentPage := currentPage Item c;
         sortState :=
           {| field := fld;
              direction :=
                if String.eqb (field (sortState Item c)) fld
                then match direction (sortState Item c) with
                     | asc => desc
                     | desc => asc
                     end
                else asc |};
         page_ := page_ Item c; timer := timer Item c;
         inner := inner Item c; issued := issued Item c |}))
      by (apply emit_sound; exact H).
    destruct Hs as [_ Hq']. split; [lia|exact Hq'].
  - unfold Page.onPageChange. apply emit_sound. simpl. split; [lia|exact Hq].
  - unfold debounce_elapsed. destruct (timer Item c); [|exact H].
    apply process_sound. exact H.
  - unfold respond. destruct (inner Item c) as [cur|]; [|exact H].
    destruct (Nat.eqb cur sub); exact H.
  - exact H.
  - exact H.
Qed.

(** X17. Every query the page hands to the service asks for pages of 20, has
    a page index that is not negative, a non-empty field selector, the trimmed
    value of a non-empty criteria field, upper-cased branch codes, and a sort
    only with a field name. *)
Theorem issued_queries_well_formed inputs :
  Forall (fun q =>
            size q = pageSize /\ 0 <= page q /\ by_ q <> "" /\
            (exists typed, typed <> "" /\ criteria q = Api.trim typed) /\
            (exists bs, branches q = Some (map toUpperCase bs)) /\
            match sort q with Some sp => field sp <> "" | None => True end)
         (issued Item (play inputs)).
Proof.
  assert (H : sound (play inputs)).
  { unfold PageMore.play. induction inputs as [|i inputs IH] using rev_ind.
    - simpl. unfold initial. apply emit_sound, emit_sound. simpl.
      split; [lia|constructor].
    - rewrite fold_left_app. simpl. now apply act_sound. }
  apply H.
Qed.

(** With a debounce, only the elapsing of the window issues a request, and
    one at most. *)
Lemma act_issues_when_elapsed (c : Component) i :
  0 < debounce ->
  (length (issued Item (act c i)) <=
   length (issued Item c) + elapsed Item [i])%nat.
Proof.
  intros Hd.
  assert (He : forall c0 : Component, issued Item (emit c0) = issued Item c0).
  { intros c0. unfold Page.emit.
    destruct (Z.ltb_spec 0 debounce); [reflexivity|lia]. }
  assert (Hp : forall c0 : Component,
             (length (issued Item (process c0)) <= length (issued Item c0) + 1)%nat).
  { intros c0. unfold Page.process. destruct (buildQuery c0); simpl; [|lia].
    rewrite length_app. simpl. lia. }
  destruct i as [[v| |fld|p| |sub res]|b checked|b]; simpl;
    unfold elapsed; simpl.
  - lia.
  - unfold Page.onSearch. destruct (form_invalid _); simpl; [lia|].
    rewrite He. simpl. destruct (page_ Item c =? 0); simpl; [lia|].
    rewrite He. simpl. lia.
  - unfold Page.onSort. rewrite He. simpl. rewrite He. simpl. lia.
  - unfold Page.onPageChange. rewrite He. simpl. lia.
  - unfold debounce_elapsed. destruct (timer Item c); [|lia].
    etransitivity; [apply Hp|]. simpl. lia.
  - unfold respond. destruct (inner Item c) as [cur|]; [|lia].
    destruct (Nat.eqb cur sub); simpl; lia.
  - lia.
  - lia.
Qed.

(** X18. With a positive debounce the page issues at most one request each
    time the debounce window elapses, however many searches, sorts and page
    changes come in between. *)
Theorem debounce_bounds_requests inputs :
  0 < debounce ->
  (length (issued Item (play inputs)) <= elapsed Item inputs)%nat.
Proof.
  intros Hd. unfold PageMore.play.
  induction inputs as [|i inputs IH] using rev_ind.
  - simpl. unfold initial, Page.emit.
    destruct (Z.ltb_spec 0 debounce); [simpl; lia|lia].
  - rewrite fold_left_app. simpl.
    pose proof (act_issues_when_elapsed
                  (fold_left act inputs (initial Item toUpperCase debounce))
                  i Hd) as Hi.
    unfold elapsed in *. rewrite List.filter_app, length_app. lia.
Qed.

(** With a debounce, a value entering [merge] only arms the timer. *)
Lemma emit_arms_timer (c : Component) :
  0 < debounce ->
  emit c =
  {| form := form Item c; loading := loading Item c; items_ := items_ Item c;
     total_ := total_ Item c; errorMessage := errorMessage Item c;
     currentPage := currentPage Item c; sortState := sortState Item c;
     page_ := page_ Item c; timer := true; inner := inner Item c;
     issued := issued Item c |}.
Proof.
  intros Hd. unfold Page.emit. destruct (Z.ltb_spec 0 debounce); [reflexivity|lia].
Qed.

(** Neither building nor issuing a query touches the sort, the page or the
    shown results. *)
Lemma process_keeps (c : Component) :
  sortState Item (process c) = sortState Item c /\
  page_ Item (process c) = page_ Item c /\
  currentPage Item (process c) = currentPage Item c /\
  items_ Item (process c) = items_ Item c /\
  total_ Item (process c) = total_ Item c /\
  form Item (process c) = form Item c.
Proof.
  unfold Page.process. destruct (buildQuery c); simpl; repeat split.
Qed.

Lemma emit_keeps (c : Component) :
  sortState Item (emit c) = sortState Item c /\
  page_ Item (emit c) = page_ Item c /\
  currentPage Item (emit c) = currentPage Item c /\
  items_ Item (emit c) = items_ Item c /\
  total_ Item (emit c) = total_ Item c /\
  form Item (emit c) = form Item c.
Proof.
  unfold Page.emit. destruct (0 <? debounce); [simpl; repeat split|].
  apply process_keeps.
Qed.

(** X19. A click on a column sorts by it and goes back to the first page: a
    column that was not the sort column starts ascending, and a second click
    on the same column reverses the direction, whatever the debounce. *)
Theorem sort_click_toggles (c : Component) fld :
  let c1 := onSort fld c in
  let c2 := onSort fld c1 in
  field (sortState Item c1) = fld /\
  (field (sortState Item c) <> fld -> direction (sortState Item c1) = asc) /\
  field (sortState Item c2) = fld /\
  direction (sortState Item c2) =
    match direction (sortState Item c1) with asc => desc | desc => asc end /\
  page_ Item c1 = 0 /\ currentPage Item c1 = 0.
Proof.
  assert (Hstep : forall c0 : Component,
            sortState Item (onSort fld c0) =
              {| field := fld;
                 direction :=
                   if String.eqb (field (sortState Item c0)) fld
                   then match direction (sortState Item c0) with
                        | asc => desc
                        | desc => asc
                        end
                   else asc |} /\
            page_ Item (onSort fld c0) = 0 /\
            currentPage Item (onSort fld c0) = 0).
  { intros c0. unfold Page.onSort.
    match goal with
    | |- context [with_page Item ?x 0 0] =>
        destruct (emit_keeps (with_page Item x 0 0)) as (Hs & Hp & Hc & _)
    end.
    rewrite Hs, Hp, Hc. simpl.
    match goal with
    | |- context [sortState Item (Page.emit Item toUpperCase debounce ?y)] =>
        destruct (emit_keeps y) as (Hs' & _)
    end.
    rewrite Hs'. simpl. auto. }
  intros c1 c2. destruct (Hstep c) as (Hs1 & Hp1 & Hc1).
  destruct (Hstep c1) as (Hs2 & _). fold c1 in Hs1, Hp1, Hc1. fold c2 in Hs2.
  rewrite Hs2, Hs1. simpl. rewrite String.eqb_refl.
  repeat split; auto.
  intros Hne. destruct (String.eqb_spec (field (sortState Item c)) fld);
    [contradiction|reflexivity].
Qed.

(** Nothing but a response touches the shown items and total. *)
Lemma input_keeps_results (c : Component) i :
  (forall sub res, i <> Pipeline Item (Response Item sub res)) ->
  items_ Item (act c i) = items_ Item c /\
  total_ Item (act c i) = total_ Item c.
Proof.
  intros Hi.
  assert (He : forall c0 : Component,
            items_ Item (emit c0) = items_ Item c0 /\
            total_ Item (emit c0) = total_ Item c0)
    by (intros c0; destruct (emit_keeps c0) as (_ & _ & _ & H1 & H2 & _); auto).
  destruct i as [[v| |fld|p| |sub res]|b checked|b]; simpl; auto.
  - unfold Page.onSearch. destruct (form_invalid _); simpl; [auto|].
    match goal with |- context [Page.emit Item toUpperCase debounce ?y] =>
      destruct (He y) as [-> ->] end.
    destruct (page_ Item c =? 0); simpl; [auto|].
    match goal with |- context [Page.emit Item toUpperCase debounce ?y] =>
      destruct (He y) as [-> ->] end.
    simpl. auto.
  - unfold Page.onSort.
    match goal with |- context [with_page Item ?x 0 0] =>
      destruct (He (with_page Item x 0 0)) as [-> ->] end.
    simpl.
    match goal with |- context [Page.emit Item toUpperCase debounce ?y] =>
      destruct (He y) as [-> ->] end.
    simpl. auto.
  - unfold Page.onPageChange.
    match goal with |- context [Page.emit Item toUpperCase debounce ?y] =>
      destruct (He y) as [-> ->] end.
    simpl. auto.
  - unfold debounce_elapsed. destruct (timer Item c); [|auto].
    match goal with |- context [Page.process Item toUpperCase ?y] =>
      destruct (process_keeps y) as (_ & _ & _ & -> & -> & _) end.
    simpl. auto.
  - exfalso. now apply (Hi sub res).
Qed.


(** X21. A search with an invalid form only shows the message "Enter search
    criteria to begin.": nothing is armed and nothing is issued. With a valid
    form and a positive debounce it shows loading at once, clears the message,
    goes to the first page and arms the timer without issuing anything yet;
    a sort or a page change leaves loading as it is. *)
Theorem explicit_search_shows_loading (c : Component) :
  (form_invalid (form Item c) = true ->
   errorMessage Item (onSearch c) = Some "Enter search criteria to begin." /\
   loading Item (onSearch c) = loading Item c /\
   timer Item (onSearch c) = timer Item c /\
   issued Item (onSearch c) = issued Item c) /\
  (form_invalid (form Item c) = false -> 0 < debounce ->
   loading Item (onSearch c) = true /\
   errorMessage Item (onSearch c) = None /\
   page_ Item (onSearch c) = 0 /\
   currentPage Item (onSearch c) = 0 /\
   timer Item (onSearch c) = true /\
   issued Item (onSearch c) = issued Item c) /\
  (0 < debounce ->
   forall fld p,
     loading Item (onSort fld c) = loading Item c /\
     loading Item (onPageChange p c) = loading Item c).
Proof.
  split; [|split].
  - intros Hinv. unfold Page.onSearch. rewrite Hinv. simpl. auto.
  - intros Hval Hd. unfold Page.onSearch. rewrite Hval.
    rewrite !emit_arms_timer by assumption. simpl.
    destruct (Z.eqb_spec (page_ Item c) 0) as [Hz|Hz]; simpl.
    + repeat split; auto.
    + rewrite ?emit_arms_timer by assumption. simpl. repeat split; auto.
  - intros Hd fld p. unfold Page.onSort, Page.onPageChange.
    rewrite !emit_arms_timer by assumption. simpl.
    rewrite ?emit_arms_timer by assumption. simpl. auto.
Qed.

End Component.

Lemma branch_select_toggles_witness :
  In "PDX"
     (form_branches
        (form string
           (onBranchSelect string "PDX"
              (PageMoreExamples.play50 PageMoreExamples.burst)))).
Proof.
  apply (proj1 (branch_select_toggles string
                  (PageMoreExamples.play50 PageMoreExamples.burst) "PDX")).
  vm_compute. intros [H|[]]. discriminate.
Defined.

Lemma debounce_bounds_requests_witness :
  (length (issued string (PageMoreExamples.play50 PageMoreExamples.burst)) <=
   elapsed string PageMoreExamples.burst)%nat.
Proof.
  exact (debounce_bounds_requests string Str.ascii_upper 50
           PageMoreExamples.burst eq_refl).
Defined.

Lemma sort_click_toggles_witness :
  direction
    (sortState string
       (onSort string Str.ascii_upper 50 "branch"
          (PageMoreExamples.play50 PageMoreExamples.burst))) = asc.
Proof.
  apply (sort_click_toggles string Str.ascii_upper 50
           (PageMoreExamples.play50 PageMoreExamples.burst) "branch").
  vm_compute. discriminate.
Defined.


Lemma explicit_search_shows_loading_witness :
  loading string
    (onSearch string Str.ascii_upper 50
       (edit_form string PageExamples.valid_form
          (initial string Str.ascii_upper 50))) = true.
Proof.
  apply (proj1 (proj2 (explicit_search_shows_loading string Str.ascii_upper 50
                         (edit_form string PageExamples.valid_form
                            (initial string Str.ascii_upper 50))))).
  - reflexivity.
  - reflexivity.
Defined.

End PageMoreFacts.

(** ** The results table *)

Module TableFacts.
Import Api Table.

(** The ceiling of a quotient by a positive divisor. *)
Lemma ceil_div_bounds a b :
  0 < b -> (ceil_div a b - 1) * b < a <= ceil_div a b * b.
Proof.
  intros Hb. unfold ceil_div.
  pose proof (Z.div_mod (- a) b ltac:(lia)) as Heq.
  pose proof (Z.mod_pos_bound (- a) b Hb) as Hr.
  nia.
Qed.

Lemma totalPages_positive total size : 1 <= totalPages total size.
Proof. unfold totalPages. lia. Qed.

(** X22. Two rows have the same key only if they are the same row, as long as
    their part numbers hold no underscore. *)
Theorem rowKey_injective a b :
  Str.has_char "_" (partNumber a) = false ->
  Str.has_char "_" (partNumber b) = false ->
  rowKey a = rowKey b -> a = b.
Proof.
  intros Ha Hb H. unfold rowKey in H.
  rewrite !StrFacts.append_cons, !StrFacts.append_nil in H.
  apply StrFacts.cut_unique in H as [Hp Hbr]; [|assumption..].
  destruct a, b. simpl in *. now subst.
Qed.

Section Component.
Variable Peak : Type.

Local Abbreviation Table := (Table Peak).
Local Abbreviation goTo := (goTo Peak).
Local Abbreviation step := (step Peak).
Local Abbreviation run := (run Peak).
Local Abbreviation in_flight := (in_flight Peak).

(** X23. [goTo] never leaves the range of pages: the page it emits and stores
    lies between 0 and [totalPages - 1], is the requested page when that one
    is in range, and, when there are records and the page size is positive,
    starts before the end of the records. *)
Theorem goTo_stays_in_range (t : Table) page :
  let maxPage := totalPages (total Peak t) (pageSize Peak t) - 1 in
  let emitted := snd (goTo page t) in
  pageIndex Peak (fst (goTo page t)) = emitted /\
  0 <= emitted <= maxPage /\
  (0 <= page <= maxPage -> emitted = page) /\
  (forall n, total Peak t = Some n -> 0 < n -> 0 < pageSize Peak t ->
             emitted * pageSize Peak t < n).
Proof.
  intros maxPage emitted. subst maxPage emitted. unfold Table.goTo. simpl.
  pose proof (totalPages_positive (total Peak t) (pageSize Peak t)) as Hpos.
  split; [reflexivity|]. split; [lia|]. split; [lia|].
  intros n Hn Hn0 Hsize. unfold totalPages in *. rewrite Hn in *.
  destruct (Z.eqb_spec (pageSize Peak t) 0) as [|_]; [lia|].
  pose proof (ceil_div_bounds n (pageSize Peak t) Hsize) as Hceil.
  nia.
Qed.

Local Abbreviation toggleExpand := (toggleExpand Peak).
Local Abbreviation fetchPeakAvailability := (fetchPeakAvailability Peak).
Local Abbreviation selectTab := (selectTab Peak).
Local Abbreviation peak_next := (peak_next Peak).
Local Abbreviation peak_error := (peak_error Peak).
Local Abbreviation finish := (finish Peak).

(** At most one lookup per part is in flight, and the loading flags say which
    parts have one. *)
Local Abbreviation guarded t :=
  (List.NoDup (in_flight t) /\
   forall k, truthy (peakLoading Peak t) k = true <-> In k (in_flight t)).

Lemma in_flight_app (l1 l2 : list (string * bool)) :
  map fst (List.filter (fun r => negb (snd r)) (l1 ++ l2)) =
  map fst (List.filter (fun r => negb (snd r)) l1) ++
  map fst (List.filter (fun r => negb (snd r)) l2).
Proof. now rewrite List.filter_app, map_app. Qed.

Lemma truthy_insert (m : gmap string bool) k b k' :
  truthy (<[k := b]> m) k' = if String.eqb k k' then b else truthy m k'.
Proof.
  unfold truthy. destruct (String.eqb_spec k k') as [->|Hne].
  - now rewrite lookup_insert_eq.
  - now rewrite lookup_insert_ne.
Qed.

Lemma fetch_guarded (t : Table) item :
  guarded t -> guarded (fetchPeakAvailability item t).
Proof.
  intros [Hnd Hload]. unfold Table.fetchPeakAvailability.
  destruct (truthy (peakLoading Peak t) (partNumber item)) eqn:Hk; [now split|].
  unfold Table.in_flight. simpl. rewrite in_flight_app. simpl.
  assert (Hfresh : ~ In (partNumber item) (in_flight t)).
  { intros Hin. apply Hload in Hin. congruence. }
  split.
  - apply List.NoDup_app; repeat split; auto.
    + repeat constructor. intros [].
    + intros x Hx [<-|[]]. contradiction.
  - intros k. rewrite truthy_insert, in_app_iff. simpl.
    destruct (String.eqb_spec (partNumber item) k) as [->|Hne].
    + tauto.
    + rewrite Hload. unfold Table.in_flight. tauto.
Qed.

Lemma finish_guarded (t : Table) n k stored message :
  requests Peak t !! n = Some (k, false) ->
  guarded t -> guarded (finish n k stored message t).
Proof.
  intros Hn [Hnd Hload]. unfold Table.in_flight in *. simpl.
  pose proof (take_drop_middle _ _ _ Hn) as Hsplit.
  assert (Hins : <[n := (k, true)]> (requests Peak t) =
                 take n (requests Peak t) ++ (k, true)
                   :: drop (S n) (requests Peak t)).
  { apply insert_take_drop. eapply lookup_lt_Some, Hn. }
  rewrite Hins. rewrite <- Hsplit in Hnd, Hload.
  rewrite in_flight_app in Hnd, Hload. simpl in Hnd, Hload.
  rewrite in_flight_app. simpl.
  set (before := map fst (List.filter (fun r => negb (snd r))
                            (take n (requests Peak t)))) in *.
  set (after := map fst (List.filter (fun r => negb (snd r))
                           (drop (S n) (requests Peak t)))) in *.
  apply List.NoDup_remove in Hnd as [Hnd Hk].
  split; [exact Hnd|].
  intros k'. rewrite truthy_insert.
  destruct (String.eqb_spec k k') as [<-|Hne].
  - split; [discriminate|]. intros Hin. contradiction.
  - rewrite Hload, !in_app_iff. simpl. tauto.
Qed.

Lemma step_guarded (t : Table) e : guarded t -> guarded (step t e).
Proof.
  intros H.
  destruct e as [tot sz|fld|item|item|item tab|page|n res|n]; simpl;
    try exact H.
  - now apply fetch_guarded.
  - unfold Table.selectTab.
    destruct tab; [exact H|].
    destruct (peakByPart Peak t !! partNumber item) as [[d|]|]; try exact H;
      (destruct (truthy (peakLoading Peak t) (partNumber item));
       [exact H|now apply fetch_guarded]).
  - unfold Table.peak_next.
    destruct (requests Peak t !! n) as [[k []]|] eqn:Hn; try exact H.
    destruct (isFailed res), (data res); now apply finish_guarded.
  - unfold Table.peak_error.
    destruct (requests Peak t !! n) as [[k []]|] eqn:Hn; try exact H.
    now apply finish_guarded.
Qed.

(** X24. However the rows are expanded, tabs selected and lookups answered,
    the table never has two peak lookups in flight for the same part, and a
    part shows as loading exactly while it has one. *)
Theorem one_lookup_in_flight_per_part es :
  List.NoDup (in_flight (run es)) /\
  forall k, truthy (peakLoading Peak (run es)) k = true <->
            In k (in_flight (run es)).
Proof.
  unfold Table.run. induction es as [|e es IH] using rev_ind.
  - simpl. split; [constructor|]. intros k. unfold truthy.
    rewrite lookup_empty. simpl. split; [discriminate|tauto].
  - rewrite fold_left_app. simpl. now apply step_guarded.
Qed.

(** Expanded rows have a tab. *)
Local Abbreviation tabbed t :=
  (forall k, truthy (expanded Peak t) k = true ->
             is_Some (selectedTab Peak t !! k)).

Lemma step_tabbed (t : Table) e : tabbed t -> tabbed (step t e).
Proof.
  intros H.
  destruct e as [tot sz|fld|item|item|item tab|page|n res|n]; simpl;
    try exact H.
  - intros k. unfold Table.toggleExpand. simpl. rewrite !truthy_insert.
    rewrite String.eqb_refl.
    destruct (String.eqb_spec (rowKey item) k) as [->|Hne].
    + intros Hk. rewrite Hk.
      destruct (selectedTab Peak t !! k) eqn:Hsel; [now rewrite Hsel|].
      rewrite lookup_insert_eq. eauto.
    + intros Hk. apply H in Hk.
      destruct (negb (truthy (expanded Peak t) (rowKey item))); [|exact Hk].
      destruct (selectedTab Peak t !! rowKey item); [exact Hk|].
      now rewrite lookup_insert_ne.
  - unfold Table.fetchPeakAvailability.
    destruct (truthy (peakLoading Peak t) (partNumber item)); exact H.
  - assert (Hsel : forall k, truthy (expanded Peak t) k = true ->
                             is_Some (<[rowKey item := tab]> (selectedTab Peak t)
                                        !! k)).
    { intros k Hk. destruct (String.eqb_spec (rowKey item) k) as [->|Hne].
      - rewrite lookup_insert_eq. eauto.
      - rewrite lookup_insert_ne by assumption. now apply H. }
    unfold Table.selectTab. destruct tab; [exact Hsel|].
    destruct (peakByPart Peak t !! partNumber item) as [[d|]|]; try exact Hsel;
      (unfold Table.fetchPeakAvailability; simpl;
       destruct (truthy (peakLoading Peak t) (partNumber item)); exact Hsel).
  - unfold Table.peak_next.
    destruct (requests Peak t !! n) as [[k []]|]; try exact H.
    destruct (isFailed res), (data res); exact H.
  - unfold Table.peak_error.
    destruct (requests Peak t !! n) as [[k []]|]; exact H.
Qed.

(** X25. Every expanded row has a selected tab, in every state the table can
    reach; a row expanded for the first time shows its lots, and expanding or
    collapsing a row never changes a tab that is already selected. *)
Theorem expanded_rows_have_a_tab es :
  (forall k, truthy (expanded Peak (run es)) k = true ->
             is_Some (selectedTab Peak (run es) !! k)) /\
  (forall item,
     selectedTab Peak (toggleExpand item (run es)) !! rowKey item =
       match selectedTab Peak (run es) !! rowKey item with
       | Some tab => Some tab
       | None => if truthy (expanded Peak (run es)) (rowKey item)
                 then None else Some lots
       end).
Proof.
  split.
  - unfold Table.run. induction es as [|e es IH] using rev_ind.
    + simpl. intros k. unfold truthy. rewrite lookup_empty. discriminate.
    + rewrite fold_left_app. simpl. now apply step_tabbed.
  - intros item. unfold Table.toggleExpand. simpl.
    rewrite truthy_insert, String.eqb_refl.
    destruct (truthy (expanded Peak (run es)) (rowKey item)); simpl.
    + now destruct (selectedTab Peak (run es) !! rowKey item).
    + destruct (selectedTab Peak (run es) !! rowKey item) eqn:Hsel;
        [exact Hsel|apply lookup_insert_eq].
Qed.

End Component.


(** *** The table's events handed to the page *)

Section Wiring.
Variables Peak Item : Type.
Variable toUpperCase : string -> string.
Variable debounce : Z.

Local Abbreviation page_onSort := (Page.onSort Item toUpperCase debounce).
Local Abbreviation page_onPageChange :=
  (Page.onPageChange Item toUpperCase debounce).

Lemma page_onSort_state (c : Page.Component Item) fld :
  Page.sortState Item (page_onSort fld c) =
    {| field := fld;
       direction :=
         if String.eqb (field (Page.sortState Item c)) fld
         then match direction (Page.sortState Item c) with
              | asc => desc
              | desc => asc
              end
         else asc |} /\
  Page.page_ Item (page_onSort fld c) = 0 /\
  Page.currentPage Item (page_onSort fld c) = 0.
Proof.
  unfold Page.onSort.
  match goal with
  | |- context [Page.with_page Item ?x 0 0] =>
      destruct (PageMoreFacts.emit_keeps Item toUpperCase debounce
                  (Page.with_page Item x 0 0)) as (Hs & Hp & Hc & _)
  end.
  rewrite Hs, Hp, Hc. simpl.
  match goal with
  | |- context [Page.sortState Item (Page.emit Item toUpperCase debounce ?y)] =>
      destruct (PageMoreFacts.emit_keeps Item toUpperCase debounce y)
        as (Hs' & _)
  end.
  rewrite Hs'. simpl. repeat split.
Qed.

(** X26. The table's own sort marker and page index stay in step with the
    page that listens to it: when the field emitted by a header click is
    handed to the page's [onSort], both hold the same field and direction and
    both are on page 0; when the page emitted by [goTo] is handed to
    [onPageChange], both are on that page. *)
Theorem table_events_keep_page_in_step
    (t : Table Peak) (c : Page.Component Item) fld page :
  fld <> "" ->
  same_sort (currentSort Peak t) (Page.sortState Item c) ->
  (let (t', emitted) := onHeaderClick Peak fld t in
   let c' := page_onSort emitted c in
   same_sort (currentSort Peak t') (Page.sortState Item c') /\
   pageIndex Peak t' = Page.page_ Item c' /\
   Page.currentPage Item c' = Page.page_ Item c') /\
  (let (t', emitted) := goTo Peak page t in
   let c' := page_onPageChange emitted c in
   same_sort (currentSort Peak t') (Page.sortState Item c') /\
   pageIndex Peak t' = Page.page_ Item c' /\
   Page.currentPage Item c' = Page.page_ Item c').
Proof.
  intros Hfld Hsame. split.
  - unfold onHeaderClick. cbv zeta.
    destruct (page_onSort_state c fld) as (Hs & Hp & Hc).
    rewrite Hs, Hp, Hc. simpl. split; [|split; reflexivity].
    unfold same_sort in Hsame.
    destruct (currentSort Peak t) as [cur|].
    + subst cur. now destruct (String.eqb _ fld).
    + rewrite Hsame.
      destruct (String.eqb_spec "" fld) as [Heq|_]; [now subst fld|reflexivity].
  - unfold Table.goTo, Page.onPageChange. cbv zeta.
    match goal with
    | |- context [Page.emit Item toUpperCase debounce ?y] =>
        destruct (PageMoreFacts.emit_keeps Item toUpperCase debounce y)
          as (Hs & Hp & Hc & _)
    end.
    rewrite Hs, Hp, Hc. simpl. split; [exact Hsame|].
    pose proof (totalPages_positive (total Peak t) (pageSize Peak t)).
    split; lia.
Qed.

End Wiring.

(** A header click on the fresh table, handed to the fresh page. *)
Lemma table_events_keep_page_in_step_witness :
  "branch" <> "" /\
  same_sort (currentSort unit (Table.initial unit))
    (Page.sortState string
       (Page.initial string Str.ascii_upper 50)) /\
  same_sort
    (currentSort unit (fst (onHeaderClick unit "branch" (Table.initial unit))))
    (Page.sortState string
       (Page.onSort string Str.ascii_upper 50 "branch"
          (Page.initial string Str.ascii_upper 50))).
Proof.
  assert (Hfld : "branch" <> "") by discriminate.
  assert (Hsame : same_sort (currentSort unit (Table.initial unit))
                    (Page.sortState string
                       (Page.initial string Str.ascii_upper 50)))
    by reflexivity.
  split; [exact Hfld|]. split; [exact Hsame|].
  pose proof (table_events_keep_page_in_step unit string Str.ascii_upper 50
                (Table.initial unit) (Page.initial string Str.ascii_upper 50)
                "branch" 0 Hfld Hsame) as [H _].
  exact (proj1 H).
Defined.


(** The table on two pages and a half. *)
Lemma rowKey_injective_witness :
  Str.has_char "_" "PN-1001" = false /\
  rowKey {| partNumber := "PN-1001"; branch := "SFO" |} = "PN-1001_SFO" /\
  {| partNumber := "PN-1001"; branch := "SFO" |} =
  {| partNumber := "PN-1001"; branch := "SFO" |}.
Proof.
  split; [reflexivity|]. split; [reflexivity|].
  apply (rowKey_injective {| partNumber := "PN-1001"; branch := "SFO" |}
           {| partNumber := "PN-1001"; branch := "SFO" |});
    reflexivity.
Defined.

Lemma goTo_stays_in_range_witness :
  snd (goTo unit 7 (set_inputs unit (Some 45) 20 (Table.initial unit))) * 20
    < 45.
Proof.
  pose proof (goTo_stays_in_range unit
                (set_inputs unit (Some 45) 20 (Table.initial unit)) 7) as H.
  cbv zeta in H. destruct H as (_ & _ & _ & H).
  apply (H 45); [reflexivity|lia|simpl; lia].
Defined.

End TableFacts.


(** ** The seeded repository *)

Module RepositoryFacts.
Import CSharp Inventory Repository.

Lemma rem_of_nat (i : nat) (m : Z) :
  0 < m -> Z.rem (Z.of_nat i) m = Z.of_nat i mod m.
Proof. intros Hm. apply Z.rem_mod_nonneg; lia. Qed.

Section Seeded.
Variable World : Type.
Variable Next : Z -> Z -> World -> Z * World.
Variable UtcNow : World -> Z * World.

Local Abbreviation new_lot := (new_lot World Next UtcNow).
Local Abbreviation lots_loop := (lots_loop World Next UtcNow).
Local Abbreviation new_item := (new_item World Next UtcNow).
Local Abbreviation round := (round World Next UtcNow).
Local Abbreviation rounds := (rounds World Next UtcNow).
Local Abbreviation seeded := (MockInventoryRepository World Next UtcNow).

(** The fixed fields of the record of round [i]. *)
Local Abbreviation layout i partIndex :=
  (Some ("PN-" +:+ Int32_ToString (1000 + partIndex)),
   Some ("SUP-" +:+ Int32_ToString (5000 + partIndex)),
   Some ("Mock part " +:+ Int32_ToString partIndex +:+ " - " +:+
         (if Z.rem i 2 =? 0 then "standard" else "premium")),
   Some (nth (Z.to_nat (Z.rem i 9)) branches ""),
   Some (nth (Z.to_nat (Z.rem i 3)) uoms "")).

Lemma new_item_fixed i partIndex w :
  fixed_fields (fst (new_item i partIndex w)) = layout i partIndex.
Proof.
  unfold Repository.new_item.
  destruct (Next 0 600 w) as [available w1].
  destruct (Next 0 2 w1) as [coin1 w2].
  destruct (if coin1 =? 0 then _ else _) as [lead w3].
  destruct (Next 0 2 w3) as [coin2 w4].
  destruct (if coin2 =? 0 then _ else _) as [lastPurchase w5].
  destruct (Next 0 3 w5) as [lotCount w6].
  destruct (lots_loop _ _ _ _ _) as [lots w7].
  reflexivity.
Qed.

Lemma rounds_S n w : rounds (S n) w = round (rounds n w) (Z.of_nat n).
Proof.
  unfold Repository.rounds. now rewrite seq_S, map_app, fold_left_app.
Qed.

(** After [n] rounds there are [n] records with the fixed fields of their
    rounds, and [partIndex] is [n / 3] rounded up. *)
Lemma rounds_fixed n w :
  map fixed_fields (fst (fst (rounds n w))) =
    map (fun i => layout (Z.of_nat i) ((Z.of_nat i + 2) / 3)) (seq 0 n) /\
  snd (fst (rounds n w)) = (Z.of_nat n + 2) / 3.
Proof.
  induction n as [|n [IHl IHp]]; [split; reflexivity|].
  rewrite rounds_S. destruct (rounds n w) as [[_items partIndex] w'].
  simpl in IHl, IHp. unfold Repository.round.
  pose proof (new_item_fixed (Z.of_nat n) partIndex w') as Hfix.
  destruct (new_item (Z.of_nat n) partIndex w') as [item w''].
  simpl in Hfix. simpl fst. simpl snd. split.
  - rewrite seq_S, !map_app, IHl. simpl. now rewrite Hfix, IHp.
  - rewrite rem_of_nat, IHp by lia.
    destruct (Z.eqb_spec (Z.of_nat n mod 3) 0) as [H0|H0];
      rewrite Nat2Z.inj_succ; Z.div_mod_to_equations; lia.
Qed.


Lemma seeded_layout w :
  map fixed_fields (seeded w) =
    map (fun i => layout (Z.of_nat i) ((Z.of_nat i + 2) / 3)) (seq 0 60).
Proof. apply rounds_fixed. Qed.


(** A test on the fixed fields holds of every seeded record once it holds of
    the 60 layouts. *)
Lemma seeded_fixed_check
    (check : option string * option string * option string * option string
             * option string -> bool) w item :
  forallb check
    (map (fun i => layout (Z.of_nat i) ((Z.of_nat i + 2) / 3)) (seq 0 60))
    = true ->
  In item (seeded w) -> check (fixed_fields item) = true.
Proof.
  rewrite <- (seeded_layout w), forallb_forall. intros Hall Hin.
  apply Hall. apply in_map. exact Hin.
Qed.

Lemma seeded_length w : length (seeded w) = 60%nat.
Proof.
  pose proof (seeded_layout w) as Hlay. apply (f_equal length) in Hlay.
  now rewrite !length_map in Hlay.
Qed.

Lemma seeded_keys_NoDup w :
  List.NoDup (map (fun item => (PartNumber item, Branch item)) (seeded w)).
Proof.
  replace (map (fun item => (PartNumber item, Branch item)) (seeded w))
    with (map (fun f : option string * option string * option string
                       * option string * option string =>
                 (f.1.1.1.1, f.1.2))
              (map fixed_fields (seeded w)))
    by (rewrite map_map; reflexivity).
  rewrite seeded_layout. apply NoDup_ListNoDup.
  apply (bool_decide_unpack _). vm_compute. exact I.
Qed.

(** X27. Whatever the random numbers and the clock, the repository holds 60
    records; record [i] belongs to part [i / 3] rounded up, carries the part
    number PN-1000+part and the supplier SKU SUP-5000+part, and goes through
    the nine branches and the three units in turn; no two records share part
    number and branch. *)
Theorem seeded_records w :
  length (seeded w) = 60%nat /\
  (forall (i : nat) item, seeded w !! i = Some item ->
     let part := (Z.of_nat i + 2) / 3 in
     PartNumber item = Some ("PN-" +:+ Int32_ToString (1000 + part)) /\
     SupplierSku item = Some ("SUP-" +:+ Int32_ToString (5000 + part)) /\
     Description item =
       Some ("Mock part " +:+ Int32_ToString part +:+ " - " +:+
             (if Nat.even i then "standard" else "premium")) /\
     Branch item = branches !! (i mod 9)%nat /\
     Uom item = uoms !! (i mod 3)%nat) /\
  List.NoDup (map (fun item => (PartNumber item, Branch item)) (seeded w)).
Proof.
  pose proof (seeded_layout w) as Hlay. split; [|split].
  - apply (f_equal length) in Hlay. now rewrite !length_map in Hlay.
  - intros i item Hi part.
    assert (Hlt : (i < 60)%nat).
    { apply lookup_lt_Some in Hi. apply (f_equal length) in Hlay.
      rewrite !length_map, length_seq in Hlay. lia. }
    apply (f_equal (fun l => l !! i)) in Hlay.
    rewrite !list_lookup_fmap, Hi, lookup_seq_lt in Hlay by assumption.
    cbv [fmap option_fmap option_map fixed_fields] in Hlay.
    injection Hlay as Hp Hs Hd Hb Hu. fold part in Hp, Hs, Hd.
    rewrite Hp, Hs, Hd, Hb, Hu. repeat split.
    + do 3 f_equal. rewrite rem_of_nat by lia.
      destruct (Nat.even i) eqn:He.
      * apply Nat.even_spec in He as [k ->].
        replace (Z.of_nat (2 * k) mod 2) with 0; [reflexivity|].
        rewrite Nat2Z.inj_mul. symmetry. apply Z.mod_divide; [lia|].
        now exists (Z.of_nat k); lia.
      * assert (Ho : Nat.odd i = true)
          by (rewrite <- Nat.negb_even, He; reflexivity).
        apply Nat.odd_spec in Ho as [k ->].
        replace (Z.of_nat (2 * k + 1) mod 2) with 1; [reflexivity|].
        Z.div_mod_to_equations. lia.
    + rewrite rem_of_nat by lia.
      change 9 with (Z.of_nat 9). rewrite <- Nat2Z.inj_mod, Nat2Z.id.
      pose proof (Nat.mod_upper_bound i 9 ltac:(lia)) as Hlt9.
      destruct (i mod 9)%nat as [|[|[|[|[|[|[|[|[|?]]]]]]]]];
        try reflexivity; lia.
    + rewrite rem_of_nat by lia.
      change 3 with (Z.of_nat 3). rewrite <- Nat2Z.inj_mod, Nat2Z.id.
      pose proof (Nat.mod_upper_bound i 3 ltac:(lia)) as Hlt3.
      destruct (i mod 3)%nat as [|[|[|?]]]; try reflexivity; lia.
  - apply seeded_keys_NoDup.
Qed.


(** *** The random fields *)

Hypothesis Next_in_range : in_range World Next.

Local Abbreviation item_in_range :=
  (fun item : InventoryItem =>
     0 <= AvailableQty item < 600 /\
     match LeadTimeDays item with Some d => 1 <= d < 30 | None => True end /\
     (length (Lots item) < 3)%nat /\
     Forall (fun lot => 1 <= LotQty lot < 150) (Lots item)).

Lemma new_lot_in_range partIndex l w :
  1 <= LotQty (fst (new_lot partIndex l w)) < 150.
Proof.
  unfold Repository.new_lot.
  pose proof (Next_in_range 1 150 w ltac:(lia)) as Hq.
  destruct (Next 1 150 w) as [qty w1].
  destruct (Next 0 2 w1) as [coin w2].
  destruct (if coin =? 0 then _ else _) as [expiration w3].
  exact Hq.
Qed.

Lemma lots_loop_in_range n partIndex l lots w :
  Forall (fun lot => 1 <= LotQty lot < 150) lots ->
  Forall (fun lot => 1 <= LotQty lot < 150)
         (fst (lots_loop partIndex l n lots w)) /\
  length (fst (lots_loop partIndex l n lots w)) = (length lots + n)%nat.
Proof.
  revert l lots w. induction n as [|n IH]; intros l lots w Hlots; simpl.
  - split; [exact Hlots|lia].
  - pose proof (new_lot_in_range partIndex l w) as Hlot.
    destruct (new_lot partIndex l w) as [lot w1]. simpl in Hlot.
    destruct (IH (l + 1) (lots ++ [lot]) w1) as [Hall Hlen].
    { apply Forall_app. split; [exact Hlots|]. now repeat constructor. }
    split; [exact Hall|]. rewrite Hlen, length_app. simpl. lia.
Qed.

Lemma new_item_in_range i partIndex w :
  item_in_range (fst (new_item i partIndex w)).
Proof.
  unfold Repository.new_item.
  pose proof (Next_in_range 0 600 w ltac:(lia)) as Ha.
  destruct (Next 0 600 w) as [available w1].
  destruct (Next 0 2 w1) as [coin1 w2].
  assert (Hlead : match fst (if coin1 =? 0
                             then let '(d, w) := Next 1 30 w2 in (Some d, w)
                             else (None, w2)) with
                  | Some d => 1 <= d < 30
                  | None => True
                  end).
  { destruct (coin1 =? 0); [|exact I].
    pose proof (Next_in_range 1 30 w2 ltac:(lia)) as Hd.
    now destruct (Next 1 30 w2). }
  destruct (if coin1 =? 0 then _ else _) as [lead w3].
  destruct (Next 0 2 w3) as [coin2 w4].
  destruct (if coin2 =? 0 then _ else _) as [lastPurchase w5].
  pose proof (Next_in_range 0 3 w5 ltac:(lia)) as Hc.
  destruct (Next 0 3 w5) as [lotCount w6].
  destruct (lots_loop_in_range (Z.to_nat lotCount) partIndex 0 [] w6)
    as [Hlots Hlen]; [constructor|].
  destruct (lots_loop _ _ _ _ _) as [lots w7].
  simpl in *. repeat split; try lia; assumption.
Qed.

Lemma rounds_in_range n w :
  Forall item_in_range (fst (fst (rounds n w))).
Proof.
  induction n as [|n IH]; [constructor|].
  rewrite rounds_S. destruct (rounds n w) as [[_items partIndex] w'].
  simpl in IH. unfold Repository.round.
  pose proof (new_item_in_range (Z.of_nat n) partIndex w') as Hitem.
  destruct (new_item (Z.of_nat n) partIndex w') as [item w''].
  simpl fst. apply Forall_app. split; [exact IH|].
  constructor; [exact Hitem|constructor].
Qed.

Lemma seeded_in_range w : Forall item_in_range (seeded w).
Proof. apply rounds_in_range. Qed.

(** X28. With a generator that keeps [Next(min, max)] within its bounds,
    every seeded record has a quantity from 0 to 599, a lead time from 1 to
    29 days or none, and at most two lots, each with a quantity from 1 to
    149. *)
Theorem seeded_values_in_range w :
  Forall (fun item =>
            0 <= AvailableQty item < 600 /\
            match LeadTimeDays item with
            | Some d => 1 <= d < 30
            | None => True
            end /\
            (length (Lots item) < 3)%nat /\
            Forall (fun lot => 1 <= LotQty lot < 150) (Lots item))
         (seeded w).
Proof. apply seeded_in_range. Qed.

End Seeded.


(** *** The service over the seeded repository *)

Section Served.
Variable World : Type.
Variable Next : Z -> Z -> World -> Z * World.
Variable UtcNow : World -> Z * World.
Variable ToUpperInvariant : string -> string.
Variable ToLowerInvariant : string -> string.
Variable CompareString : string -> string -> comparison.
Hypothesis upper : upper_on_ascii ToUpperInvariant.

(** From here on the repository is used through the facts above only. *)
#[local] Opaque Repository.MockInventoryRepository.

Local Abbreviation seeded := (MockInventoryRepository World Next UtcNow).
Local Abbreviation SearchInventoryAsync :=
  (SearchInventoryAsync ToUpperInvariant ToLowerInvariant CompareString).
Local Abbreviation GetPeakAvailabilityAsync :=
  (GetPeakAvailabilityAsync ToUpperInvariant).
Local Abbreviation FindByPartNumberAsync :=
  (FindByPartNumberAsync ToUpperInvariant).

(** Part numbers and branch codes of seeded records are upper-case ASCII
    without surrounding white space. *)
Lemma seeded_codes w item :
  In item (seeded w) ->
  exists pn b,
    PartNumber item = Some pn /\ Branch item = Some b /\
    Trim pn = pn /\ ToUpperInvariant pn = pn /\ ToUpperInvariant b = b /\
    String.prefix "PN-" pn = true /\ Str.Contains pn "PN-" = true /\
    IsNullOrWhiteSpace (Some pn) = false.
Proof.
  intros Hin.
  pose proof (seeded_fixed_check World Next UtcNow
    (fun f =>
       match f.1.1.1.1, f.1.2 with
       | Some pn, Some b =>
           String.eqb (Trim pn) pn && is_ascii pn
           && String.eqb (Str.ascii_upper pn) pn
           && is_ascii b && String.eqb (Str.ascii_upper b) b
           && String.prefix "PN-" pn && Str.Contains pn "PN-"
           && negb (IsNullOrWhiteSpace (Some pn))
       | _, _ => false
       end) w item ltac:(vm_compute; reflexivity) Hin) as Hcheck.
  unfold fixed_fields in Hcheck. simpl in Hcheck.
  destruct (PartNumber item) as [pn|]; [|discriminate].
  destruct (Branch item) as [b|]; [|discriminate].
  repeat (apply andb_prop in Hcheck as [Hcheck ?]).
  exists pn, b.
  repeat match goal with
         | H : String.eqb _ _ = true |- _ => apply String.eqb_eq in H
         | H : negb _ = true |- _ => apply negb_true_iff in H
         end.
  repeat split; try assumption.
  - rewrite upper by assumption. assumption.
  - rewrite upper by assumption. assumption.
Qed.

(** X29. The search of the repository's own test, for any page, size and sort
    and whatever the random numbers: the criteria PN- by part number match all
    60 records, every returned record has a part number that starts with PN-,
    and a page that lies within the 60 records is full. *)
Theorem seeded_search_pages w page size sort :
  let request := {| Criteria := Some "PN-"; By := Some "PartNumber";
                    Branches := None; OnlyAvailable := false;
                    Page := page; Size := size; Sort := sort |} in
  exists result,
    SearchInventoryAsync (Some request) (seeded w) = Ok result /\
    Total result = 60 /\
    Forall (fun item => exists pn, PartNumber item = Some pn /\
                                   String.prefix "PN-" pn = true)
           (Items result) /\
    (0 <= page -> 0 < size -> (page + 1) * size <= 60 ->
     Z.of_nat (length (Items result)) = size).
Proof.
  intros request. eexists. split; [reflexivity|].
  assert (Hall : List.filter (matches_filters ToUpperInvariant request)
                   (seeded w) = seeded w).
  { apply CacheFacts.filter_all. intros item Hin.
    destruct (seeded_codes w item Hin)
      as (pn & b & Hpn & _ & _ & Hup & _ & _ & Hsub & _).
    unfold matches_filters, criteria_ok, branch_ok, available_ok,
      searched_field. simpl.
    rewrite Hpn. simpl. rewrite Hup.
    change (Trim "PN-") with "PN-".
    rewrite (upper "PN-") by reflexivity.
    change (Str.ascii_upper "PN-") with "PN-". rewrite Hsub. reflexivity. }
  pose proof (InventoryFacts.filtered_sorted_Permutation ToUpperInvariant
                ToLowerInvariant CompareString request (seeded w)) as Hperm.
  rewrite Hall in Hperm.
  pose proof (Permutation_length Hperm) as Hlen.
  rewrite seeded_length in Hlen. simpl.
  split; [rewrite Hlen; reflexivity|]. split.
  - apply List.Forall_forall. intros item Hin.
    apply SearchFacts.In_Take, SearchFacts.In_Skip in Hin.
    apply (Permutation_in _ Hperm) in Hin.
    destruct (seeded_codes w item Hin)
      as (pn & b & Hpn & _ & _ & _ & _ & Hpre & _).
    exists pn. split; assumption.
  - intros Hpage Hsize Hfit. unfold effective_size, effective_page. simpl.
    destruct (Z.leb_spec size 0) as [?|_]; [lia|].
    destruct (Z.ltb_spec page 0) as [?|_]; [lia|].
    unfold mul32. rewrite InventoryFacts.wrap32_small
      by (unfold Int32_MinValue, Int32_MaxValue; nia).
    rewrite InventoryFacts.Skip_Take_length by nia.
    rewrite Hlen. nia.
Qed.


Hypothesis Next_in_range : in_range World Next.

Lemma total_qty_bound l :
  Forall (fun i => 0 <= AvailableQty i < 600) l ->
  0 <= total_qty l <= 599 * Z.of_nat (length l).
Proof.
  induction 1 as [|x l Hx Hl IH]; [simpl; lia|].
  cbn [length]. rewrite Nat2Z.inj_succ.
  unfold total_qty in *. cbn [foldr]. lia.
Qed.

Lemma first_occurrences_distinct ks :
  List.NoDup ks -> first_occurrences ks = ks.
Proof.
  induction 1 as [|k ks Hk Hks IH]; simpl; [reflexivity|].
  rewrite IH. f_equal. apply CacheFacts.filter_all.
  intros k' Hin. apply negb_true_iff, String.eqb_neq. now intros ->.
Qed.

Lemma filter_own_key {A} (key : A -> string) l x :
  List.NoDup (map key l) -> In x l ->
  List.filter (fun y => String.eqb (key y) (key x)) l = [x].
Proof.
  induction l as [|a l IH]; simpl; intros Hnd Hin; [contradiction|].
  apply List.NoDup_cons_iff in Hnd as [Ha Hl].
  destruct Hin as [->|Hin].
  - rewrite String.eqb_refl. f_equal. apply GroupFacts.filter_none.
    intros y Hy. apply String.eqb_neq. intros Heq. apply Ha.
    rewrite <- Heq. now apply in_map.
  - destruct (String.eqb_spec (key a) (key x)) as [Heq|_]; [|now apply IH].
    exfalso. apply Ha. rewrite Heq. now apply in_map.
Qed.

Lemma NoDup_map_finer {A B C} (f : A -> B) (g : A -> C) l :
  (forall x y, In x l -> In y l -> f x = f y -> g x = g y) ->
  List.NoDup (map g l) -> List.NoDup (map f l).
Proof.
  induction l as [|a l IH]; simpl; intros Hfg Hnd; [constructor|].
  apply List.NoDup_cons_iff in Hnd as [Ha Hl]. constructor.
  - intros Hin. apply in_map_iff in Hin as (y & Hy & Hin).
    apply Ha. rewrite <- (Hfg y a) by auto. now apply in_map.
  - apply IH; auto.
Qed.

(** X30. The peak lookup of the repository's own test, for every seeded
    record and whatever the random numbers a well-behaved generator gives:
    the lookup of the record's part number returns a result under that part
    number; its branch list is, up to order, one entry per record of the
    part, with that record's branch and quantity, so it is not empty; and the
    total is the sum of the listed quantities. *)
Theorem seeded_peak_availability w item :
  In item (seeded w) ->
  exists result,
    GetPeakAvailabilityAsync (seeded w) (PartNumber item) = Ok result /\
    ResultPartNumber result = PartNumber item /\
    Permutation (BranchList result)
      (map (fun i => {| BranchCode := coalesce (Branch i) "";
                        Qty := AvailableQty i |})
           (List.filter
              (fun i => bool_decide (PartNumber i = PartNumber item))
              (seeded w))) /\
    BranchList result <> [] /\
    TotalAvailable result = total_branch_qty (BranchList result).
Proof.
  intros Hin.
  destruct (seeded_codes w item Hin)
    as (pn & b & Hpn & _ & Htrim & Hup & _ & _ & _ & Hblank).
  rewrite Hpn.
  set (same := fun i => bool_decide (PartNumber i = Some pn)).
  assert (Hfind : FindByPartNumberAsync (seeded w) (Some pn) =
                  List.filter same (seeded w)).
  { unfold Inventory.FindByPartNumberAsync. apply List.filter_ext_in.
    intros i Hi.
    destruct (seeded_codes w i Hi)
      as (pn' & b' & Hpn' & _ & Htrim' & Hup' & _).
    unfold same. rewrite Hpn'. simpl.
    rewrite Htrim, Htrim', !Hup, !Hup'.
    destruct (String.eqb_spec pn' pn) as [->|Hne].
    - now rewrite bool_decide_eq_true_2.
    - rewrite bool_decide_eq_false_2; [reflexivity|congruence]. }
  set (matches := List.filter same (seeded w)) in *.
  assert (Hitem : In item matches).
  { apply filter_In. split; [exact Hin|].
    unfold same. now rewrite bool_decide_eq_true_2. }
  assert (Hsub : forall i, In i matches ->
                   In i (seeded w) /\ PartNumber i = Some pn).
  { intros i Hi. apply filter_In in Hi as [Hi Hs]. split; [exact Hi|].
    unfold same in Hs. now apply bool_decide_eq_true_1 in Hs. }
  assert (Hrange : Forall (fun i => 0 <= AvailableQty i < 600) matches).
  { apply List.Forall_forall. intros i Hi. apply Hsub in Hi as [Hi _].
    pose proof (seeded_in_range World Next UtcNow Next_in_range w) as Hall.
    rewrite List.Forall_forall in Hall. apply Hall. exact Hi. }
  assert (Hpos : Forall (fun i => 0 <= AvailableQty i) matches).
  { eapply List.Forall_impl; [|exact Hrange]. simpl. lia. }
  assert (Hfit : total_qty matches <= Int32_MaxValue).
  { pose proof (total_qty_bound matches Hrange) as Hb.
    pose proof (CacheFacts.filter_length_le same (seeded w)) as Hl.
    fold matches in Hl. rewrite seeded_length in Hl.
    unfold Int32_MaxValue. lia. }
  assert (Hkeys : List.NoDup (map (branch_key ToUpperInvariant) matches)).
  { apply NoDup_map_finer
      with (g := fun i => (PartNumber i, Branch i)).
    - intros x y Hx Hy Hxy.
      destruct (Hsub x Hx) as [Hx' Hpx]. destruct (Hsub y Hy) as [Hy' Hpy].
      destruct (seeded_codes w x Hx') as (? & bx & _ & Hbx & _ & _ & Hux & _).
      destruct (seeded_codes w y Hy') as (? & by_ & _ & Hby & _ & _ & Huy & _).
      unfold branch_key in Hxy. rewrite Hbx, Hby in Hxy. simpl in Hxy.
      rewrite Hux, Huy in Hxy. congruence.
    - apply CacheMoreFacts.NoDup_map_filter, seeded_keys_NoDup. }
  assert (Htotals : branch_totals ToUpperInvariant matches =
                    map (fun i => {| BranchCode := coalesce (Branch i) "";
                                     Qty := AvailableQty i |}) matches).
  { unfold Inventory.branch_totals.
    rewrite first_occurrences_distinct, map_map by exact Hkeys.
    apply map_ext_in. intros i Hi.
    rewrite (filter_own_key (branch_key ToUpperInvariant)) by assumption.
    destruct (Hsub i Hi) as [Hi' _].
    destruct (seeded_codes w i Hi') as (? & bi & _ & Hbi & _ & _ & Hui & _).
    unfold branch_key, total_qty. rewrite Hbi. simpl.
    rewrite Hui. f_equal. lia. }
  rewrite PeakFacts.peak_not_blank, Hfind by exact Hblank.
  fold matches.
  destruct matches as [|first rest] eqn:Hm; [contradiction|].
  rewrite <- Hm in *.
  rewrite PeakFacts.grouped_ok by assumption. simpl.
  pose proof (PeakFacts.OrderByDescending_Permutation Z.compare Qty
                (branch_totals ToUpperInvariant matches)) as Hperm.
  rewrite LinqFacts.Sum_ok.
  - simpl. eexists. split; [reflexivity|]. simpl. repeat split.
    + apply Hsub. rewrite Hm. now left.
    + now rewrite <- Htotals.
    + intros Hnil. rewrite Hnil in Hperm.
      apply Permutation_nil in Hperm. rewrite Htotals, Hm in Hperm.
      discriminate.
  - apply List.Forall_forall. intros e He.
    apply (Permutation_in _ Hperm) in He.
    revert e He. apply List.Forall_forall.
    now apply PeakFacts.branch_totals_nonneg.
  - rewrite (LinqFacts.plain_sum_Permutation Qty _ _ Hperm).
    pose proof (PeakFacts.branch_totals_total ToUpperInvariant matches)
      as Heq.
    unfold total_branch_qty in Heq. rewrite Heq. exact Hfit.
Qed.

End Served.


(** The repository seeded by a linear congruential generator, served on ASCII
    data. *)
Lemma lcg_in_range : in_range Z RepositoryExamples.lcg.
Proof.
  intros lo hi w Hlt. unfold RepositoryExamples.lcg. cbv zeta. simpl fst.
  pose proof (Z.mod_pos_bound
                (((w * 1103515245 + 12345) mod 2147483648) / 65536)
                (hi - lo) ltac:(lia)).
  lia.
Defined.

Lemma ascii_upper_on_ascii : upper_on_ascii Str.ascii_upper.
Proof. intros s _. reflexivity. Defined.

Lemma seeded_values_in_range_witness :
  in_range Z RepositoryExamples.lcg /\
  Forall (fun item => 0 <= AvailableQty item < 600) RepositoryExamples.seeded.
Proof.
  split; [exact lcg_in_range|].
  eapply List.Forall_impl;
    [|exact (seeded_values_in_range Z RepositoryExamples.lcg
               RepositoryExamples.clock lcg_in_range 0)].
  intros item H. exact (proj1 H).
Defined.

Lemma seeded_search_pages_witness :
  upper_on_ascii Str.ascii_upper /\
  exists result,
    Examples.search
      (Some {| Criteria := Some "PN-"; By := Some "PartNumber";
               Branches := None; OnlyAvailable := false;
               Page := 0; Size := 10; Sort := Some "partNumber:asc" |})
      RepositoryExamples.seeded = Ok result /\
    Total result = 60 /\
    Z.of_nat (length (Items result)) = 10.
Proof.
  split; [exact ascii_upper_on_ascii|].
  destruct (seeded_search_pages Z RepositoryExamples.lcg
              RepositoryExamples.clock Str.ascii_upper Str.ascii_lower
              String.compare ascii_upper_on_ascii 0 0 10
              (Some "partNumber:asc"))
    as (result & Hrun & Htotal & _ & Hfull).
  exists result. split; [exact Hrun|]. split; [exact Htotal|].
  apply Hfull; lia.
Defined.

Lemma seeded_peak_availability_witness :
  let _items :=
    MockInventoryRepository Z RepositoryExamples.lcg
      RepositoryExamples.clock 0 in
  exists item result,
    In item _items /\
    PartNumber item = Some "PN-1001" /\
    GetPeakAvailabilityAsync Str.ascii_upper _items (Some "PN-1001")
      = Ok result /\
    length (BranchList result) = 3%nat.
Proof.
  intros _items.
  set (item := nth 2 _items (Examples.item "" "" "" 0)).
  assert (Hin : In item _items).
  { vm_compute. right. right. left. reflexivity. }
  assert (Hpn : PartNumber item = Some "PN-1001")
    by (vm_compute; reflexivity).
  destruct (seeded_peak_availability Z RepositoryExamples.lcg
              RepositoryExamples.clock Str.ascii_upper ascii_upper_on_ascii
              lcg_in_range 0 item Hin)
    as (result & Hrun & _ & Hperm & _).
  rewrite Hpn in Hrun, Hperm.
  exists item, result.
  split; [exact Hin|]. split; [exact Hpn|]. split; [exact Hrun|].
  rewrite (Permutation_length Hperm), length_map.
  vm_compute. reflexivity.
Defined.

End RepositoryFacts.
